(** * xhtml2pdf.w3c.cssParser: a shallow embedding of the CSS 2.1 parser

    The development follows [src/xhtml2pdf/w3c/cssParser.py].  Python text is a
    list of code points, the [re] patterns of the class [CSSParser] are terms
    of a small regular-expression language run by a backtracking matcher, the
    builder is a table of hooks over a state of its own, and every method of
    the parser is a function in a monad that threads the builder's state,
    records each hook the parser invokes, and carries Python's exceptions.

    Interpreter conventions.  The module runs on Python 2 and on Python 3 (it
    imports [six]); the flag [py3] selects between them at the three places
    where they differ in this file: what [filter] returns, the ordering of
    [None] against an [int], and whether the pattern language knows the
    escape [\uXXXX], and at the codec with which [parse] decodes a byte
    string.  Case-insensitive matching ([re.I]) folds the ASCII letters;
    other code points are compared as they are (see [Re.chr_eq]). *)

From Stdlib Require Import List NArith ZArith Lia Bool Ascii.
From Stdlib Require String Strings.Byte.
Import ListNotations.
Import String.StringSyntax.
Local Open Scope string_scope.

Set Implicit Arguments.
Set Warnings "-register-all".

(** ** Text *)

Definition char := N.
Definition str := list char.

Definition txt (s : String.string) : str :=
  map N_of_ascii (String.list_ascii_of_string s).

Definition show (s : str) : String.string :=
  String.string_of_list_ascii (map ascii_of_N s).

Fixpoint str_eqb (a b : str) : bool :=
  match a, b with
  | [], [] => true
  | x :: a', y :: b' => N.eqb x y && str_eqb a' b'
  | _, _ => false
  end.

(** [str.isspace] of CPython 3, which is also what [\s] matches in a text
    pattern and what [strip] and [lstrip] remove. *)
Definition is_space (c : char) : bool :=
  ((9 <=? c) && (c <=? 13) || (28 <=? c) && (c <=? 32)
   || (c =? 133) || (c =? 160) || (c =? 5760)
   || (8192 <=? c) && (c <=? 8202)
   || (c =? 8232) || (c =? 8233) || (c =? 8239) || (c =? 8287)
   || (c =? 12288))%N.

Fixpoint lstrip (s : str) : str :=
  match s with
  | c :: s' => if is_space c then lstrip s' else s
  | [] => []
  end.

Definition rstrip (s : str) : str := rev (lstrip (rev s)).
Definition strip (s : str) : str := rstrip (lstrip s).

Fixpoint startswith (s p : str) : bool :=
  match p, s with
  | [], _ => true
  | x :: p', y :: s' => N.eqb x y && startswith s' p'
  | _ :: _, [] => false
  end.

(** [s[:n]] and [s[n:]] for a non-negative [n]. *)
Definition upto (n : nat) (s : str) : str := firstn n s.
Definition from (n : nat) (s : str) : str := skipn n s.

(** [x in (a, b, ...)] on strings. *)
Definition str_in (x : str) (l : list str) : bool := existsb (str_eqb x) l.

(** [s.find(sub)]: the lowest index at which [sub] occurs, or [-1]. *)
Fixpoint find_from (i : Z) (s sub : str) : Z :=
  if startswith s sub then i
  else match s with
       | [] => (-1)%Z
       | _ :: s' => find_from (i + 1)%Z s' sub
       end.

Definition find (s sub : str) : Z := find_from 0%Z s sub.

(** ** Regular expressions

    The fragment of Python's pattern language that the parser uses, and a
    backtracking matcher with Python's preferences: alternatives are tried
    from the left, repetitions are greedy, and the first complete match is
    the answer. *)

Module Re.

Inductive re : Type :=
| Eps
| Chr (c : char)
| Cls (negated : bool) (ranges : list (char * char))
| Dot                                   (* [.] without [re.S] *)
| Any                                   (* [.] under [re.S] *)
| Seq (a b : re)
| Alt (a b : re)
| Rep (lo : nat) (hi : option nat) (a : re)
| Grp (i : nat) (a : re)
| NotAhead (a : re).                    (* [(?!a)] *)

Arguments Chr c%_N.

Definition Star a := Rep 0 None a.
Definition Plus a := Rep 1 None a.
Definition Opt a := Rep 0 (Some 1) a.
Definition Times n a := Rep n (Some n) a.

Fixpoint Seqs (l : list re) : re :=
  match l with
  | [] => Eps
  | [a] => a
  | a :: l' => Seq a (Seqs l')
  end.

Fixpoint Alts (l : list re) : re :=
  match l with
  | [] => Eps
  | [a] => a
  | a :: l' => Alt a (Alts l')
  end.

Definition Lit (s : String.string) : re := Seqs (map Chr (txt s)).

Definition Space : re :=
  Cls false [(9, 13); (28, 32); (133, 133); (160, 160); (5760, 5760);
             (8192, 8202); (8232, 8233); (8239, 8239); (8287, 8287);
             (12288, 12288)]%N.

(** Captured groups, the most recent binding of a number first. *)
Definition caps := list (nat * str).

Fixpoint group (i : nat) (c : caps) : option str :=
  match c with
  | [] => None
  | (j, s) :: c' => if Nat.eqb i j then Some s else group i c'
  end.

(** Case folding under [re.I].  Only the ASCII letters are folded.  With
    [re.U] Python also folds the letters beyond ASCII, and a few of those
    fold onto code points that the classes of this module contain: for
    instance U+017F onto [s], U+212A onto [k], and U+0178 into the range
    [\200-\377].  On a text that holds such a letter the matcher below can
    answer differently from Python's. *)
Definition lower (c : char) : char :=
  if ((65 <=? c) && (c <=? 90))%N then (c + 32)%N else c.
Definition upper (c : char) : char :=
  if ((97 <=? c) && (c <=? 122))%N then (c - 32)%N else c.

Definition chr_eq (ci : bool) (x c : char) : bool :=
  if ci then N.eqb (lower x) (lower c) else N.eqb x c.

Definition in_ranges (rs : list (char * char)) (c : char) : bool :=
  existsb (fun r => (fst r <=? c) && (c <=? snd r))%N rs.

Definition in_cls (ci : bool) (rs : list (char * char)) (c : char) : bool :=
  in_ranges rs c || (ci && (in_ranges rs (lower c) || in_ranges rs (upper c))).

Section Matcher.
Variable ci : bool.                   (* [re.I] *)

Fixpoint run (R : Type) (r : re) (s : str) (c : caps)
         (k : str -> caps -> option R) {struct r} : option R :=
  match r with
  | Eps => k s c
  | Chr x =>
      match s with
      | ch :: s' => if chr_eq ci x ch then k s' c else None
      | [] => None
      end
  | Cls neg rs =>
      match s with
      | ch :: s' => if xorb neg (in_cls ci rs ch) then k s' c else None
      | [] => None
      end
  | Dot =>
      match s with
      | ch :: s' => if N.eqb ch 10 then None else k s' c
      | [] => None
      end
  | Any =>
      match s with
      | _ :: s' => k s' c
      | [] => None
      end
  | Seq a b => run a s c (fun s' c' => run b s' c' k)
  | Alt a b =>
      match run a s c k with
      | Some x => Some x
      | None => run b s c k
      end
  | Rep lo hi a =>
      (fix rep (n lo : nat) (hi : option nat) (s : str) (c : caps)
         {struct n} : option R :=
         let stop := if Nat.eqb lo 0 then k s c else None in
         match n with
         | O => stop
         | S n' =>
             let more :=
               match hi with
               | Some O => None
               | _ =>
                   run a s c
                       (fun s' c' =>
                          if Nat.ltb (length s') (length s)
                          then rep n' (pred lo) (option_map pred hi) s' c'
                          else None)
               end in
             match more with
             | Some x => Some x
             | None => stop
             end
         end) (length s) lo hi s c
  | Grp i a =>
      run a s c
          (fun s' c' => k s' ((i, firstn (length s - length s') s) :: c'))
  | NotAhead a =>
      match run a s c (fun _ _ => Some tt) with
      | Some _ => None
      | None => k s c
      end
  end.

(** [pattern.match(s)]: the groups and the text after the end of the match. *)
Definition rmatch (r : re) (s : str) : option (caps * str) :=
  run r s [] (fun s' c => Some (c, s')).

End Matcher.

(** [pattern.sub('', s)]: every non-overlapping match, leftmost first, is
    removed.  Every pattern it is used with matches at least one character. *)
Fixpoint delete_all_from (ci : bool) (r : re) (n : nat) (s : str) : str :=
  match n with
  | O => s
  | S n' =>
      match s with
      | [] => []
      | ch :: s' =>
          match rmatch ci r s with
          | Some (_, rest) =>
              if Nat.ltb (length rest) (length s)
              then delete_all_from ci r n' rest
              else ch :: delete_all_from ci r n' s'
          | None => ch :: delete_all_from ci r n' s'
          end
      end
  end.

Definition delete_all (ci : bool) (r : re) (s : str) : str :=
  delete_all_from ci r (length s) s.

End Re.

(** ** The patterns of [CSSParser]

    Each [i_*] is the pattern text of the class body, each [re_*] the object
    compiled from it; all of them are compiled with [re.I | re.M | re.U]. *)

Module Pat.
Import Re.

Definition i_hex : re := Cls false [(48, 57); (97, 102); (65, 70)]%N.
Definition i_nonascii : re := Cls false [(128, 255)]%N.
(* \\(?:%s){1,6}\s? *)
Definition i_unicode : re := Seqs [Chr 92; Rep 1 (Some 6) i_hex; Opt Space].
(* i_unicode | \\[ -~\200-\377] *)
Definition i_escape : re :=
  Alt i_unicode (Seq (Chr 92) (Cls false [(32, 126); (128, 255)]%N)).
(* \-[^0-9] | [A-Za-z_] | i_nonascii | i_escape *)
Definition i_nmstart : re :=
  Alts [Seq (Chr 45) (Cls true [(48, 57)]%N);
        Cls false [(65, 90); (97, 122); (95, 95)]%N;
        i_nonascii; i_escape].
(* [-0-9A-Za-z_] | i_nonascii | i_escape *)
Definition i_nmchar : re :=
  Alts [Cls false [(45, 45); (48, 57); (65, 90); (97, 122); (95, 95)]%N;
        i_nonascii; i_escape].
(* i_ident[1:-1], the identifier without its group *)
Definition i_ident_body : re := Seq i_nmstart (Star i_nmchar).
Definition i_ident : re := Grp 1 i_ident_body.
Definition re_ident := i_ident.
(* ([^\u0000-\u007f]+), a raw string.  Python 3 reads the escapes: the
   class is everything above U+007F.  Python 2 knows no such escape and
   reads the letter u, the digits, and the range from 0 to u; under [re.I]
   it tests the lower-cased character, so the class is everything but
   the digits to U and the bracket to u. *)
Definition i_unicodeid (py3 : bool) : re :=
  if py3 then Grp 1 (Plus (Cls true [(0, 127)]%N))
  else Grp 1 (Plus (Cls true [(48, 85); (91, 117)]%N)).
Definition re_unicodeid := i_unicodeid.
(* ((?:%s)|\* ) *)
Definition i_element_name : re := Grp 1 (Alt i_ident_body (Chr 42)).
Definition re_element_name := i_element_name.
(* ((?:%s)|\*|)\|(?!=) *)
Definition i_namespace_selector : re :=
  Seqs [Grp 1 (Alts [i_ident_body; Chr 42; Eps]); Chr 124; NotAhead (Chr 61)].
Definition re_namespace_selector := i_namespace_selector.
Definition i_class : re := Seq (Chr 46) i_ident.
Definition re_class := i_class.
(* #((?:%s)+) *)
Definition i_hash : re := Seq (Chr 35) (Grp 1 (Plus i_nmchar)).
Definition re_hash := i_hash.
(* (#%s{6}|#%s{3}) *)
Definition i_rgbcolor : re :=
  Grp 1 (Alt (Seq (Chr 35) (Times 6 i_hex)) (Seq (Chr 35) (Times 3 i_hex))).
Definition re_rgbcolor := i_rgbcolor.
(* \n|\r\n|\r|\f *)
Definition i_nl : re := Alts [Chr 10; Seq (Chr 13) (Chr 10); Chr 13; Chr 12].
Definition i_escape_nl : re := Seq (Chr 92) i_nl.
(* [\t !#$%&(-~] | i_escape_nl | i_nonascii | i_escape *)
Definition i_string_content : re :=
  Alts [Cls false [(9, 9); (32, 32); (33, 33); (35, 35); (36, 36); (37, 37);
                   (38, 38); (40, 126)]%N;
        i_escape_nl; i_nonascii; i_escape].
Definition i_string1 : re :=
  Seqs [Chr 34; Grp 1 (Star (Alt i_string_content (Chr 39))); Chr 34].
Definition i_string2 : re :=
  Seqs [Chr 39; Grp 2 (Star (Alt i_string_content (Chr 34))); Chr 39].
Definition i_string : re := Alt i_string1 i_string2.
Definition re_string := i_string.
(* url\(\s*(?:(?:%s)|((?:%s)+))\s*\) *)
Definition i_uri : re :=
  Seqs [Lit "url("; Star Space;
        Alt i_string
            (Grp 3 (Plus (Alts [Cls false [(33, 33); (35, 35); (36, 36);
                                           (37, 37); (38, 38); (42, 126)]%N;
                                i_nonascii; i_escape])));
        Star Space; Chr 41].
Definition re_uri := i_uri.
(* (([-+]?[0-9]+(?:\.[0-9]+)?)|([-+]?\.[0-9]+)) *)
Definition i_sign : re := Opt (Cls false [(45, 45); (43, 43)]%N).
Definition i_digits : re := Plus (Cls false [(48, 57)]%N).
Definition i_num : re :=
  Grp 1 (Alt (Grp 2 (Seqs [i_sign; i_digits; Opt (Seq (Chr 46) i_digits)]))
             (Grp 3 (Seqs [i_sign; Chr 46; i_digits]))).
Definition re_num := i_num.
(* (%%|%s)? with the identifier's own group *)
Definition i_unit : re := Opt (Grp 1 (Alt (Chr 37) (Grp 2 i_ident_body))).
Definition re_unit := i_unit.
Definition i_function : re := Seq i_ident (Chr 40).
Definition re_function := i_function.
Definition i_functionterm : re := Seq i_sign i_function.
Definition re_functionterm := i_functionterm.
(* (?:U\+%s{1,6}-%s{1,6}): the pattern has no capturing group *)
Definition i_unicoderange1 : re :=
  Seqs [Lit "U+"; Rep 1 (Some 6) i_hex; Chr 45; Rep 1 (Some 6) i_hex].
Definition i_unicoderange : re := i_unicoderange1.
Definition re_unicoderange := i_unicoderange.
(* (?:\/\*[^*]*\*+([^/*][^*]*\*+)*\/) *)
Definition i_comment : re :=
  Seqs [Lit "/*"; Star (Cls true [(42, 42)]%N); Plus (Chr 42);
        Star (Grp 1 (Seqs [Cls true [(47, 47); (42, 42)]%N;
                           Star (Cls true [(42, 42)]%N); Plus (Chr 42)]));
        Chr 47].
Definition re_comment := i_comment.
(* !\s*(important) *)
Definition i_important : re := Seqs [Chr 33; Star Space; Grp 1 (Lit "important")].
Definition re_important := i_important.

(** The number of capturing groups of each compiled pattern, which decides
    whether [result.group(1)] exists. *)
Fixpoint groups_of (r : re) : nat :=
  match r with
  | Seq a b | Alt a b => groups_of a + groups_of b
  | Rep _ _ a | NotAhead a => groups_of a
  | Grp _ a => S (groups_of a)
  | _ => 0
  end.

End Pat.

(** ** Python values, exceptions and the builder's hooks *)

(** What the parser passes to the builder and gets back.  [PObj] is a
    reference to an object the builder owns, [PSelf] the parser itself (the
    [cssParser] argument of [at_import] and [at_ident]). *)
Inductive pyval : Type :=
| PNone
| PNotImplemented
| PStr (s : str)
| PList (l : list pyval)
| PTuple (l : list pyval)
| PObj (o : N)
| PSelf.

Definition opt_str (o : option str) : pyval :=
  match o with Some s => PStr s | None => PNone end.

Definition is_None (v : pyval) : bool :=
  match v with PNone => true | _ => false end.
Definition is_NotImplemented (v : pyval) : bool :=
  match v with PNotImplemented => true | _ => false end.

Module CSSParseError.

Record t : Type := mk {
  msg : str;
  src : str;
  ctxsrc : str;
  fullsrc : option str;
  inline : bool;
  srcCtxIdx : option Z;
  srcFullIdx : option Z;
  ctxsrcFullIdx : option Z
}.

(** An index attribute is assigned the result of [find] and deleted again
    when that is negative, which uncovers the class attribute [None]. *)
Definition located (i : Z) : option Z :=
  if (i <? 0)%Z then None else Some i.

Definition nonempty (s : str) : bool :=
  match s with [] => false | _ => true end.

(** [__init__(self, msg, src, ctxsrc=None)] *)
Definition init (msg src : str) (ctxsrc : option str) : t :=
  let ctx := match ctxsrc with
             | Some c => if nonempty c then c else src
             | None => src
             end in
  {| msg := msg; src := src; ctxsrc := ctx;
     fullsrc := None; inline := false;
     srcCtxIdx := if nonempty ctx then located (find ctx src) else None;
     srcFullIdx := None;
     ctxsrcFullIdx := None |}.

(** [setFullCSSSource(self, fullsrc, inline=False)] *)
Definition setFullCSSSource (e : t) (full : str) (inl : bool) : t :=
  {| msg := msg e; src := src e; ctxsrc := ctxsrc e;
     fullsrc := Some full;
     inline := if inl then true else inline e;
     srcCtxIdx := srcCtxIdx e;
     srcFullIdx := if nonempty full then located (find full (src e))
                   else srcFullIdx e;
     ctxsrcFullIdx := if nonempty full then located (find full (ctxsrc e))
                      else ctxsrcFullIdx e |}.

End CSSParseError.

Inductive exn : Type :=
| ParseError (e : CSSParseError.t)
| NotImplementedError
| TypeError
| IndexError
| AttributeError
| OtherError (tag : str)               (* anything else a hook raises *)
| UnicodeDecodeError.

(** The methods the parser invokes on its builder and on the selectors the
    builder hands out. *)
Module Hook.

Inductive t : Type :=
(* CSSBuilderAbstract *)
| set_charset | begin_stylesheet | stylesheet | end_stylesheet
| begin_inline | inline | end_inline | ruleset
| resolve_namespace_prefix
| at_charset | at_import | at_namespace | at_media | at_page | at_font_face
| at_ident
| combine_selectors | selector
| property | combine_terms
| term_ident | term_number | term_rgb | term_uri | term_string
| term_unicode_range | term_function | term_unknown
(* CSSSelectorAbstract *)
| add_hash_id | add_class | add_attribute | add_attribute_operation
| add_pseudo | add_pseudo_function
(* invoked by the parser, declared by neither abstract class *)
| at_frame
| iter.                               (* [__iter__], behind [list.extend] *)

Definition eqb (a b : t) : bool :=
  match a, b with
  | set_charset, set_charset | begin_stylesheet, begin_stylesheet
  | stylesheet, stylesheet | end_stylesheet, end_stylesheet
  | begin_inline, begin_inline | inline, inline | end_inline, end_inline
  | ruleset, ruleset | resolve_namespace_prefix, resolve_namespace_prefix
  | at_charset, at_charset | at_import, at_import
  | at_namespace, at_namespace | at_media, at_media | at_page, at_page
  | at_font_face, at_font_face | at_ident, at_ident
  | combine_selectors, combine_selectors | selector, selector
  | property, property | combine_terms, combine_terms
  | term_ident, term_ident | term_number, term_number | term_rgb, term_rgb
  | term_uri, term_uri | term_string, term_string
  | term_unicode_range, term_unicode_range | term_function, term_function
  | term_unknown, term_unknown
  | add_hash_id, add_hash_id | add_class, add_class
  | add_attribute, add_attribute
  | add_attribute_operation, add_attribute_operation
  | add_pseudo, add_pseudo | add_pseudo_function, add_pseudo_function
  | at_frame, at_frame | iter, iter => true
  | _, _ => false
  end.

(** Methods of [CSSSelectorAbstract]: their first argument is the receiver. *)
Definition of_selector (h : t) : bool :=
  match h with
  | add_hash_id | add_class | add_attribute | add_attribute_operation
  | add_pseudo | add_pseudo_function => true
  | _ => false
  end.

(** Methods declared by [CSSBuilderAbstract] or [CSSSelectorAbstract]. *)
Definition declared (h : t) : bool :=
  match h with
  | at_frame | iter => false
  | _ => true
  end.

(** Whether a method's signature accepts [n] arguments besides [self]. *)
Definition accepts (h : t) (n : nat) : bool :=
  match h with
  | begin_stylesheet | end_stylesheet | begin_inline | end_inline | iter =>
      Nat.eqb n 0
  | set_charset | stylesheet | inline | at_charset | at_font_face | selector
  | term_ident | term_rgb | term_uri | term_string | term_unicode_range
  | term_unknown | add_hash_id | add_class | add_attribute | add_pseudo =>
      Nat.eqb n 1
  | ruleset | resolve_namespace_prefix | at_namespace | at_media
  | term_function | add_pseudo_function | at_frame =>
      Nat.eqb n 2
  | at_import | at_page | at_ident | combine_selectors | combine_terms
  | add_attribute_operation =>
      Nat.eqb n 3
  | property => Nat.eqb n 2 || Nat.eqb n 3       (* important=False *)
  | term_number => Nat.eqb n 1 || Nat.eqb n 2    (* units=None *)
  end.

End Hook.

Inductive result (A : Type) : Type :=
| Ok (a : A)
| Err (e : exn).
Arguments Ok {A} a.
Arguments Err {A} e.

(** A builder: every hook takes the call's arguments (for a selector method,
    the receiver first) and the builder's state. *)
Definition builder (B : Type) : Type :=
  Hook.t -> list pyval -> B -> result pyval * B.

(** [CSSBuilderAbstract] and [CSSSelectorAbstract]: the implementation a
    concrete builder inherits for every hook it does not override. *)
Definition abstract_method (h : Hook.t) (args : list pyval) : result pyval :=
  if negb (Hook.declared h) then Err AttributeError
  else
    let n := if Hook.of_selector h then pred (length args) else length args in
    if negb (Hook.accepts h n) then Err TypeError
    else
      match h, args with
      | Hook.at_ident, [_; _; src] => Ok (PTuple [src; PNotImplemented])
      | _, _ => Err NotImplementedError
      end.

Definition CSSBuilderAbstract (B : Type) : builder B :=
  fun h args st => (abstract_method h args, st).

(** ** The parser's monad

    A computation runs on the builder's state and the record of the hooks
    invoked so far (most recent first).  It returns, raises, or runs out of
    fuel; the last stands for a Python loop that does not end. *)

Inductive outcome (A : Type) : Type :=
| Ret (a : A)
| Raise (e : exn)
| Diverge.
Arguments Ret {A} a.
Arguments Raise {A} e.
Arguments Diverge {A}.

Definition call : Type := (Hook.t * list pyval)%type.

Record world (B : Type) : Type := World {
  bstate : B;
  calls : list call
}.

Definition M (B A : Type) : Type := world B -> outcome A * world B.

Definition ret {B A} (a : A) : M B A := fun w => (Ret a, w).
Definition raise {B A} (e : exn) : M B A := fun w => (Raise e, w).
Definition diverge {B A} : M B A := fun w => (Diverge, w).

Definition bind {B A C} (m : M B A) (f : A -> M B C) : M B C :=
  fun w =>
    match m w with
    | (Ret a, w') => f a w'
    | (Raise e, w') => (Raise e, w')
    | (Diverge, w') => (Diverge, w')
    end.

Declare Scope py_scope.
Delimit Scope py_scope with py.
Notation "x <- m ;; k" := (bind m (fun x => k))
  (at level 61, m at next level, right associativity) : py_scope.
Notation "' p <- m ;; k" := (bind m (fun x => let 'p := x in k))
  (at level 61, p pattern, m at next level, right associativity) : py_scope.
Notation "m ;;; k" := (bind m (fun _ => k))
  (at level 61, right associativity) : py_scope.
Local Open Scope py_scope.

(** [try: m except self.ParseError: h] *)
Definition except_ParseError {B A} (m : M B A)
           (h : CSSParseError.t -> M B A) : M B A :=
  fun w =>
    match m w with
    | (Raise (ParseError e), w') => h e w'
    | r => r
    end.

(** [try: m finally: f] *)
Definition finally {B A C} (m : M B A) (f : M B C) : M B A :=
  fun w =>
    match m w with
    | (Diverge, w') => (Diverge, w')
    | (r, w') =>
        match f w' with
        | (Ret _, w'') => (r, w'')
        | (Raise e, w'') => (Raise e, w'')
        | (Diverge, w'') => (Diverge, w'')
        end
    end.

Definition lift {B A} (r : result A) : M B A :=
  match r with Ok a => ret a | Err e => raise e end.

Definition raise_ParseError {B A} (msg : String.string) (src ctxsrc : str)
  : M B A :=
  raise (ParseError (CSSParseError.init (txt msg) src (Some ctxsrc))).

(** The chronological list of the hooks invoked so far. *)
Definition trace {B} (w : world B) : list call := rev (calls w).

(** The names of the hooks invoked so far, in order. *)
Definition hooks {B} (w : world B) : list Hook.t := map fst (trace w).

(** ** Helpers on text *)

Definition first1 (s : str) : str := upto 1 s.
Definition pair_str (s : str) (v : pyval) : str * pyval := (s, v).

(** [a, b = v] where the first component must be text.  Every failure of the
    unpacking, or of the first use of a component that is not text, is
    reported as a [TypeError]. *)
Definition unpack_src {B} (v : pyval) : M B (str * pyval) :=
  match v with
  | PTuple [PStr s; r] | PList [PStr s; r] => ret (s, r)
  | _ => raise TypeError
  end.

(** [is_at_rule_ident(src, ident)]: [re.match(r'^@' + ident + r'\s*', src)],
    without flags.  The text [ident] is spliced into the pattern, so it is a
    pattern itself, and it is one here: [ident] is the pattern that text
    denotes, taken as a unit (a text with an alternation bar outside any
    group does not denote one).  A name made of letters, digits and hyphens
    denotes itself, [Re.Lit]; the module passes no other. *)
Definition is_at_rule_ident (src : str) (ident : Re.re) : bool :=
  match Re.rmatch false (Re.Seqs [Re.Chr 64; ident; Re.Star Re.Space]) src
  with
  | Some _ => true
  | None => false
  end.

(** [strip_at_rule_ident(src)]: [re.sub(r'^@[a-z\-]+\s*', '', src)], without
    flags, so that [^] holds at the start of the text only. *)
Definition strip_at_rule_ident (src : str) : str :=
  match Re.rmatch false
          (Re.Seqs [Re.Chr 64; Re.Plus (Re.Cls false [(97, 122); (45, 45)]%N);
                    Re.Star Re.Space]) src
  with
  | Some (_, rest) => rest
  | None => src
  end.

(** ** Byte strings

    [parse] takes a text or a byte string ([bytes] under Python 3, [str]
    under Python 2) and decodes the latter with the default codec, which is
    strict: UTF-8 under Python 3, ASCII under Python 2. *)

Inductive source : Type :=
| Text (s : str)
| Bytes (b : list Byte.byte).

Coercion Text : str >-> source.

Definition ascii_decode (b : list N) : option str :=
  if forallb (fun x => x <? 128)%N b then Some b else None.

Definition continuation (x : N) : bool := ((128 <=? x) && (x <=? 191))%N.

(** The well-formed byte sequences of UTF-8: no overlong form, no
    surrogate, nothing above U+10FFFF. *)
Fixpoint utf8_decode (b : list N) : option str :=
  match b with
  | [] => Some []
  | b0 :: r0 =>
      if (b0 <? 128)%N then option_map (cons b0) (utf8_decode r0)
      else if ((194 <=? b0) && (b0 <=? 223))%N then
        match r0 with
        | b1 :: r1 =>
            if continuation b1
            then option_map (cons ((b0 - 192) * 64 + (b1 - 128))%N)
                            (utf8_decode r1)
            else None
        | _ => None
        end
      else if ((224 <=? b0) && (b0 <=? 239))%N then
        match r0 with
        | b1 :: b2 :: r2 =>
            if continuation b1 && continuation b2
               && (negb (b0 =? 224) || (160 <=? b1))%N
               && (negb (b0 =? 237) || (b1 <=? 159))%N
            then option_map
                   (cons ((b0 - 224) * 4096 + (b1 - 128) * 64 + (b2 - 128))%N)
                   (utf8_decode r2)
            else None
        | _ => None
        end
      else if ((240 <=? b0) && (b0 <=? 244))%N then
        match r0 with
        | b1 :: b2 :: b3 :: r3 =>
            if continuation b1 && continuation b2 && continuation b3
               && (negb (b0 =? 240) || (144 <=? b1))%N
               && (negb (b0 =? 244) || (b1 <=? 143))%N
            then option_map
                   (cons ((b0 - 240) * 262144 + (b1 - 128) * 4096
                          + (b2 - 128) * 64 + (b3 - 128))%N)
                   (utf8_decode r3)
            else None
        | _ => None
        end
      else None
  end.

(** [b.decode()] *)
Definition decode (py3 : bool) (b : list Byte.byte) : option str :=
  let b := map Byte.to_N b in
  if py3 then utf8_decode b else ascii_decode b.

(** ** The grammar engine: [CSSParser] *)

(** The methods a production reaches through [self] on a path that leads
    back to itself. *)
Record Self (B : Type) : Type := {
  self_parse_expression : str -> bool -> M B (str * pyval);
  self_parse_at_keyword : str -> M B (str * pyval);
  self_parse_stylesheet : str -> M B (str * pyval)
}.

Section CSSParser.

Variable py3 : bool.
Variable B : Type.
Variable css_builder : builder B.
(** [xhtml2pdf.w3c.cssSpecial.cleanup_css], which [parse] applies first. *)
Variable cleanup_css : str -> str.


(** [self.css_builder.h(args)] *)
Definition invoke (h : Hook.t) (args : list pyval) : M B pyval :=
  fun w =>
    let '(r, st) := css_builder h args (bstate w) in
    let w' := {| bstate := st; calls := (h, args) :: calls w |} in
    match r with
    | Ok v => (Ret v, w')
    | Err e => (Raise e, w')
    end.

(** [receiver.h(args)] for a method of a selector object. *)
Definition invoke_on (receiver : pyval) (h : Hook.t) (args : list pyval)
  : M B pyval :=
  match receiver with
  | PObj _ => invoke h (receiver :: args)
  | _ => raise AttributeError
  end.

(** The elements [list.extend(v)] appends. *)
Definition elements_of (v : pyval) : M B (list pyval) :=
  match v with
  | PList l | PTuple l => ret l
  | PStr s => ret (map (fun c => PStr [c]) s)
  | PObj _ =>
      r <- invoke_on v Hook.iter [] ;;
      match r with
      | PList l | PTuple l => ret l
      | _ => raise TypeError
      end
  | _ => raise TypeError
  end.

Definition attribute_operators : list str :=
  [txt "="; txt "~="; txt "|="; txt "&="; txt "^="; txt "!="; txt "<>"].
Definition selector_qualifiers : list str :=
  [txt "#"; txt "."; txt "["; txt ":"].
Definition selector_combiners : list str := [txt "+"; txt ">"].
Definition expression_operators : list str := [txt "/"; txt "+"; txt ","].

(** *** Utility methods *)

(** [_get_match_result(rexpression, src)], with [default=None] and
    [group=1]; [result.group(1)] raises [IndexError] for a pattern that has
    no group. *)
Definition _get_match_result (rexpression : Re.re) (src : str)
  : M B (option str * str) :=
  match Re.rmatch true rexpression src with
  | Some (c, rest) =>
      if Nat.ltb (Pat.groups_of rexpression) 1 then raise IndexError
      else ret (Re.group 1 c, rest)
  | None => ret (None, src)
  end.

Definition _get_ident (src : str) : M B (option str * str) :=
  _get_match_result Pat.re_ident src.

(** [filter(None, result.groups())[0]] under Python 2: the first group
    that is neither [None] nor empty. *)
Fixpoint first_true_group (c : Re.caps) (i n : nat) : option str :=
  match n with
  | O => None
  | S n =>
      match Re.group i c with
      | Some ((_ :: _) as g) => Some g
      | _ => first_true_group c (S i) n
      end
  end.

(** [_get_string(src, rexpression)].  Under Python 2
    [filter(None, result.groups())] is the tuple of the non-empty groups:
    the answer is its first element, or [''] when it is empty.  Under
    Python 3 it is an iterator, which is true and cannot be indexed:
    [strres[0]] raises, the handler runs, and the answer is
    [result.groups()[0]], the first group whether it took part in the match
    or not. *)
Definition _get_string (src : str) (rexpression : option Re.re)
  : option str * str :=
  let rexpression := match rexpression with
                     | Some r => r
                     | None => Pat.re_string
                     end in
  match Re.rmatch true rexpression src with
  | Some (c, rest) =>
      if py3 then (Re.group 1 c, rest)
      else
        match first_true_group c 1 (Pat.groups_of rexpression) with
        | Some g => (Some g, rest)
        | None => (Some [], rest)
        end
  | None => (None, src)
  end.

Definition _get_string_or_uri (src : str) : option str * str :=
  let '(result, src) := _get_string src (Some Pat.re_uri) in
  match result with
  | None => _get_string src None
  | Some _ => (result, src)
  end.

(** [for x in candidates: if src.startswith(x): break] and its [else]:
    the first candidate that prefixes [src]. *)
Fixpoint first_prefix (candidates : list str) (src : str) : option str :=
  match candidates with
  | [] => None
  | x :: rest => if startswith src x then Some x else first_prefix rest src
  end.

(** *** Expressions *)

(** [_parse_expression_term(self, src)] *)
Definition _parse_expression_term (self : Self B) (src : str)
  : M B (str * pyval) :=
  let ctxsrc := src in
  '(result, src) <- _get_match_result Pat.re_num src ;;
  match result with
  | Some result =>
      '(units, src) <- _get_match_result Pat.re_unit src ;;
      term <- invoke Hook.term_number [PStr result; opt_str units] ;;
      ret (lstrip src, term)
  | None =>
  let '(result, src) := _get_string src (Some Pat.re_uri) in
  match result with
  | Some result =>
      term <- invoke Hook.term_uri [PStr result] ;;
      ret (lstrip src, term)
  | None =>
  let '(result, src) := _get_string src None in
  match result with
  | Some result =>
      term <- invoke Hook.term_string [PStr result] ;;
      ret (lstrip src, term)
  | None =>
  '(result, src) <- _get_match_result Pat.re_functionterm src ;;
  match result with
  | Some result =>
      '(src, params) <- self_parse_expression self src true ;;
      match src with
      | [] => raise IndexError                         (* src[0] *)
      | c :: _ =>
          if negb (N.eqb c 41) then
            raise_ParseError
              "Terminal function expression expected closing ')'" src ctxsrc
          else
            let src := lstrip (from 1 src) in
            term <- invoke Hook.term_function [PStr result; params] ;;
            ret (src, term)
      end
  | None =>
  '(result, src) <- _get_match_result Pat.re_rgbcolor src ;;
  match result with
  | Some result =>
      term <- invoke Hook.term_rgb [PStr result] ;;
      ret (lstrip src, term)
  | None =>
  '(result, src) <- _get_match_result Pat.re_unicoderange src ;;
  match result with
  | Some result =>
      term <- invoke Hook.term_unicode_range [PStr result] ;;
      ret (lstrip src, term)
  | None =>
  '(nsPrefix, src) <- _get_match_result Pat.re_namespace_selector src ;;
  '(result, src) <- _get_ident src ;;
  match result with
  | Some result =>
      result <- match nsPrefix with
                | Some nsPrefix =>
                    invoke Hook.resolve_namespace_prefix
                           [PStr nsPrefix; PStr result]
                | None => ret (PStr result)
                end ;;
      term <- invoke Hook.term_ident [result] ;;
      ret (lstrip src, term)
  | None =>
  '(result, src) <- _get_match_result (Pat.re_unicodeid py3) src ;;
  match result with
  | Some result =>
      term <- invoke Hook.term_ident [PStr result] ;;
      ret (lstrip src, term)
  | None =>
      r <- invoke Hook.term_unknown [PStr src] ;;
      unpack_src r
  end end end end end end end end.

(** The [while] loop of [_parse_expression]; [operator] is the variable of
    that name, [None] until the body has run once. *)
Fixpoint _parse_expression_while (fuel : nat) (self : Self B)
         (src : str) (term : pyval) (operator : option str)
  : M B (str * pyval * option str) :=
  if str_in (first1 src)
            [txt ""; txt ";"; txt "{"; txt "}"; txt "["; txt "]"; txt ")"]
  then ret (src, term, operator)
  else
    match fuel with
    | O => diverge
    | S fuel =>
        let '(operator, src) :=
          match first_prefix expression_operators src with
          | Some op => (op, from (length op) src)
          | None => (txt " ", src)
          end in
        '(src, term2) <- _parse_expression_term self (lstrip src) ;;
        if is_NotImplemented term2 then ret (src, term, Some operator)
        else
          term <- invoke Hook.combine_terms [term; PStr operator; term2] ;;
          _parse_expression_while fuel self src term (Some operator)
    end.

(** [_parse_expression(self, src, returnList=False)] *)
Definition _parse_expression (fuel : nat) (self : Self B)
           (src : str) (returnList : bool) : M B (str * pyval) :=
  '(src, term) <- _parse_expression_term self src ;;
  '(src, term, operator) <- _parse_expression_while fuel self src term None ;;
  match operator with
  | None =>
      if returnList then
        term <- invoke Hook.combine_terms [term; PNone; PNone] ;;
        ret (src, term)
      else ret (src, term)
  | Some _ => ret (src, term)
  end.

(** [_parse_declaration_property(self, src, propertyName)] *)
Definition _parse_declaration_property (fuel : nat) (self : Self B)
           (src : str) (propertyName : pyval) : M B (str * pyval) :=
  '(src, expr) <- _parse_expression fuel self src false ;;
  '(important, src) <- _get_match_result Pat.re_important src ;;
  let src := lstrip src in
  property <- invoke Hook.property [propertyName; expr; opt_str important] ;;
  ret (src, property).

(** [_parse_declaration(self, src)] *)
Definition _parse_declaration (fuel : nat) (self : Self B) (src : str)
  : M B (str * pyval) :=
  '(property_name, src) <- _get_ident src ;;
  match property_name with
  | Some property_name =>
      let src := lstrip src in
      let src := if str_in (first1 src) [txt ":"; txt "="]
                 then lstrip (from 1 src) else src in
      _parse_declaration_property fuel self src (PStr property_name)
  | None => ret (src, PNone)
  end.

(** The [while] loop of [_parse_declaration_group]. *)
Fixpoint _parse_declaration_group_while (fuel : nat) (self : Self B)
         (src : str) (properties : list pyval) : M B (str * list pyval) :=
  if str_in (first1 src)
            [txt ""; txt ","; txt "{"; txt "}"; txt "["; txt "]"; txt "(";
             txt ")"; txt "@"]
  then ret (src, properties)
  else
    match fuel with
    | O => diverge
    | S fuel =>
        '(src, property) <- _parse_declaration fuel self src ;;
        if startswith src (txt "*") then
          _parse_declaration_group_while fuel self
            (txt "-nothing-" ++ from 1 src) properties
        else if is_None property then ret (src, properties)
        else
          let properties := properties ++ [property] in
          if startswith src (txt ";") then
            _parse_declaration_group_while fuel self (lstrip (from 1 src))
                                           properties
          else ret (src, properties)
    end.

(** [_parse_declaration_group(self, src, braces=True)] *)
Definition _parse_declaration_group (fuel : nat) (self : Self B)
           (src : str) (braces : bool) : M B (str * list pyval) :=
  let ctxsrc := src in
  '(src, braces) <-
    (if startswith src (txt "{") then ret (from 1 src, true)
     else if braces then
       raise_ParseError "Declaration group opening '{' not found" src ctxsrc
     else ret (src, braces)) ;;
  let src := lstrip src in
  '(src, properties) <- _parse_declaration_group_while fuel self src [] ;;
  src <- (if braces then
            if negb (startswith src (txt "}")) then
              raise_ParseError "Declaration group closing '}' not found"
                               src ctxsrc
            else ret (from 1 src)
          else ret src) ;;
  ret (lstrip src, properties).

(** *** Selectors *)

Definition selector_delimiters : list str :=
  [txt ""; txt ","; txt ";"; txt "{"; txt "}"; txt "["; txt "]"; txt "(";
   txt ")"].

(** [_parse_selector_attribute(self, src, selector)] *)
Definition _parse_selector_attribute (src : str) (selector : pyval)
  : M B (str * pyval) :=
  let ctxsrc := src in
  if negb (startswith src (txt "[")) then
    raise_ParseError "Selector Attribute opening '[' not found" src ctxsrc
  else
  let src := lstrip (from 1 src) in
  '(nsPrefix, src) <- _get_match_result Pat.re_namespace_selector src ;;
  '(attrName, src) <- _get_ident src ;;
  let src := lstrip src in
  match attrName with
  | None => raise_ParseError "Expected a selector attribute name" src ctxsrc
  | Some attrName =>
  attrName <- match nsPrefix with
              | Some nsPrefix =>
                  invoke Hook.resolve_namespace_prefix
                         [PStr nsPrefix; PStr attrName]
              | None => ret (PStr attrName)
              end ;;
  let op := match first_prefix attribute_operators src with
            | Some op => op
            | None => txt ""
            end in
  let src := lstrip (from (length op) src) in
  '(attrValue, src) <-
    (if CSSParseError.nonempty op then
       '(attrValue, src) <- _get_ident src ;;
       match attrValue with
       | Some _ => ret (attrValue, src)
       | None =>
           let '(attrValue, src) := _get_string src None in
           match attrValue with
           | Some _ => ret (attrValue, src)
           | None =>
               raise_ParseError "Expected a selector attribute value"
                                src ctxsrc
           end
       end
     else ret (None, src)) ;;
  if negb (startswith src (txt "]")) then
    raise_ParseError "Selector Attribute closing ']' not found" src ctxsrc
  else
  let src := from 1 src in
  (if CSSParseError.nonempty op then
     invoke_on selector Hook.add_attribute_operation
               [attrName; PStr op; opt_str attrValue]
   else invoke_on selector Hook.add_attribute [attrName]) ;;;
  ret (src, selector)
  end.

(** [_parse_selector_pseudo(self, src, selector)] *)
Definition _parse_selector_pseudo (fuel : nat) (self : Self B)
           (src : str) (selector : pyval) : M B (str * pyval) :=
  let ctxsrc := src in
  if negb (startswith src (txt ":")) then
    raise_ParseError "Selector Pseudo ':' not found" src ctxsrc
  else
  (* [re.search] for one or two colons at the start of a line and, as group
     1, everything after them ([re.M | re.S]); [src] starts with a colon, so
     the search succeeds at the start of the text *)
  match Re.rmatch false
          (Re.Seq (Re.Rep 1 (Some 2) (Re.Chr 58)) (Re.Grp 1 (Re.Star Re.Any)))
          src with
  | None => raise AttributeError
  | Some (c, _) =>
  match Re.group 1 c with
  | None => raise AttributeError
  | Some src =>
  '(name, src) <- _get_ident src ;;
  match name with
  | None => raise_ParseError "Selector Pseudo identifier not found" src ctxsrc
  | Some name =>
      if startswith src (txt "(") then
        let src := lstrip (from 1 src) in
        '(src, term) <- _parse_expression fuel self src true ;;
        if negb (startswith src (txt ")")) then
          raise_ParseError "Selector Pseudo Function closing ')' not found"
                           src ctxsrc
        else
          let src := from 1 src in
          invoke_on selector Hook.add_pseudo_function [PStr name; term] ;;;
          ret (src, selector)
      else
        invoke_on selector Hook.add_pseudo [PStr name] ;;;
        ret (src, selector)
  end end end.

(** The qualifier loop of [_parse_simple_selector]. *)
Fixpoint _parse_simple_selector_while (fuel : nat) (self : Self B)
         (src : str) (selector : pyval) : M B (str * pyval) :=
  if CSSParseError.nonempty src && str_in (first1 src) selector_qualifiers
  then
    match fuel with
    | O => diverge
    | S fuel =>
        '(hash_, src) <- _get_match_result Pat.re_hash src ;;
        match hash_ with
        | Some hash_ =>
            invoke_on selector Hook.add_hash_id [PStr hash_] ;;;
            _parse_simple_selector_while fuel self src selector
        | None =>
        '(class_, src) <- _get_match_result Pat.re_class src ;;
        match class_ with
        | Some class_ =>
            invoke_on selector Hook.add_class [PStr class_] ;;;
            _parse_simple_selector_while fuel self src selector
        | None =>
            if startswith src (txt "[") then
              '(src, selector) <- _parse_selector_attribute src selector ;;
              _parse_simple_selector_while fuel self src selector
            else if startswith src (txt ":") then
              '(src, selector) <-
                _parse_selector_pseudo fuel self src selector ;;
              _parse_simple_selector_while fuel self src selector
            else ret (src, selector)
        end end
    end
  else ret (src, selector).

(** [_parse_simple_selector(self, src)] *)
Definition _parse_simple_selector (fuel : nat) (self : Self B) (src : str)
  : M B (str * pyval) :=
  let ctxsrc := lstrip src in
  '(nsPrefix, src) <- _get_match_result Pat.re_namespace_selector src ;;
  '(name, src) <- _get_match_result Pat.re_element_name src ;;
  name <- match name with
          | Some ((_ :: _) as name) => ret name
          | _ =>
              if str_in (first1 src) selector_qualifiers then ret (txt "*")
              else raise_ParseError "Selector name or qualifier expected"
                                    src ctxsrc
          end ;;
  name <- invoke Hook.resolve_namespace_prefix [opt_str nsPrefix; PStr name] ;;
  selector <- invoke Hook.selector [name] ;;
  '(src, selector) <- _parse_simple_selector_while fuel self src selector ;;
  ret (lstrip src, selector).

(** [while src and src[:1] not in (...): src = src[1:]] *)
Fixpoint skip_to_delimiter (src : str) : str :=
  match src with
  | [] => []
  | _ :: rest =>
      if str_in (first1 src) selector_delimiters then src
      else skip_to_delimiter rest
  end.

(** The combinator loop of [_parse_selector]; [srcLen] is the length taken
    once, after the first simple selector. *)
Fixpoint _parse_selector_while (fuel : nat) (self : Self B) (srcLen : nat)
         (src : str) (selector : pyval) : M B (str * pyval) :=
  if str_in (first1 src) selector_delimiters then ret (lstrip src, selector)
  else
    match fuel with
    | O => diverge
    | S fuel =>
        let '(combiner, src) :=
          match first_prefix selector_combiners src with
          | Some combiner => (combiner, lstrip (from (length combiner) src))
          | None => (txt " ", src)
          end in
        '(src, selectorB) <- _parse_simple_selector fuel self src ;;
        if Nat.leb srcLen (length src) then
          let src := from 1 src in
          let src := skip_to_delimiter src in
          ret (lstrip src, PNone)
        else
          selector <- invoke Hook.combine_selectors
                             [selector; PStr combiner; selectorB] ;;
          _parse_selector_while fuel self srcLen src selector
    end.

(** [_parse_selector(self, src)] *)
Definition _parse_selector (fuel : nat) (self : Self B) (src : str)
  : M B (str * pyval) :=
  '(src, selector) <- _parse_simple_selector fuel self src ;;
  let srcLen := length src in
  _parse_selector_while fuel self srcLen src selector.

(** [_parse_selector_group(self, src)] *)
Fixpoint _parse_selector_group_while (fuel : nat) (self : Self B)
         (src : str) (selectors : list pyval) : M B (str * list pyval) :=
  if str_in (first1 src)
            [txt "{"; txt "}"; txt "]"; txt "("; txt ")"; txt ";"; txt ""]
  then ret (src, selectors)
  else
    match fuel with
    | O => diverge
    | S fuel =>
        '(src, selector) <- _parse_selector fuel self src ;;
        if is_None selector then ret (src, selectors)
        else
          let selectors := selectors ++ [selector] in
          let src := if startswith src (txt ",") then lstrip (from 1 src)
                     else src in
          _parse_selector_group_while fuel self src selectors
    end.

Definition _parse_selector_group (fuel : nat) (self : Self B) (src : str)
  : M B (str * list pyval) :=
  _parse_selector_group_while fuel self src [].

(** [_parse_ruleset(self, src)] *)
Definition _parse_ruleset (fuel : nat) (self : Self B) (src : str)
  : M B (str * pyval) :=
  '(src, selectors) <- _parse_selector_group fuel self src ;;
  '(src, properties) <- _parse_declaration_group fuel self (lstrip src) true ;;
  result <- invoke Hook.ruleset [PList selectors; PList properties] ;;
  ret (src, result).

(** *** At-rules *)

(** [_parse_s_cdo_cdc(self, src)]: each round that does not stop removes at
    least three characters, so the length of [src] bounds the rounds. *)
Fixpoint _parse_s_cdo_cdc_while (n : nat) (src : str) : str :=
  let src := lstrip src in
  match n with
  | O => src
  | S n =>
      if startswith src (txt "<!--") then _parse_s_cdo_cdc_while n (from 4 src)
      else if startswith src (txt "-->") then
             _parse_s_cdo_cdc_while n (from 3 src)
           else src
  end.

Definition _parse_s_cdo_cdc (src : str) : str :=
  _parse_s_cdo_cdc_while (length src) src.

(** [_parse_at_charset(self, src)] *)
Definition _parse_at_charset (src : str) : M B str :=
  if is_at_rule_ident src (Re.Lit "charset") then
    let ctxsrc := src in
    let src := strip_at_rule_ident src in
    let '(charset, src) := _get_string src None in
    let src := lstrip src in
    if negb (str_eqb (first1 src) (txt ";")) then
      raise_ParseError "@charset expected a terminating ';'" src ctxsrc
    else
      let src := lstrip (from 1 src) in
      invoke Hook.at_charset [opt_str charset] ;;;
      ret src
  else ret src.

(** The medium list of an [@import]. *)
Fixpoint _parse_at_imports_mediums (fuel : nat) (medium : option str)
         (src : str) (mediums : list pyval) : M B (str * list pyval) :=
  match medium with
  | None => ret (src, mediums)
  | Some m =>
      match fuel with
      | O => diverge
      | S fuel =>
          let mediums := mediums ++ [PStr m] in
          if str_eqb (first1 src) (txt ",") then
            let src := lstrip (from 1 src) in
            '(medium, src) <- _get_ident src ;;
            _parse_at_imports_mediums fuel medium src mediums
          else ret (src, mediums)
      end
  end.

(** [_parse_at_imports(self, src)] *)
Fixpoint _parse_at_imports_while (fuel : nat) (src : str)
         (result : list pyval) : M B (str * list pyval) :=
  if is_at_rule_ident src (Re.Lit "import") then
    match fuel with
    | O => diverge
    | S fuel =>
        let ctxsrc := src in
        let src := strip_at_rule_ident src in
        let '(import_, src) := _get_string_or_uri src in
        match import_ with
        | None => raise_ParseError "Import expecting string or url" src ctxsrc
        | Some import_ =>
            '(medium, src) <- _get_ident (lstrip src) ;;
            '(src, mediums) <- _parse_at_imports_mediums fuel medium src [] ;;
            let mediums := match mediums with
                           | [] => [PStr (txt "all")]
                           | _ => mediums
                           end in
            if negb (str_eqb (first1 src) (txt ";")) then
              raise_ParseError "@import expected a terminating ';'" src ctxsrc
            else
              let src := lstrip (from 1 src) in
              stylesheet <- invoke Hook.at_import
                                   [PStr import_; PList mediums; PSelf] ;;
              let result := if is_None stylesheet then result
                            else result ++ [stylesheet] in
              let src := _parse_s_cdo_cdc src in
              _parse_at_imports_while fuel src result
        end
    end
  else ret (src, result).

Definition _parse_at_imports (fuel : nat) (src : str)
  : M B (str * list pyval) :=
  _parse_at_imports_while fuel src [].

(** [_parse_at_namespace(self, src)] *)
Fixpoint _parse_at_namespace_while (fuel : nat) (src : str) : M B str :=
  if is_at_rule_ident src (Re.Lit "namespace") then
    match fuel with
    | O => diverge
    | S fuel =>
        let ctxsrc := src in
        let src := strip_at_rule_ident src in
        let '(namespace, src) := _get_string_or_uri src in
        '(nsPrefix, namespace, src) <-
          match namespace with
          | Some namespace => ret (None, namespace, src)
          | None =>
              '(nsPrefix, src) <- _get_ident src ;;
              match nsPrefix with
              | None =>
                  raise_ParseError
                    "@namespace expected an identifier or a URI" src ctxsrc
              | Some _ =>
                  let '(namespace, src) := _get_string_or_uri (lstrip src) in
                  match namespace with
                  | None =>
                      raise_ParseError "@namespace expected a URI" src ctxsrc
                  | Some namespace => ret (nsPrefix, namespace, src)
                  end
              end
          end ;;
        let src := lstrip src in
        if negb (str_eqb (first1 src) (txt ";")) then
          raise_ParseError "@namespace expected a terminating ';'" src ctxsrc
        else
          let src := lstrip (from 1 src) in
          invoke Hook.at_namespace [opt_str nsPrefix; PStr namespace] ;;;
          let src := _parse_s_cdo_cdc src in
          _parse_at_namespace_while fuel src
    end
  else ret src.

Definition _parse_at_namespace (fuel : nat) (src : str) : M B str :=
  let src := _parse_s_cdo_cdc src in
  _parse_at_namespace_while fuel src.

(** The block loop shared in shape by [_parse_at_media] and
    [_parse_stylesheet]: [stylesheet_elements.extend(at_results)]. *)
Definition extend (stylesheet_elements : list pyval) (at_results : pyval)
  : M B (list pyval) :=
  more <- elements_of at_results ;;
  ret (stylesheet_elements ++ more).

(** The medium loop of [_parse_at_media]. *)
Fixpoint _parse_at_media_mediums (fuel : nat) (ctxsrc src : str)
         (mediums : list pyval) : M B (str * list pyval) :=
  match src with
  | [] => ret (src, mediums)
  | c :: _ =>
      if N.eqb c 123 then ret (src, mediums)
      else
        match fuel with
        | O => diverge
        | S fuel =>
            '(medium, src) <- _get_ident src ;;
            match medium with
            | None =>
                raise_ParseError "@media rule expected media identifier"
                                 src ctxsrc
            | Some medium =>
                if str_eqb medium (txt "and") then
                  (* re.match of any run, an opening brace and, as group 1
                     from that brace, the rest of the line; no flags *)
                  match Re.rmatch false
                          (Re.Seq (Re.Star Re.Dot)
                                  (Re.Grp 1 (Re.Seq (Re.Chr 123)
                                                    (Re.Star Re.Dot)))) src
                  with
                  | None => raise AttributeError            (* match.end() *)
                  | Some (_, rest) =>
                      let e := length src - length rest in
                      ret (from (e - 1) src, mediums)
                  end
                else
                  let mediums := mediums ++ [PStr medium] in
                  match src with
                  | [] => raise IndexError                  (* src[0] *)
                  | c :: _ =>
                      let src := if N.eqb c 44 then lstrip (from 1 src)
                                 else lstrip src in
                      _parse_at_media_mediums fuel ctxsrc src mediums
                  end
            end
        end
  end.

(** The rule loop of [_parse_at_media]. *)
Fixpoint _parse_at_media_rules (fuel : nat) (self : Self B) (src : str)
         (stylesheet_elements : list pyval) : M B (str * list pyval) :=
  if CSSParseError.nonempty src && negb (startswith src (txt "}")) then
    match fuel with
    | O => diverge
    | S fuel =>
        '(src, stylesheet_elements) <-
          (if startswith src (txt "@") then
             '(src, atResults) <- self_parse_at_keyword self src ;;
             if negb (is_None atResults) then
               stylesheet_elements <- extend stylesheet_elements atResults ;;
               ret (src, stylesheet_elements)
             else ret (src, stylesheet_elements)
           else
             '(src, ruleset) <- _parse_ruleset fuel self src ;;
             ret (src, stylesheet_elements ++ [ruleset])) ;;
        _parse_at_media_rules fuel self (lstrip src) stylesheet_elements
    end
  else ret (src, stylesheet_elements).

(** [_parse_at_media(self, src)] *)
Definition _parse_at_media (fuel : nat) (self : Self B) (src : str)
  : M B (str * pyval) :=
  let ctxsrc := src in
  let src := lstrip (from 7 src) in                 (* len('@media ') *)
  '(src, mediums) <- _parse_at_media_mediums fuel ctxsrc src [] ;;
  if negb (startswith src (txt "{")) then
    raise_ParseError "Ruleset opening '{' not found" src ctxsrc
  else
  let src := lstrip (from 1 src) in
  '(src, stylesheet_elements) <- _parse_at_media_rules fuel self src [] ;;
  if negb (startswith src (txt "}")) then
    raise_ParseError "Ruleset closing '}' not found" src ctxsrc
  else
  let src := lstrip (from 1 src) in
  result <- invoke Hook.at_media [PList mediums; PList stylesheet_elements] ;;
  ret (src, result).

(** [a + b] on the values [_get_ident] returns: text or [None]. *)
Definition str_add (a b : option str) : M B str :=
  match a, b with
  | Some a, Some b => ret (a ++ b)
  | _, _ => raise TypeError
  end.

(** The body loop of [_parse_at_page]. *)
Fixpoint _parse_at_page_while (fuel : nat) (self : Self B) (src : str)
         (stylesheet_elements properties : list pyval)
  : M B (str * list pyval) :=
  if CSSParseError.nonempty src && negb (startswith src (txt "}")) then
    match fuel with
    | O => diverge
    | S fuel =>
        '(src, stylesheet_elements, properties) <-
          (if startswith src (txt "@") then
             '(src, at_results) <- self_parse_at_keyword self src ;;
             if negb (is_None at_results) then
               stylesheet_elements <- extend stylesheet_elements at_results ;;
               ret (src, stylesheet_elements, properties)
             else ret (src, stylesheet_elements, properties)
           else
             '(src, nproperties) <-
               _parse_declaration_group fuel self (lstrip src) false ;;
             ret (src, stylesheet_elements, properties ++ nproperties)) ;;
        _parse_at_page_while fuel self (lstrip src) stylesheet_elements
                             properties
    end
  else ret (src, properties).

(** [_parse_at_page(self, src)] *)
Definition _parse_at_page (fuel : nat) (self : Self B) (src : str)
  : M B (str * pyval) :=
  let ctxsrc := src in
  let src := lstrip (from 6 src) in                 (* len('@page ') *)
  '(page, src) <- _get_ident src ;;
  '(page, pseudopage, src) <-
    (if str_eqb (first1 src) (txt ":") then
       '(pseudopage, src) <- _get_ident (from 1 src) ;;
       page <- str_add page (Some (txt "_")) ;;
       page <- str_add (Some page) pseudopage ;;
       ret (Some page, pseudopage, src)
     else ret (page, None, src)) ;;
  let src := lstrip src in
  if negb (startswith src (txt "{")) then
    raise_ParseError "Ruleset opening '{' not found" src ctxsrc
  else
  let src := lstrip (from 1 src) in
  '(src, properties) <- _parse_at_page_while fuel self src [] [] ;;
  r <- invoke Hook.at_page [opt_str page; opt_str pseudopage; PList properties] ;;
  ret (lstrip (from 1 src), PList [r]).

(** [_parse_at_frame(self, src)] *)
Definition _parse_at_frame (fuel : nat) (self : Self B) (src : str)
  : M B (str * pyval) :=
  let src := lstrip (from 7 src) in                 (* len('@frame ') *)
  '(box, src) <- _get_ident src ;;
  '(src, properties) <- _parse_declaration_group fuel self (lstrip src) true ;;
  r <- invoke Hook.at_frame [opt_str box; PList properties] ;;
  ret (lstrip src, PList [r]).

(** [_parse_at_font_face(self, src)] *)
Definition _parse_at_font_face (fuel : nat) (self : Self B) (src : str)
  : M B (str * pyval) :=
  let src := lstrip (from 11 src) in                (* len('@font-face ') *)
  '(src, properties) <- _parse_declaration_group fuel self src true ;;
  r <- invoke Hook.at_font_face [PList properties] ;;
  ret (src, PList [r]).

(** [None] where [find] found nothing. *)
Definition found (i : Z) : option Z :=
  if (i <? 0)%Z then None else Some i.

(** [_parse_at_ident(self, src)] *)
Definition _parse_at_ident (fuel : nat) (self : Self B) (src : str)
  : M B (str * pyval) :=
  let ctxsrc := src in
  '(atIdent, src) <- _get_ident (from 1 src) ;;
  match atIdent with
  | None =>
      raise_ParseError "At-rule expected an identifier for the rule" src ctxsrc
  | Some atIdent =>
  r <- invoke Hook.at_ident [PStr atIdent; PSelf; PStr src] ;;
  '(src, result) <- unpack_src r ;;
  src <-
    (if is_NotImplemented result then
       let semiIdx := found (find src (txt ";")) in
       let blockIdx :=
         found (find (match semiIdx with
                      | Some i => upto (Z.to_nat i) src
                      | None => src
                      end) (txt "{")) in
       match semiIdx, blockIdx with
       | Some _, None =>
           (* semiIdx < blockIdx: an error under Python 3, false under
              Python 2, where the next test finds no block *)
           if py3 then raise TypeError else ret []
       | Some s, Some b =>
           if (s <? b)%Z then ret (lstrip (from (Z.to_nat s + 1) src))
           else
             let src := from (Z.to_nat b) src in
             except_ParseError
               ('(src, declarations) <-
                  _parse_declaration_group fuel self src true ;;
                ret src)
               (fun _ =>
                  '(src, stylesheet) <- self_parse_stylesheet self src ;;
                  ret src)
       | None, None => ret []                   (* src[-1:-1] *)
       | None, Some b =>
           let src := from (Z.to_nat b) src in
           except_ParseError
             ('(src, declarations) <-
                _parse_declaration_group fuel self src true ;;
              ret src)
             (fun _ =>
                '(src, stylesheet) <- self_parse_stylesheet self src ;;
                ret src)
       end
     else ret src) ;;
  ret (lstrip src, result)
  end.

(** [_parse_at_keyword(self, src)] *)
Definition _parse_at_keyword (fuel : nat) (self : Self B) (src : str)
  : M B (str * pyval) :=
  let ctxsrc := src in
  if is_at_rule_ident src (Re.Lit "media") then _parse_at_media fuel self src
  else if is_at_rule_ident src (Re.Lit "page") then _parse_at_page fuel self src
  else if is_at_rule_ident src (Re.Lit "font-face") then
         _parse_at_font_face fuel self src
  else if is_at_rule_ident src (Re.Lit "import") then
         '(src, result) <- _parse_at_imports fuel src ;;
         ret (src, PList result)
  else if is_at_rule_ident src (Re.Lit "frame") then _parse_at_frame fuel self src
  else if startswith src (txt "@") then _parse_at_ident fuel self src
  else raise_ParseError "Unknown state in atKeyword" src ctxsrc.

(** *** Stylesheets *)

(** The rule loop of [_parse_stylesheet]. *)
Fixpoint _parse_stylesheet_while (fuel : nat) (self : Self B) (src : str)
         (stylesheet_elements : list pyval) : M B (str * list pyval) :=
  if CSSParseError.nonempty src then
    match fuel with
    | O => diverge
    | S fuel =>
        '(src, stylesheet_elements) <-
          (if startswith src (txt "@") then
             '(src, at_results) <- _parse_at_keyword fuel self src ;;
             if negb (is_None at_results)
                && negb (is_NotImplemented at_results) then
               stylesheet_elements <- extend stylesheet_elements at_results ;;
               ret (src, stylesheet_elements)
             else ret (src, stylesheet_elements)
           else
             '(src, ruleset) <- _parse_ruleset fuel self src ;;
             ret (src, stylesheet_elements ++ [ruleset])) ;;
        _parse_stylesheet_while fuel self (_parse_s_cdo_cdc src)
                                stylesheet_elements
    end
  else ret (src, stylesheet_elements).

(** [_parse_stylesheet(self, src)] *)
Definition _parse_stylesheet (fuel : nat) (self : Self B) (src : str)
  : M B (str * pyval) :=
  let src := Re.delete_all true Pat.re_comment src in
  src <- _parse_at_charset src ;;
  let src := _parse_s_cdo_cdc src in
  '(src, stylesheet_imports) <- _parse_at_imports fuel src ;;
  src <- _parse_at_namespace fuel src ;;
  '(src, stylesheet_elements) <- _parse_stylesheet_while fuel self src [] ;;
  stylesheet <- invoke Hook.stylesheet
                       [PList stylesheet_elements; PList stylesheet_imports] ;;
  ret (src, stylesheet).

(** The parser object: what [self] stands for after [fuel] levels of calls. *)
Fixpoint self_at (fuel : nat) : Self B :=
  match fuel with
  | O => {| self_parse_expression := fun _ _ => diverge;
            self_parse_at_keyword := fun _ => diverge;
            self_parse_stylesheet := fun _ => diverge |}
  | S fuel =>
      let self := self_at fuel in
      {| self_parse_expression := _parse_expression fuel self;
         self_parse_at_keyword := _parse_at_keyword fuel self;
         self_parse_stylesheet := _parse_stylesheet fuel self |}
  end.

(** *** The public entry points *)

(** [parse(self, src)].  A byte string is decoded, after
    [begin_stylesheet] and before the [try]; the [assert] that follows holds
    of what [decode] returns. *)
Definition parse (fuel : nat) (src : source) : M B pyval :=
  invoke Hook.begin_stylesheet [] ;;;
  src <- match src with
         | Text src => ret src
         | Bytes b =>
             match decode py3 b with
             | Some src => ret src
             | None => raise UnicodeDecodeError
             end
         end ;;
  finally
    (let src := cleanup_css src in
     '(_, stylesheet) <-
       except_ParseError
         (_parse_stylesheet fuel (self_at fuel) src)
         (fun err =>
            raise (ParseError (CSSParseError.setFullCSSSource err src false))) ;;
     ret stylesheet)
    (invoke Hook.end_stylesheet []).

(** [parse_inline(self, src)] *)
Definition parse_inline (fuel : nat) (src : str) : M B pyval :=
  invoke Hook.begin_inline [] ;;;
  finally
    ('(_, properties) <-
       except_ParseError
         (_parse_declaration_group fuel (self_at fuel) (strip src) false)
         (fun err =>
            raise (ParseError (CSSParseError.setFullCSSSource err src true))) ;;
     invoke Hook.inline [PList properties])
    (invoke Hook.end_inline []).

(** [kwAttributes.update(attributes)] on dictionaries kept in insertion
    order. *)
Fixpoint dict_set (d : list (str * str)) (k v : str) : list (str * str) :=
  match d with
  | [] => [(k, v)]
  | (k', v') :: d' =>
      if str_eqb k k' then (k', v) :: d' else (k', v') :: dict_set d' k v
  end.

Definition dict_update (d u : list (str * str)) : list (str * str) :=
  fold_left (fun d kv => dict_set d (fst kv) (snd kv)) u d.

(** The [for] loop of [parse_attributes]. *)
Fixpoint parse_attributes_for (fuel : nat) (items : list (str * str))
         (properties : list pyval) : M B (list pyval) :=
  match items with
  | [] => ret properties
  | (propertyName, src) :: items =>
      '(_, property) <-
        except_ParseError
          (_parse_declaration_property fuel (self_at fuel) (strip src)
                                       (PStr propertyName))
          (fun err =>
             raise (ParseError (CSSParseError.setFullCSSSource err src true))) ;;
      parse_attributes_for fuel items (properties ++ [property])
  end.

(** [parse_attributes(self, attributes=None, **kwAttributes)] *)
Definition parse_attributes (fuel : nat)
           (attributes : option (list (str * str)))
           (kwAttributes : list (str * str)) : M B pyval :=
  let attributes := match attributes with Some a => a | None => [] end in
  let kwAttributes := dict_update kwAttributes attributes in
  invoke Hook.begin_inline [] ;;;
  finally
    (properties <- parse_attributes_for fuel kwAttributes [] ;;
     invoke Hook.inline [PList properties])
    (invoke Hook.end_inline []).

End CSSParser.

Arguments self_at py3 {B} css_builder fuel.
Arguments parse py3 {B} css_builder cleanup_css fuel src.
Arguments parse_inline py3 {B} css_builder fuel src.
Arguments parse_attributes py3 {B} css_builder fuel attributes kwAttributes.

(** ** A recording builder

    A concrete builder to run the parser with.  It overrides every hook of
    [CSSBuilderAbstract] but [at_ident]: a constructor hook returns a fresh
    object, a selector method returns [None], [resolve_namespace_prefix]
    returns the name it is given, [term_unknown] declines by returning its
    source with [NotImplemented], and iterating one of its objects yields
    that object.  Its state is the number of objects made so far. *)
Definition recorder : builder N :=
  fun h args n =>
    match h with
    | Hook.at_ident => (abstract_method h args, n)
    | Hook.term_unknown =>
        match args with
        | [src] => (Ok (PTuple [src; PNotImplemented]), n)
        | _ => (Err TypeError, n)
        end
    | Hook.resolve_namespace_prefix =>
        match args with
        | [_; name] => (Ok name, n)
        | _ => (Err TypeError, n)
        end
    | Hook.iter =>
        match args with
        | [o] => (Ok (PList [o]), n)
        | _ => (Err TypeError, n)
        end
    | Hook.begin_stylesheet | Hook.end_stylesheet | Hook.begin_inline
    | Hook.end_inline | Hook.set_charset | Hook.at_charset | Hook.at_namespace
    | Hook.add_hash_id | Hook.add_class | Hook.add_attribute
    | Hook.add_attribute_operation | Hook.add_pseudo
    | Hook.add_pseudo_function => (Ok PNone, n)
    | _ => (Ok (PObj n), (n + 1)%N)
    end.

Definition start {B} (st : B) : world B := {| bstate := st; calls := [] |}.

(** The identity stands in for [cleanup_css] where a run needs one. *)
Definition no_cleanup (src : str) : str := src.

(** ** Notions the properties are stated with *)

(** [sub] occurs in [s] at offset [n]. *)
Definition occurs_at (n : nat) (s sub : str) : Prop :=
  n <= length s /\ startswith (skipn n s) sub = true.

(** [_get_match_result] for a pattern that has a first group: it raises
    nothing and touches no state. *)
Definition match_result (r : Re.re) (src : str) : option str * str :=
  match Re.rmatch true r src with
  | Some (c, rest) => (Re.group 1 c, rest)
  | None => (None, src)
  end.

(** The number of arguments a call passes besides [self]. *)
Definition args_besides_self (h : Hook.t) (args : list pyval) : nat :=
  if Hook.of_selector h then pred (length args) else length args.

(** The characters that end the operator loop of [_parse_expression]. *)
Definition expression_terminators : list str :=
  [txt ""; txt ";"; txt "{"; txt "}"; txt "["; txt "]"; txt ")"].

(** The hooks that open and close a parse. *)
Definition lifecycle (h : Hook.t) : bool :=
  match h with
  | Hook.begin_stylesheet | Hook.end_stylesheet
  | Hook.begin_inline | Hook.end_inline => true
  | _ => false
  end.

(** The hooks a production may invoke.  The lifecycle hooks and [inline]
    belong to the entry points, nothing calls [set_charset], and
    [term_unicode_range] stands behind a pattern without a group. *)
Definition invoked (h : Hook.t) : bool :=
  match h with
  | Hook.begin_stylesheet | Hook.end_stylesheet | Hook.begin_inline
  | Hook.end_inline | Hook.inline | Hook.set_charset
  | Hook.term_unicode_range => false
  | _ => true
  end.

(** A computation avoids the hooks [bad] when it invokes none of them. *)
Definition avoids {B A} (bad : Hook.t -> bool) (m : M B A) : Prop :=
  forall w, exists added,
    calls (snd (m w)) = added ++ calls w
    /\ Forall (fun c => bad (fst c) = false) added.

Definition Self_avoids {B} (bad : Hook.t -> bool) (self : Self B) : Prop :=
  (forall src returnList,
      avoids bad (self_parse_expression self src returnList))
  /\ (forall src, avoids bad (self_parse_at_keyword self src))
  /\ (forall src, avoids bad (self_parse_stylesheet self src)).

(** The opening hook [h] returns when invoked in [w]. *)
Definition opens {B} (css_builder : builder B) (h : Hook.t) (w : world B)
  : Prop :=
  exists v st, css_builder h [] (bstate w) = (Ok v, st).



(** ** Notions for the offsets of a parse error *)

(** [i] is the lowest offset at which [sub] occurs in [s]. *)
Definition lowest_offset (s sub : str) (i : Z) : Prop :=
  exists n, i = Z.of_nat n /\ occurs_at n s sub
            /\ forall m, m < n -> ~ occurs_at m s sub.

(** An offset field holds the outcome of a forward search for [sub] in [s]:
    the lowest offset of an occurrence, and nothing when there is none. *)
Definition searched (s sub : str) (field : option Z) : Prop :=
  match field with
  | Some i => lowest_offset s sub i
  | None => forall n, ~ occurs_at n s sub
  end.

(** The error after [setFullCSSSource] was called on it with each of
    [fulls] in turn. *)
Definition with_full_sources (e : CSSParseError.t) (fulls : list (str * bool))
  : CSSParseError.t :=
  fold_left (fun e c => CSSParseError.setFullCSSSource e (fst c) (snd c))
            fulls e.

(** The last text of [fulls] that is not empty. *)
Definition last_nonempty (fulls : list (str * bool)) : option str :=
  fold_left (fun acc c => if CSSParseError.nonempty (fst c) then Some (fst c)
                          else acc)
            fulls None.

(** A computation that never returns a value: it runs out of fuel or ends
    with an exception. *)
Definition never_returns {B A} (m : M B A) : Prop :=
  forall w a w', m w <> (Ret a, w').

(** A selector whose qualifier is no class: nothing of it is consumed. *)
Definition stuck : str := txt ".1 { color:red }".

(** The same selector after a combinator. *)
Definition hangs : str := txt "a > .1 { color:red }".

(** ** Notions for the length of the remaining source *)

(** Every captured group is at most [n] characters long. *)
Definition caps_within (n : nat) (c : Re.caps) : Prop :=
  Forall (fun p => length (snd p) <= n) c.

(** What a computation returns satisfies [Q], whenever it returns. *)
Definition post {B A} (Q : A -> Prop) (m : M B A) : Prop :=
  forall w a w', m w = (Ret a, w') -> Q a.

(** The text a hook hands back as the remaining source. *)
Definition returned_source (v : pyval) : option str :=
  match v with
  | PTuple [PStr s; _] | PList [PStr s; _] => Some s
  | _ => None
  end.

(** The two hooks that return a remaining source return no more than they
    were given. *)
Definition hooks_consume {B} (css_builder : builder B) : Prop :=
  (forall src st v st' s,
      css_builder Hook.term_unknown [PStr src] st = (Ok v, st') ->
      returned_source v = Some s -> length s <= length src)
  /\ (forall atIdent cssParser src st v st' s,
         css_builder Hook.at_ident [atIdent; cssParser; PStr src] st
         = (Ok v, st') ->
         returned_source v = Some s -> length s <= length src).

(** The methods reached through [self] hand back no more source than they
    were given. *)
Definition Self_shrinks {B} (self : Self B) : Prop :=
  (forall src returnList,
      post (fun a => length (fst a) <= length src)
           (self_parse_expression self src returnList))
  /\ (forall src, post (fun a => length (fst a) <= length src)
                       (self_parse_at_keyword self src))
  /\ (forall src, post (fun a => length (fst a) <= length src)
                       (self_parse_stylesheet self src)).

(** The remainder is no longer than [src], and no longer than what follows
    the placeholder when [src] begins with it. *)
Definition within (src : str) (s : str) : Prop :=
  length s <= length src
  /\ forall rest, src = txt "-nothing-" ++ rest -> length s <= length rest.

(** ** Notions for what a production leaves of its source *)

(** A pattern that matches the empty text. *)
Fixpoint can_match_empty (r : Re.re) : bool :=
  match r with
  | Re.Eps | Re.NotAhead _ => true
  | Re.Chr _ | Re.Cls _ _ | Re.Dot | Re.Any => false
  | Re.Seq a b => can_match_empty a && can_match_empty b
  | Re.Alt a b => can_match_empty a || can_match_empty b
  | Re.Rep lo _ a => Nat.eqb lo 0 || can_match_empty a
  | Re.Grp _ a => can_match_empty a
  end.


(** [s] is what is left of [src] behind a prefix of it. *)
Definition suffix_of (src s : str) : Prop := exists p, src = p ++ s.

(** The two hooks that return a remaining source return an end of the source
    they were given. *)
Definition hooks_hand_back_suffixes {B} (css_builder : builder B) : Prop :=
  (forall src st v st' s,
      css_builder Hook.term_unknown [PStr src] st = (Ok v, st') ->
      returned_source v = Some s -> suffix_of src s)
  /\ (forall atIdent cssParser src st v st' s,
         css_builder Hook.at_ident [atIdent; cssParser; PStr src] st
         = (Ok v, st') ->
         returned_source v = Some s -> suffix_of src s).

(** The methods reached through [self] hand back an end of their source. *)
Definition Self_leaves_suffixes {B} (self : Self B) : Prop :=
  (forall src returnList,
      post (fun a => suffix_of src (fst a))
           (self_parse_expression self src returnList))
  /\ (forall src, post (fun a => suffix_of src (fst a))
                       (self_parse_at_keyword self src))
  /\ (forall src, post (fun a => suffix_of src (fst a))
                       (self_parse_stylesheet self src)).

(** The remainder is an end of [src], and an end of what follows the
    placeholder when [src] begins with it. *)
Definition inside (src : str) (s : str) : Prop :=
  suffix_of src s
  /\ forall rest, src = txt "-nothing-" ++ rest -> suffix_of rest s.

(** A production that returns hands back an end of the source it was
    given. *)
Definition leaves_suffix {B A} (src : str) (m : M B (str * A)) : Prop :=
  post (fun a => suffix_of src (fst a)) m.

(** A production that returns has consumed at least one character. *)
Definition progresses {B A} (src : str) (m : M B (str * A)) : Prop :=
  post (fun a => length (fst a) < length src) m.

(** Every production hands back, when it returns, an end of its source. *)
Definition productions_leave_suffixes (py3 : bool) {B}
           (css_builder : builder B) (fuel : nat) (self : Self B) : Prop :=
  forall src : str,
    leaves_suffix src (_parse_stylesheet py3 css_builder fuel self src)
    /\ post (suffix_of src) (_parse_at_charset py3 css_builder src)
    /\ leaves_suffix src (_parse_at_imports py3 css_builder fuel src)
    /\ post (suffix_of src) (_parse_at_namespace py3 css_builder fuel src)
    /\ leaves_suffix src (_parse_at_keyword py3 css_builder fuel self src)
    /\ leaves_suffix src (_parse_at_media py3 css_builder fuel self src)
    /\ leaves_suffix src (_parse_at_page py3 css_builder fuel self src)
    /\ leaves_suffix src (_parse_at_frame py3 css_builder fuel self src)
    /\ leaves_suffix src (_parse_at_font_face py3 css_builder fuel self src)
    /\ leaves_suffix src (_parse_at_ident py3 css_builder fuel self src)
    /\ leaves_suffix src (_parse_ruleset py3 css_builder fuel self src)
    /\ leaves_suffix src (_parse_selector_group py3 css_builder fuel self src)
    /\ leaves_suffix src (_parse_selector py3 css_builder fuel self src)
    /\ leaves_suffix src
                     (_parse_simple_selector py3 css_builder fuel self src)
    /\ (forall selector,
           leaves_suffix src
             (_parse_selector_attribute py3 css_builder src selector))
    /\ (forall selector,
           leaves_suffix src
             (_parse_selector_pseudo py3 css_builder fuel self src selector))
    /\ (forall braces,
           leaves_suffix src
             (_parse_declaration_group py3 css_builder fuel self src braces))
    /\ leaves_suffix src (_parse_declaration py3 css_builder fuel self src)
    /\ (forall n,
           leaves_suffix src
             (_parse_declaration_property py3 css_builder fuel self src n))
    /\ (forall returnList,
           leaves_suffix src
             (_parse_expression py3 css_builder fuel self src returnList))
    /\ leaves_suffix src (_parse_expression_term py3 css_builder self src).

(** The productions that must match a delimiter or a name consume at least
    one character when they return. *)
Definition productions_progress (py3 : bool) {B}
           (css_builder : builder B) (fuel : nat) (self : Self B) : Prop :=
  forall src : str,
    progresses src (_parse_at_keyword py3 css_builder fuel self src)
    /\ progresses src (_parse_at_media py3 css_builder fuel self src)
    /\ progresses src (_parse_at_page py3 css_builder fuel self src)
    /\ progresses src (_parse_at_frame py3 css_builder fuel self src)
    /\ progresses src (_parse_at_font_face py3 css_builder fuel self src)
    /\ progresses src (_parse_at_ident py3 css_builder fuel self src)
    /\ progresses src (_parse_ruleset py3 css_builder fuel self src)
    /\ progresses src (_parse_selector py3 css_builder fuel self src)
    /\ (forall selector,
           progresses src
             (_parse_selector_attribute py3 css_builder src selector))
    /\ (forall selector,
           progresses src
             (_parse_selector_pseudo py3 css_builder fuel self src selector))
    /\ progresses src
                  (_parse_declaration_group py3 css_builder fuel self src true).

(** ** Notions for the further properties *)

(** The two hooks of the builder interface that no production calls. *)
Definition unreachable (h : Hook.t) : bool :=
  match h with
  | Hook.set_charset | Hook.term_unicode_range => true
  | _ => false
  end.

(** The hook [h] of the builder raises no parse error of its own. *)
Definition raises_no_ParseError {B} (css_builder : builder B) (h : Hook.t)
  : Prop :=
  forall args st e st', css_builder h args st <> (Err (ParseError e), st').

(** [s] without its longest prefix of characters that satisfy [p]. *)
Fixpoint skip_while (p : char -> bool) (s : str) : str :=
  match s with
  | c :: s' => if p c then skip_while p s' else s
  | [] => []
  end.

(** A small letter or a hyphen: the class [[a-z\-]]. *)
Definition is_at_name_char (c : char) : bool :=
  ((97 <=? c) && (c <=? 122) || (c =? 45))%N.

(** [strip_at_rule_ident] in words: where the source begins with [@] and a
    small letter or hyphen, the [@], every such character after it and the
    white space that follows are removed; any other source is returned as
    it is. *)
Definition strip_at_rule_ident_in_words (src : str) : str :=
  match src with
  | c :: n :: s =>
      if N.eqb c 64 && is_at_name_char n
      then lstrip (skip_while is_at_name_char s)
      else src
  | _ => src
  end.

(** The hooks of inline styles: those that open, deliver and close an
    inline declaration, and those of properties and terms. *)
Definition of_inline_styles (h : Hook.t) : bool :=
  match h with
  | Hook.begin_inline | Hook.end_inline | Hook.inline
  | Hook.property | Hook.combine_terms | Hook.resolve_namespace_prefix
  | Hook.term_ident | Hook.term_number | Hook.term_rgb | Hook.term_uri
  | Hook.term_string | Hook.term_function | Hook.term_unknown => true
  | _ => false
  end.

(** * Properties *)

(** ** Text and patterns *)

Lemma lstrip_length (s : str) : length (lstrip s) <= length s.
Proof.
  induction s as [|c s IH]; simpl; [lia|].
  destruct (is_space c); simpl; lia.
Qed.

Lemma from_length (n : nat) (s : str) : length (from n s) = length s - n.
Proof. unfold from. apply length_skipn. Qed.

Lemma upto_length (n : nat) (s : str) : length (upto n s) <= length s.
Proof. unfold upto. rewrite length_firstn. lia. Qed.

Lemma str_eqb_eq (a b : str) : str_eqb a b = true <-> a = b.
Proof.
  revert b. induction a as [|x a IH]; intros [|y b]; simpl;
    try (split; [discriminate|congruence]); try tauto.
  rewrite andb_true_iff, N.eqb_eq, IH. split.
  - intros [-> ->]. reflexivity.
  - intros H. injection H as -> ->. auto.
Qed.

Lemma startswith_app (p s : str) : startswith (p ++ s) p = true.
Proof.
  induction p as [|x p IH]; simpl; [now destruct s|]. now rewrite N.eqb_refl.
Qed.

Lemma startswith_split (s p : str) :
  startswith s p = true -> s = p ++ from (length p) s.
Proof.
  revert s. induction p as [|x p IH]; intros s H; [reflexivity|].
  destruct s as [|y s]; simpl in H; [discriminate|].
  apply andb_true_iff in H as [Hx Hp]. apply N.eqb_eq in Hx. subst y.
  simpl. f_equal. apply IH, Hp.
Qed.


Lemma find_from_found (i : Z) (s sub : str) :
  (0 <= i)%Z -> (find_from i s sub <> -1)%Z ->
  exists n, find_from i s sub = (i + Z.of_nat n)%Z /\ occurs_at n s sub
            /\ forall m, m < n -> ~ occurs_at m s sub.
Proof.
  revert i. induction s as [|c s IH]; intros i Hi H; cbn [find_from] in *.
  - destruct (startswith [] sub) eqn:E; [|congruence].
    exists 0. split; [lia|]. split; [split; [simpl; lia|exact E]|lia].
  - destruct (startswith (c :: s) sub) eqn:E.
    + exists 0. split; [lia|]. split; [split; [simpl; lia|exact E]|lia].
    + destruct (IH (i + 1)%Z ltac:(lia) H) as (n & Hn & [Hl Ho] & Hmin).
      exists (S n). split; [lia|]. split; [split; [simpl; lia|exact Ho]|].
      intros [|m] Hm [_ Hc]; cbn [skipn] in Hc; [congruence|].
      apply (Hmin m); [lia|]. split; [|exact Hc].
      lia.
Qed.

Lemma find_from_absent (i : Z) (s sub : str) :
  (0 <= i)%Z -> (find_from i s sub = -1)%Z -> forall n, ~ occurs_at n s sub.
Proof.
  revert i. induction s as [|c s IH]; intros i Hi H n [Hl Ho];
    cbn [find_from length] in *.
  - destruct (startswith [] sub) eqn:E; [lia|].
    destruct n; cbn [skipn] in Ho; congruence.
  - destruct (startswith (c :: s) sub) eqn:E; [lia|].
    destruct n as [|n]; cbn [skipn] in Ho; [congruence|].
    apply (IH (i + 1)%Z ltac:(lia) H n). split; [lia|exact Ho].
Qed.

Lemma find_from_range (i : Z) (s sub : str) :
  (0 <= i)%Z -> (find_from i s sub = -1 \/ i <= find_from i s sub)%Z.
Proof.
  revert i. induction s as [|c s IH]; intros i Hi; cbn [find_from].
  - destruct (startswith [] sub); lia.
  - destruct (startswith (c :: s) sub); [lia|].
    destruct (IH (i + 1)%Z ltac:(lia)); lia.
Qed.

(** [find] answers [-1] exactly when there is no occurrence, and otherwise
    the lowest offset of one. *)
Lemma find_spec (s sub : str) :
  ((find s sub = -1)%Z /\ forall n, ~ occurs_at n s sub)
  \/ (exists n, find s sub = Z.of_nat n /\ occurs_at n s sub
               /\ forall m, m < n -> ~ occurs_at m s sub).
Proof.
  unfold find. destruct (Z.eq_dec (find_from 0 s sub) (-1)) as [E|E].
  - left. split; [exact E|]. apply (@find_from_absent 0%Z s sub); [lia|exact E].
  - right. destruct (@find_from_found 0%Z s sub ltac:(lia) E) as (n & Hn & H).
    exists n. split; [lia|exact H].
Qed.

Lemma located_spec (s sub : str) (i : Z) :
  CSSParseError.located (find s sub) = Some i ->
  exists n, i = Z.of_nat n /\ occurs_at n s sub
            /\ forall m, m < n -> ~ occurs_at m s sub.
Proof.
  unfold CSSParseError.located.
  destruct (find_spec s sub) as [[E _]|(n & E & H)]; rewrite E.
  - simpl. discriminate.
  - destruct (Z.ltb_spec (Z.of_nat n) 0); [lia|].
    intros [= <-]. exists n. split; [reflexivity|exact H].
Qed.

Lemma located_absent (s sub : str) :
  (forall n, ~ occurs_at n s sub) ->
  CSSParseError.located (find s sub) = None.
Proof.
  intros H. unfold CSSParseError.located.
  destruct (find_spec s sub) as [[E _]|(n & E & Ho & _)]; rewrite E.
  - reflexivity.
  - now elim (H n).
Qed.
Section Bind.
Variable py3 : bool.
Variable B : Type.
Variable css_builder : builder B.

Lemma bind_assoc {A C D} (m : M B A) (f : A -> M B C) (g : C -> M B D) w :
  bind (bind m f) g w = bind m (fun x => bind (f x) g) w.
Proof. unfold bind. destruct (m w) as [[a|e|] w']; reflexivity. Qed.

Lemma bind_ext {A C} (m : M B A) (f g : A -> M B C) w :
  (forall a w', f a w' = g a w') -> bind m f w = bind m g w.
Proof. intros H. unfold bind. destruct (m w) as [[a|e|] w']; auto. Qed.

Lemma bind_ret_l {A C} (a : A) (f : A -> M B C) w : bind (ret a) f w = f a w.
Proof. reflexivity. Qed.

End Bind.


Section Eval.
Variable py3 : bool.
Variable B : Type.
Variable css_builder : builder B.

Lemma _get_match_result_ret (r : Re.re) (src : str) :
  1 <= Pat.groups_of r ->
  _get_match_result (B:=B) r src = ret (match_result r src).
Proof.
  intros H. unfold _get_match_result, match_result.
  destruct (Re.rmatch true r src) as [[c rest]|]; [|reflexivity].
  destruct (Nat.ltb_spec (Pat.groups_of r) 1); [lia|reflexivity].
Qed.

Lemma bind_ret {A C} (a : A) (f : A -> M B C) : bind (ret a) f = f a.
Proof. reflexivity. Qed.

Lemma bind_raise {A C} (e : exn) (f : A -> M B C) : bind (raise e) f = raise e.
Proof. reflexivity. Qed.

(** C7: the specification's own example of a pseudo-page without a page
    name does not parse.  [_get_ident] answers [None] for the name, and
    [page + '_' + pseudopage] raises [TypeError] before any hook is invoked,
    whatever the builder. *)
Theorem at_page_pseudo_without_name_raises :
  forall (fuel : nat) (self : Self B) (w : world B),
    _parse_at_page py3 css_builder fuel self
                   (txt "@page :first { margin-top: 1cm }") w
    = (Raise TypeError, w).
Proof.
  intros fuel self w. unfold _parse_at_page, _get_ident. cbv zeta.
  rewrite !_get_match_result_ret by (vm_compute; lia).
  replace (match_result Pat.re_ident
             (lstrip (from 6 (txt "@page :first { margin-top: 1cm }"))))
    with (@None str, txt ":first { margin-top: 1cm }")
    by (vm_compute; reflexivity).
  rewrite bind_ret.
  replace (str_eqb (first1 (txt ":first { margin-top: 1cm }")) (txt ":"))
    with true by (vm_compute; reflexivity).
  cbv iota.
  rewrite !_get_match_result_ret by (vm_compute; lia).
  reflexivity.
Qed.

End Eval.

Lemma searched_located (s sub : str) :
  searched s sub (CSSParseError.located (find s sub)).
Proof.
  destruct (CSSParseError.located (find s sub)) as [i|] eqn:E; cbn [searched].
  - now apply located_spec.
  - intros n Hn. unfold CSSParseError.located in E.
    destruct (find_spec s sub) as [[_ H]|(m & Em & _)]; [exact (H n Hn)|].
    rewrite Em in E. destruct (Z.ltb_spec (Z.of_nat m) 0); [lia|discriminate].
Qed.

Lemma with_full_sources_snoc (e : CSSParseError.t) (fulls : list (str * bool))
      (full : str) (inl : bool) :
  with_full_sources e (fulls ++ [(full, inl)])
  = CSSParseError.setFullCSSSource (with_full_sources e fulls) full inl.
Proof. unfold with_full_sources. now rewrite fold_left_app. Qed.

Lemma last_nonempty_snoc (fulls : list (str * bool)) (full : str) (inl : bool) :
  last_nonempty (fulls ++ [(full, inl)])
  = if CSSParseError.nonempty full then Some full else last_nonempty fulls.
Proof. unfold last_nonempty. now rewrite fold_left_app. Qed.

Lemma with_full_sources_fullsrc (e : CSSParseError.t)
      (fulls : list (str * bool)) :
  CSSParseError.fullsrc (with_full_sources e fulls)
  = match rev fulls with
    | c :: _ => Some (fst c)
    | [] => CSSParseError.fullsrc e
    end.
Proof.
  destruct fulls as [|c fulls] using rev_ind; [reflexivity|].
  destruct c as [full inl].
  rewrite with_full_sources_snoc, rev_app_distr. reflexivity.
Qed.

Lemma with_full_sources_keeps (e : CSSParseError.t)
      (fulls : list (str * bool)) :
  CSSParseError.src (with_full_sources e fulls) = CSSParseError.src e
  /\ CSSParseError.ctxsrc (with_full_sources e fulls) = CSSParseError.ctxsrc e
  /\ CSSParseError.srcCtxIdx (with_full_sources e fulls)
     = CSSParseError.srcCtxIdx e.
Proof.
  induction fulls as [|[full inl] fulls IH] using rev_ind; [auto|].
  rewrite with_full_sources_snoc. exact IH.
Qed.

Lemma full_offsets_searched (e0 : CSSParseError.t)
      (fulls : list (str * bool)) :
  CSSParseError.srcFullIdx e0 = None ->
  CSSParseError.ctxsrcFullIdx e0 = None ->
  match last_nonempty fulls with
  | Some full =>
      searched full (CSSParseError.src e0)
               (CSSParseError.srcFullIdx (with_full_sources e0 fulls))
      /\ searched full (CSSParseError.ctxsrc e0)
                   (CSSParseError.ctxsrcFullIdx (with_full_sources e0 fulls))
  | None =>
      CSSParseError.srcFullIdx (with_full_sources e0 fulls) = None
      /\ CSSParseError.ctxsrcFullIdx (with_full_sources e0 fulls) = None
  end.
Proof.
  intros H1 H2. induction fulls as [|[full inl] fulls IH] using rev_ind.
  - split; assumption.
  - destruct (with_full_sources_keeps e0 fulls) as (Hsrc & Hctx & _).
    rewrite last_nonempty_snoc, with_full_sources_snoc.
    unfold CSSParseError.setFullCSSSource.
    cbn [CSSParseError.srcFullIdx CSSParseError.ctxsrcFullIdx].
    destruct (CSSParseError.nonempty full).
    + rewrite Hsrc, Hctx. split; apply searched_located.
    + exact IH.
Qed.

(** C5, amended: the three offsets of a [CSSParseError] come from forward
    searches in texts that are not empty.  Whatever calls of
    [setFullCSSSource] the error has seen, the offset of the fragment in its
    context is the lowest offset at which it occurs there and is absent when
    it does not occur, provided the context is not empty; the two offsets in
    the full source are those of the searches in the last full source that
    was not empty.  In an empty text nothing is searched: the offset in the
    context stays absent, and the offsets in the full source stay what they
    were, absent on an error that has seen no other full source, while
    [fullsrc] is the text of the last call. *)
Theorem parse_error_offsets_are_searched_in_nonempty_text :
  forall (msg src : str) (ctxsrc : option str) (fulls : list (str * bool)),
    let e := with_full_sources (CSSParseError.init msg src ctxsrc) fulls in
    CSSParseError.src e = src
    /\ CSSParseError.fullsrc e = match rev fulls with
                                 | c :: _ => Some (fst c)
                                 | [] => None
                                 end
    /\ (if CSSParseError.nonempty (CSSParseError.ctxsrc e)
        then searched (CSSParseError.ctxsrc e) src (CSSParseError.srcCtxIdx e)
        else CSSParseError.srcCtxIdx e = None)
    /\ match last_nonempty fulls with
       | Some full =>
           searched full src (CSSParseError.srcFullIdx e)
           /\ searched full (CSSParseError.ctxsrc e)
                        (CSSParseError.ctxsrcFullIdx e)
       | None =>
           CSSParseError.srcFullIdx e = None
           /\ CSSParseError.ctxsrcFullIdx e = None
       end.
Proof.
  intros msg src ctxsrc fulls e. subst e.
  destruct (with_full_sources_keeps (CSSParseError.init msg src ctxsrc) fulls)
    as (Hsrc & Hctx & Hidx).
  split; [exact Hsrc|]. split; [apply with_full_sources_fullsrc|]. split.
  - rewrite Hctx, Hidx. unfold CSSParseError.init.
    cbn [CSSParseError.ctxsrc CSSParseError.srcCtxIdx].
    destruct (CSSParseError.nonempty _); [apply searched_located|reflexivity].
  - rewrite Hctx.
    apply (full_offsets_searched (CSSParseError.init msg src ctxsrc) fulls);
      reflexivity.
Qed.

(** C5, counterexample: a second call of [setFullCSSSource], with an empty
    text, leaves the offset of the first call standing, a number although
    the fragment does not occur in the full source the error now carries;
    and an error whose context is empty has no offset in it although the
    search would find the fragment at offset 0. *)
Lemma parse_error_offset_without_a_search :
  (let e := with_full_sources
              (CSSParseError.init (txt "m") (txt "b") (Some (txt "ab")))
              [(txt "xxb", false); (txt "", false)] in
   CSSParseError.fullsrc e = Some (txt "")
   /\ CSSParseError.srcFullIdx e = Some 2%Z
   /\ forall n, ~ occurs_at n (txt "") (txt "b"))
  /\ (let e := CSSParseError.init (txt "m") (txt "") None in
      CSSParseError.srcCtxIdx e = None
      /\ find (CSSParseError.ctxsrc e) (txt "") = 0%Z).
Proof.
  repeat split.
  intros n [Hn H]. cbn in Hn. destruct n; [discriminate|lia].
Qed.

Example parse_error_located_at_start :
  CSSParseError.srcCtxIdx
    (CSSParseError.init (txt "m") (txt "ab") (Some (txt "abc"))) = Some 0%Z.
Proof. reflexivity. Qed.

Example parse_error_not_located :
  CSSParseError.srcCtxIdx
    (CSSParseError.init (txt "m") (txt "x") (Some (txt "abc"))) = None.
Proof. reflexivity. Qed.

(** C9, amended: every method of [CSSBuilderAbstract] and
    [CSSSelectorAbstract], called with a number of arguments its signature
    accepts, raises [NotImplementedError], except [at_ident], which returns
    its source with [NotImplemented] and raises nothing. *)
Theorem abstract_hooks_raise_except_at_ident :
  forall (B : Type) (h : Hook.t) (args : list pyval) (st : B),
    Hook.declared h = true ->
    Hook.accepts h (args_besides_self h args) = true ->
    (h <> Hook.at_ident ->
     CSSBuilderAbstract h args st = (Err NotImplementedError, st))
    /\ (h = Hook.at_ident ->
        exists atIdent cssParser src,
          args = [atIdent; cssParser; src]
          /\ CSSBuilderAbstract h args st
             = (Ok (PTuple [src; PNotImplemented]), st)).
Proof.
  intros B h args st Hd Ha. unfold CSSBuilderAbstract, abstract_method.
  unfold args_besides_self in Ha. rewrite Hd, Ha. cbn [negb].
  split.
  - intros Hne. destruct h; try reflexivity. congruence.
  - intros ->. cbn in Ha.
    destruct args as [|a [|p [|s [|x args]]]]; try discriminate.
    exists a, p, s. split; reflexivity.
Qed.

(** C9, witness: [ruleset] on the abstract builder. *)
Lemma abstract_hooks_raise_witness :
  Hook.declared Hook.ruleset = true
  /\ CSSBuilderAbstract Hook.ruleset [PList []; PList []] 0%N
     = (Err NotImplementedError, 0%N).
Proof.
  split; [reflexivity|].
  apply (abstract_hooks_raise_except_at_ident
           Hook.ruleset [PList []; PList []] 0%N); [reflexivity|reflexivity|].
  discriminate.
Defined.

(** C9, counterexample: the default [at_ident] does not fail; it declines. *)
Lemma abstract_at_ident_does_not_raise :
  CSSBuilderAbstract Hook.at_ident
                     [PStr (txt "unknown-thing"); PSelf; PStr (txt " { a:1 }")]
                     0%N
  = (Ok (PTuple [PStr (txt " { a:1 }"); PNotImplemented]), 0%N)
  /\ CSSBuilderAbstract Hook.at_ident
                        [PStr (txt "unknown-thing"); PSelf;
                         PStr (txt " { a:1 }")] 0%N
     <> (Err NotImplementedError, 0%N).
Proof. split; [reflexivity|discriminate]. Qed.

Lemma lstrip_idem (s : str) : lstrip (lstrip s) = lstrip s.
Proof.
  induction s as [|c s IH]; [reflexivity|].
  simpl. destruct (is_space c) eqn:E; [exact IH|].
  simpl. now rewrite E.
Qed.

Section C8.
Variable py3 : bool.
Variable B : Type.
Variable css_builder : builder B.

(** C8, amended: when the text after the attribute name begins with none
    of the recognized operators, the selector is taken as having no
    operator; it is recorded as a presence-only attribute, by
    [add_attribute] with the name, exactly when the next character is the
    closing bracket, and otherwise the parser raises the parse error
    "Selector Attribute closing ']' not found". *)
Theorem attribute_without_operator_needs_closing_bracket :
  forall (src : str) (selector : pyval) (w : world B)
         (nsPrefix : option str) (s0 name s1 : str),
    startswith src (txt "[") = true ->
    match_result Pat.re_namespace_selector (lstrip (from 1 src))
    = (nsPrefix, s0) ->
    match_result Pat.re_ident s0 = (Some name, s1) ->
    first_prefix attribute_operators (lstrip s1) = None ->
    _parse_selector_attribute py3 css_builder src selector w
    = (attrName <- match nsPrefix with
                   | Some nsPrefix =>
                       invoke css_builder Hook.resolve_namespace_prefix
                              [PStr nsPrefix; PStr name]
                   | None => ret (PStr name)
                   end ;;
       if startswith (lstrip s1) (txt "]") then
         invoke_on css_builder selector Hook.add_attribute [attrName] ;;;
         ret (from 1 (lstrip s1), selector)
       else
         raise_ParseError "Selector Attribute closing ']' not found"
                          (lstrip s1) src) w.
Proof.
  intros src selector w nsPrefix s0 name s1 Hopen Hns Hname Hop.
  unfold _parse_selector_attribute, _get_ident. cbv zeta.
  rewrite Hopen. cbn [negb].
  rewrite !_get_match_result_ret by (vm_compute; lia).
  rewrite Hns, bind_ret. cbv beta iota.
  rewrite _get_match_result_ret by (vm_compute; lia).
  rewrite Hname, bind_ret. cbv beta iota. rewrite Hop.
  change (from (length (txt "")) (lstrip s1)) with (lstrip s1).
  rewrite lstrip_idem.
  change (CSSParseError.nonempty (txt "")) with false. cbv iota.
  apply bind_ext. intros attrName w'.
  rewrite bind_ret. cbv beta iota.
  destruct (startswith (lstrip s1) (txt "]")); reflexivity.
Qed.

End C8.

(** C8, witness: [[href]]. *)
Lemma attribute_without_operator_witness :
  _parse_selector_attribute true recorder (txt "[href]") (PObj 0) (start 1%N)
  = (Ret (txt "", PObj 0),
     {| bstate := 1%N;
        calls := [(Hook.add_attribute, [PObj 0; PStr (txt "href")])] |}).
Proof.
  rewrite (@attribute_without_operator_needs_closing_bracket
             true N recorder (txt "[href]") (PObj 0) (start 1%N)
             None (txt "href]") (txt "href") (txt "]"));
    reflexivity.
Defined.

(** C8, counterexample: an attribute selector with the unrecognized
    operator [$=] and a value raises instead of falling back. *)
Lemma attribute_unknown_operator_raises :
  fst (_parse_selector_attribute true recorder (txt "[a $= b]") (PObj 0)
                                 (start 1%N))
  = Raise (ParseError
             (CSSParseError.init
                (txt "Selector Attribute closing ']' not found")
                (txt "$= b]") (Some (txt "[a $= b]")))).
Proof. vm_compute. reflexivity. Qed.


Section C6.
Variable py3 : bool.
Variable B : Type.
Variable css_builder : builder B.

Lemma _parse_expression_while_stops (fuel : nat) (self : Self B) (src : str)
      (term : pyval) (operator : option str) :
  str_in (first1 src) expression_terminators = true ->
  _parse_expression_while py3 css_builder fuel self src term operator
  = ret (src, term, operator).
Proof.
  intros H. unfold expression_terminators in H.
  destruct fuel; cbn [_parse_expression_while]; rewrite H; reflexivity.
Qed.

(** Once the loop body has run, the variable [operator] is set. *)
Lemma _parse_expression_while_operator (fuel : nat) (self : Self B) :
  forall (src : str) (term : pyval) (operator : option str) (w : world B)
         src' term' operator' w',
    _parse_expression_while py3 css_builder fuel self src term operator w
    = (Ret (src', term', operator'), w') ->
    (str_in (first1 src) expression_terminators = true
     /\ operator' = operator)
    \/ (str_in (first1 src) expression_terminators = false
        /\ operator' <> None).
Proof.
  induction fuel as [|fuel IH]; intros src term operator w src' term' operator' w' H;
    cbn [_parse_expression_while] in H;
    fold expression_terminators in H;
    destruct (str_in (first1 src) expression_terminators) eqn:E.
  - left. injection H as <- <- <- <-. auto.
  - discriminate.
  - left. injection H as <- <- <- <-. auto.
  - right. split; [reflexivity|].
    destruct (first_prefix expression_operators src) as [op|].
    + unfold bind at 1 in H.
      destruct (_parse_expression_term py3 css_builder self
                  (lstrip (from (length op) src)) w) as [[[s2 t2]|e|] w2];
        try discriminate.
      destruct (is_NotImplemented t2).
      * injection H as <- <- <- <-. discriminate.
      * unfold bind at 1 in H.
        destruct (invoke css_builder Hook.combine_terms [term; PStr op; t2] w2)
          as [[t3|e|] w3]; try discriminate.
        apply IH in H. destruct H as [[_ ->]|[_ H]]; [discriminate|exact H].
    + unfold bind at 1 in H.
      destruct (_parse_expression_term py3 css_builder self (lstrip src) w)
        as [[[s2 t2]|e|] w2]; try discriminate.
      destruct (is_NotImplemented t2).
      * injection H as <- <- <- <-. discriminate.
      * unfold bind at 1 in H.
        destruct (invoke css_builder Hook.combine_terms
                         [term; PStr (txt " "); t2] w2)
          as [[t3|e|] w3]; try discriminate.
        apply IH in H. destruct H as [[_ ->]|[_ H]]; [discriminate|exact H].
Qed.

Lemma bind_returned {A C} (m : M B A) (f : A -> M B C) w a w1 :
  m w = (Ret a, w1) -> bind m f w = f a w1.
Proof. intros H. unfold bind. now rewrite H. Qed.

(** C6, amended: in list mode, when the text after the first term is empty
    or begins with one of the characters that end an expression, so that
    the operator loop is not entered, the result is the term wrapped by
    [combine_terms(term, None, None)], invoked right after the term was
    built.  When anything else follows the first term, list mode and plain
    mode agree, and nothing is wrapped, whether a second term follows or
    not. *)
Theorem list_mode_wraps_a_single_term :
  forall (fuel : nat) (self : Self B) (src : str) (w : world B)
         (src1 : str) (term : pyval) (w1 : world B),
    _parse_expression_term py3 css_builder self src w = (Ret (src1, term), w1) ->
    (str_in (first1 src1) expression_terminators = true ->
     _parse_expression py3 css_builder fuel self src true w
     = (wrapped <- invoke css_builder Hook.combine_terms [term; PNone; PNone] ;;
        ret (src1, wrapped)) w1)
    /\ (str_in (first1 src1) expression_terminators = false ->
        _parse_expression py3 css_builder fuel self src true w
        = _parse_expression py3 css_builder fuel self src false w).
Proof.
  intros fuel self src w src1 term w1 Hterm. split; intros Hstop.
  - unfold _parse_expression.
    rewrite (fun C f => @bind_returned _ C _ f _ _ _ Hterm).
    rewrite _parse_expression_while_stops by exact Hstop.
    reflexivity.
  - unfold _parse_expression.
    rewrite !(fun C f => @bind_returned _ C _ f _ _ _ Hterm).
    unfold bind.
    destruct (_parse_expression_while py3 css_builder fuel self src1 term None
                                      w1) as [[[[s2 t2] o2]|e|] w2] eqn:E;
      try reflexivity.
    apply _parse_expression_while_operator in E.
    destruct E as [[E _]|[_ E]]; [congruence|].
    destruct o2; [reflexivity|congruence].
Qed.

End C6.

(** C6, counterexample: in [a$)] no operator is written and one term
    results, yet it is returned as it is.  The loop is entered, takes the
    implied operator, the builder declines what follows, and
    [combine_terms] is not invoked. *)
Lemma list_mode_leaves_a_term_bare :
  _parse_expression true recorder 5 (self_at true recorder 5) (txt "a$)") true
                    (start 0%N)
  = (Ret (txt "$)", PObj 0),
     {| bstate := 1%N;
        calls := [(Hook.term_unknown, [PStr (txt "$)")]);
                  (Hook.term_ident, [PStr (txt "a")])] |}).
Proof. vm_compute. reflexivity. Qed.

(** C6, witness: the argument list [a)]. *)
Lemma list_mode_wraps_witness :
  _parse_expression true recorder 5 (self_at true recorder 5) (txt "a)") true
                    (start 0%N)
  = (Ret (txt ")", PObj 1),
     {| bstate := 2%N;
        calls := [(Hook.combine_terms, [PObj 0; PNone; PNone]);
                  (Hook.term_ident, [PStr (txt "a")])] |}).
Proof.
  rewrite (proj1 (@list_mode_wraps_a_single_term
                    true N recorder 5 (self_at true recorder 5) (txt "a)")
                    (start 0%N) (txt ")") (PObj 0)
                    {| bstate := 1%N;
                       calls := [(Hook.term_ident, [PStr (txt "a")])] |}
                    ltac:(vm_compute; reflexivity)));
    vm_compute; reflexivity.
Defined.


Section Avoids.
Variable py3 : bool.
Variable B : Type.
Variable css_builder : builder B.
Variable bad : Hook.t -> bool.
Hypothesis Hbad : forall h, invoked h = true -> bad h = false.

Lemma avoids_ret {A} (a : A) : avoids bad (ret (B:=B) a).
Proof. intros w. exists []. split; [reflexivity|constructor]. Qed.

Lemma avoids_raise {A} (e : exn) : avoids bad (raise (B:=B) (A:=A) e).
Proof. intros w. exists []. split; [reflexivity|constructor]. Qed.

Lemma avoids_raise_ParseError {A} msg src ctxsrc :
  avoids bad (raise_ParseError (B:=B) (A:=A) msg src ctxsrc).
Proof. apply avoids_raise. Qed.

Lemma avoids_diverge {A} : avoids bad (diverge (B:=B) (A:=A)).
Proof. intros w. exists []. split; [reflexivity|constructor]. Qed.

Lemma avoids_bind {A C} (m : M B A) (f : A -> M B C) :
  avoids bad m -> (forall a, avoids bad (f a)) -> avoids bad (bind m f).
Proof.
  intros Hm Hf w. unfold bind. destruct (Hm w) as (a1 & E1 & F1).
  destruct (m w) as [[a|e|] w1]; cbn [snd] in *.
  - destruct (Hf a w1) as (a2 & E2 & F2). exists (a2 ++ a1).
    rewrite E2, E1, app_assoc. split; [reflexivity|].
    apply Forall_app. auto.
  - exists a1. auto.
  - exists a1. auto.
Qed.

Lemma avoids_except {A} (m : M B A) (h : CSSParseError.t -> M B A) :
  avoids bad m -> (forall e, avoids bad (h e)) -> avoids bad (except_ParseError m h).
Proof.
  intros Hm Hh w. unfold except_ParseError. destruct (Hm w) as (a1 & E1 & F1).
  destruct (m w) as [[a|e|] w1]; cbn [snd] in *; try (exists a1; now auto).
  destruct e; try (exists a1; now auto).
  destruct (Hh e w1) as (a2 & E2 & F2). exists (a2 ++ a1).
  rewrite E2, E1, app_assoc. split; [reflexivity|].
  apply Forall_app. auto.
Qed.

Lemma avoids_invoke (h : Hook.t) (args : list pyval) :
  bad h = false -> avoids bad (invoke css_builder h args).
Proof.
  intros H w. unfold invoke.
  destruct (css_builder h args (bstate w)) as [[v|e] st]; exists [(h, args)];
    (split; [reflexivity|repeat constructor; exact H]).
Qed.

Lemma avoids_invoke_on (r : pyval) (h : Hook.t) (args : list pyval) :
  bad h = false -> avoids bad (invoke_on css_builder r h args).
Proof.
  intros H. destruct r; try apply avoids_raise. now apply avoids_invoke.
Qed.

Lemma avoids_unpack_src (v : pyval) : avoids bad (unpack_src (B:=B) v).
Proof.
  destruct v as [| |s|l|l|o|]; try apply avoids_raise;
    destruct l as [|[| |s|?|?|?|] [|r [|? ?]]];
    first [apply avoids_raise | apply avoids_ret].
Qed.

Lemma avoids_get_match_result (r : Re.re) (src : str) :
  avoids bad (_get_match_result (B:=B) r src).
Proof.
  unfold _get_match_result.
  destruct (Re.rmatch true r src) as [[c rest]|]; [|apply avoids_ret].
  destruct (Nat.ltb _ _); [apply avoids_raise|apply avoids_ret].
Qed.

Lemma avoids_get_ident (src : str) : avoids bad (_get_ident (B:=B) src).
Proof. apply avoids_get_match_result. Qed.

Ltac avoids_step :=
  match goal with
  | |- avoids bad (bind _ _) => apply avoids_bind; [|intros]
  | |- avoids bad (ret _) => apply avoids_ret
  | |- avoids bad (raise _) => apply avoids_raise
  | |- avoids bad (raise_ParseError _ _ _) => apply avoids_raise_ParseError
  | |- avoids bad diverge => apply avoids_diverge
  | |- avoids bad (invoke _ _ _) =>
      apply avoids_invoke; apply Hbad; reflexivity
  | |- avoids bad (invoke_on _ _ _ _) =>
      apply avoids_invoke_on; apply Hbad; reflexivity
  | |- avoids bad (except_ParseError _ _) => apply avoids_except; [|intros]
  | |- avoids bad (unpack_src _) => apply avoids_unpack_src
  | |- avoids bad (_get_match_result _ _) => apply avoids_get_match_result
  | |- avoids bad (_get_ident _) => apply avoids_get_ident
  | |- avoids bad (match ?x with _ => _ end) => destruct x
  | |- avoids bad (if ?x then _ else _) => destruct x
  | H : Self_avoids bad ?self |- avoids bad (self_parse_expression ?self _ _) =>
      apply (proj1 H)
  | H : Self_avoids bad ?self |- avoids bad (self_parse_at_keyword ?self _) =>
      apply (proj1 (proj2 H))
  | H : Self_avoids bad ?self |- avoids bad (self_parse_stylesheet ?self _) =>
      apply (proj2 (proj2 H))
  | |- avoids bad _ => solve [auto]
  end.

Ltac avoids_auto := repeat avoids_step.

Lemma avoids_elements_of (v : pyval) : avoids bad (elements_of css_builder v).
Proof. unfold elements_of. destruct v; avoids_auto. Qed.

Lemma avoids_extend (l : list pyval) (v : pyval) :
  avoids bad (extend css_builder l v).
Proof. unfold extend. pose proof avoids_elements_of. avoids_auto. Qed.

Variable self : Self B.
Hypothesis Hself : Self_avoids bad self.

(** The unicode-range pattern has no group: a match raises, and the hook
    behind it is out of reach. *)
Lemma avoids_unicode_range {A} (src : str) (f : option str * str -> M B A) :
  (forall rest, avoids bad (f (None, rest))) ->
  avoids bad (bind (_get_match_result Pat.re_unicoderange src) f).
Proof.
  intros Hf. unfold _get_match_result.
  destruct (Re.rmatch true Pat.re_unicoderange src) as [[c rest]|].
  - change (Nat.ltb (Pat.groups_of Pat.re_unicoderange) 1) with true.
    cbv iota. exact (avoids_raise IndexError).
  - exact (Hf src).
Qed.

Lemma avoids_parse_expression_term (src : str) :
  avoids bad (_parse_expression_term py3 css_builder self src).
Proof.
  unfold _parse_expression_term.
  repeat match goal with
         | |- avoids bad (bind (_get_match_result Pat.re_unicoderange _) _) =>
             apply avoids_unicode_range; intros
         | |- _ => avoids_step
         end.
Qed.

Lemma avoids_parse_expression_while (fuel : nat) :
  forall src term operator,
    avoids bad (_parse_expression_while py3 css_builder fuel self src term operator).
Proof.
  pose proof avoids_parse_expression_term.
  induction fuel as [|fuel IH]; intros; cbn [_parse_expression_while];
    avoids_auto.
Qed.

Lemma avoids_parse_expression (fuel : nat) (src : str) (returnList : bool) :
  avoids bad (_parse_expression py3 css_builder fuel self src returnList).
Proof.
  pose proof avoids_parse_expression_term.
  pose proof avoids_parse_expression_while.
  unfold _parse_expression. avoids_auto.
Qed.


Lemma avoids_parse_declaration_property (fuel : nat) (src : str) (n : pyval) :
  avoids bad (_parse_declaration_property py3 css_builder fuel self src n).
Proof.
  pose proof avoids_parse_expression.
  unfold _parse_declaration_property. avoids_auto.
Qed.

Lemma avoids_parse_declaration (fuel : nat) (src : str) :
  avoids bad (_parse_declaration py3 css_builder fuel self src).
Proof.
  pose proof avoids_parse_declaration_property.
  unfold _parse_declaration. avoids_auto.
Qed.

Lemma avoids_parse_declaration_group_while (fuel : nat) :
  forall src properties,
    avoids bad (_parse_declaration_group_while py3 css_builder fuel self src
                                          properties).
Proof.
  pose proof avoids_parse_declaration.
  induction fuel as [|fuel IH]; intros; cbn [_parse_declaration_group_while];
    avoids_auto.
Qed.

Lemma avoids_parse_declaration_group (fuel : nat) (src : str) (braces : bool) :
  avoids bad (_parse_declaration_group py3 css_builder fuel self src braces).
Proof.
  pose proof avoids_parse_declaration_group_while.
  unfold _parse_declaration_group. avoids_auto.
Qed.

Lemma avoids_parse_selector_attribute (src : str) (selector : pyval) :
  avoids bad (_parse_selector_attribute py3 css_builder src selector).
Proof. unfold _parse_selector_attribute. avoids_auto. Qed.

Lemma avoids_parse_selector_pseudo (fuel : nat) (src : str) (selector : pyval) :
  avoids bad (_parse_selector_pseudo py3 css_builder fuel self src selector).
Proof.
  pose proof avoids_parse_expression.
  unfold _parse_selector_pseudo. avoids_auto.
Qed.

Lemma avoids_parse_simple_selector_while (fuel : nat) :
  forall src selector,
    avoids bad (_parse_simple_selector_while py3 css_builder fuel self src selector).
Proof.
  pose proof avoids_parse_selector_attribute.
  pose proof avoids_parse_selector_pseudo.
  induction fuel as [|fuel IH]; intros; cbn [_parse_simple_selector_while];
    avoids_auto.
Qed.

Lemma avoids_parse_simple_selector (fuel : nat) (src : str) :
  avoids bad (_parse_simple_selector py3 css_builder fuel self src).
Proof.
  pose proof avoids_parse_simple_selector_while.
  unfold _parse_simple_selector. avoids_auto.
Qed.

Lemma avoids_parse_selector_while (fuel : nat) :
  forall srcLen src selector,
    avoids bad (_parse_selector_while py3 css_builder fuel self srcLen src selector).
Proof.
  pose proof avoids_parse_simple_selector.
  induction fuel as [|fuel IH]; intros; cbn [_parse_selector_while];
    avoids_auto.
Qed.

Lemma avoids_parse_selector (fuel : nat) (src : str) :
  avoids bad (_parse_selector py3 css_builder fuel self src).
Proof.
  pose proof avoids_parse_simple_selector.
  pose proof avoids_parse_selector_while.
  unfold _parse_selector. avoids_auto.
Qed.

Lemma avoids_parse_selector_group_while (fuel : nat) :
  forall src selectors,
    avoids bad (_parse_selector_group_while py3 css_builder fuel self src selectors).
Proof.
  pose proof avoids_parse_selector.
  induction fuel as [|fuel IH]; intros; cbn [_parse_selector_group_while];
    avoids_auto.
Qed.

Lemma avoids_parse_ruleset (fuel : nat) (src : str) :
  avoids bad (_parse_ruleset py3 css_builder fuel self src).
Proof.
  pose proof avoids_parse_selector_group_while.
  pose proof avoids_parse_declaration_group.
  unfold _parse_ruleset, _parse_selector_group. avoids_auto.
Qed.

Lemma avoids_parse_at_charset (src : str) :
  avoids bad (_parse_at_charset py3 css_builder src).
Proof. unfold _parse_at_charset. avoids_auto. Qed.

Lemma avoids_parse_at_imports_mediums (fuel : nat) :
  forall medium src mediums,
    avoids bad (_parse_at_imports_mediums (B:=B) fuel medium src mediums).
Proof.
  induction fuel as [|fuel IH]; intros; cbn [_parse_at_imports_mediums];
    avoids_auto.
Qed.

Lemma avoids_parse_at_imports_while (fuel : nat) :
  forall src result,
    avoids bad (_parse_at_imports_while py3 css_builder fuel src result).
Proof.
  pose proof avoids_parse_at_imports_mediums.
  induction fuel as [|fuel IH]; intros; cbn [_parse_at_imports_while];
    avoids_auto.
Qed.

Lemma avoids_parse_at_namespace_while (fuel : nat) :
  forall src, avoids bad (_parse_at_namespace_while py3 css_builder fuel src).
Proof.
  induction fuel as [|fuel IH]; intros; cbn [_parse_at_namespace_while];
    avoids_auto.
Qed.

Lemma avoids_parse_at_media_mediums (fuel : nat) :
  forall ctxsrc src mediums,
    avoids bad (_parse_at_media_mediums (B:=B) fuel ctxsrc src mediums).
Proof.
  induction fuel as [|fuel IH]; intros; cbn [_parse_at_media_mediums];
    avoids_auto.
Qed.

Lemma avoids_parse_at_media_rules (fuel : nat) :
  forall src elements,
    avoids bad (_parse_at_media_rules py3 css_builder fuel self src elements).
Proof.
  pose proof avoids_parse_ruleset. pose proof avoids_extend.
  induction fuel as [|fuel IH]; intros; cbn [_parse_at_media_rules];
    avoids_auto.
Qed.

Lemma avoids_parse_at_media (fuel : nat) (src : str) :
  avoids bad (_parse_at_media py3 css_builder fuel self src).
Proof.
  pose proof avoids_parse_at_media_mediums.
  pose proof avoids_parse_at_media_rules.
  unfold _parse_at_media. avoids_auto.
Qed.

Lemma avoids_str_add (a b : option str) : avoids bad (str_add (B:=B) a b).
Proof. unfold str_add. avoids_auto. Qed.

Lemma avoids_parse_at_page_while (fuel : nat) :
  forall src elements properties,
    avoids bad (_parse_at_page_while py3 css_builder fuel self src elements
                                properties).
Proof.
  pose proof avoids_parse_declaration_group. pose proof avoids_extend.
  induction fuel as [|fuel IH]; intros; cbn [_parse_at_page_while];
    avoids_auto.
Qed.

Lemma avoids_parse_at_page (fuel : nat) (src : str) :
  avoids bad (_parse_at_page py3 css_builder fuel self src).
Proof.
  pose proof avoids_parse_at_page_while. pose proof avoids_str_add.
  unfold _parse_at_page. avoids_auto.
Qed.

Lemma avoids_parse_at_frame (fuel : nat) (src : str) :
  avoids bad (_parse_at_frame py3 css_builder fuel self src).
Proof.
  pose proof avoids_parse_declaration_group.
  unfold _parse_at_frame. avoids_auto.
Qed.

Lemma avoids_parse_at_font_face (fuel : nat) (src : str) :
  avoids bad (_parse_at_font_face py3 css_builder fuel self src).
Proof.
  pose proof avoids_parse_declaration_group.
  unfold _parse_at_font_face. avoids_auto.
Qed.

Lemma avoids_parse_at_ident (fuel : nat) (src : str) :
  avoids bad (_parse_at_ident py3 css_builder fuel self src).
Proof.
  pose proof avoids_parse_declaration_group.
  unfold _parse_at_ident. avoids_auto.
Qed.

Lemma avoids_parse_at_keyword (fuel : nat) (src : str) :
  avoids bad (_parse_at_keyword py3 css_builder fuel self src).
Proof.
  pose proof avoids_parse_at_media. pose proof avoids_parse_at_page.
  pose proof avoids_parse_at_font_face. pose proof avoids_parse_at_frame.
  pose proof avoids_parse_at_ident. pose proof avoids_parse_at_imports_while.
  unfold _parse_at_keyword, _parse_at_imports. avoids_auto.
Qed.

Lemma avoids_parse_stylesheet_while (fuel : nat) :
  forall src elements,
    avoids bad (_parse_stylesheet_while py3 css_builder fuel self src elements).
Proof.
  pose proof avoids_parse_at_keyword. pose proof avoids_parse_ruleset.
  pose proof avoids_extend.
  induction fuel as [|fuel IH]; intros; cbn [_parse_stylesheet_while];
    avoids_auto.
Qed.

Lemma avoids_parse_stylesheet (fuel : nat) (src : str) :
  avoids bad (_parse_stylesheet py3 css_builder fuel self src).
Proof.
  pose proof avoids_parse_at_charset. pose proof avoids_parse_at_imports_while.
  pose proof avoids_parse_at_namespace_while.
  pose proof avoids_parse_stylesheet_while.
  unfold _parse_stylesheet, _parse_at_imports, _parse_at_namespace.
  avoids_auto.
Qed.

End Avoids.

Lemma Self_avoids_self_at (py3 : bool) (B : Type) (css_builder : builder B)
      (bad : Hook.t -> bool) (fuel : nat) :
  (forall h, invoked h = true -> bad h = false) ->
  Self_avoids bad (self_at py3 css_builder fuel).
Proof.
  intros Hbad. induction fuel as [|fuel IH]; cbn [self_at].
  - repeat split; intros; apply avoids_diverge.
  - repeat split; intros; cbn.
    + now apply avoids_parse_expression.
    + now apply avoids_parse_at_keyword.
    + now apply avoids_parse_stylesheet.
Qed.


(** What the entry points run between their opening and closing hooks. *)
Section EntryPoints.
Variable py3 : bool.
Variable B : Type.
Variable css_builder : builder B.
Variable bad : Hook.t -> bool.
Hypothesis Hbad : forall h, invoked h = true -> bad h = false.
Hypothesis Hinline : bad Hook.inline = false.

Lemma avoids_parse_attributes_for (fuel : nat) :
  forall items properties,
    avoids bad (parse_attributes_for py3 css_builder fuel items properties).
Proof.
  induction items as [|[name src] items IH]; intros properties;
    cbn [parse_attributes_for].
  - apply avoids_ret.
  - apply avoids_bind.
    + apply avoids_except.
      * apply avoids_parse_declaration_property; [exact Hbad|].
        now apply Self_avoids_self_at.
      * intros e. apply avoids_raise.
    + intros [s p]. apply IH.
Qed.

Lemma avoids_parse_body (cleanup_css : str -> str) (fuel : nat) (src : str) :
  avoids bad
    (let src := cleanup_css src in
     '(_, stylesheet) <-
       except_ParseError
         (_parse_stylesheet py3 css_builder fuel
                            (self_at py3 css_builder fuel) src)
         (fun err =>
            raise (ParseError (CSSParseError.setFullCSSSource err src false))) ;;
     ret stylesheet).
Proof.
  cbv zeta. apply avoids_bind.
  - apply avoids_except.
    + apply avoids_parse_stylesheet; [exact Hbad|].
      now apply Self_avoids_self_at.
    + intros e. apply avoids_raise.
  - intros [s v]. apply avoids_ret.
Qed.

Lemma avoids_parse_inline_body (fuel : nat) (src : str) :
  avoids bad
    ('(_, properties) <-
       except_ParseError
         (_parse_declaration_group py3 css_builder fuel
                                   (self_at py3 css_builder fuel)
                                   (strip src) false)
         (fun err =>
            raise (ParseError (CSSParseError.setFullCSSSource err src true))) ;;
     invoke css_builder Hook.inline [PList properties]).
Proof.
  apply avoids_bind.
  - apply avoids_except.
    + apply avoids_parse_declaration_group; [exact Hbad|].
      now apply Self_avoids_self_at.
    + intros e. apply avoids_raise.
  - intros [s v]. apply avoids_invoke. exact Hinline.
Qed.

Lemma avoids_parse_attributes_body (fuel : nat) (items : list (str * str)) :
  avoids bad
    (properties <- parse_attributes_for py3 css_builder fuel items [] ;;
     invoke css_builder Hook.inline [PList properties]).
Proof.
  apply avoids_bind.
  - apply avoids_parse_attributes_for.
  - intros v. apply avoids_invoke. exact Hinline.
Qed.

End EntryPoints.

(** [parse] on a text: nothing stands between the opening hook and the
    [try]. *)
Lemma parse_text (py3 : bool) (B : Type) (css_builder : builder B)
      (cleanup_css : str -> str) (fuel : nat) (src : str) :
  parse py3 css_builder cleanup_css fuel src
  = (invoke css_builder Hook.begin_stylesheet [] ;;;
     finally
       (let src := cleanup_css src in
        '(_, stylesheet) <-
          except_ParseError
            (_parse_stylesheet py3 css_builder fuel
                               (self_at py3 css_builder fuel) src)
            (fun err =>
               raise (ParseError
                        (CSSParseError.setFullCSSSource err src false))) ;;
        ret stylesheet)
       (invoke css_builder Hook.end_stylesheet [])).
Proof. reflexivity. Qed.


Section Paired.
Variable py3 : bool.
Variable B : Type.
Variable css_builder : builder B.


(** C10: a byte string that cannot be decoded leaves the lifecycle calls of
    [parse] unpaired.  The source is decoded after [begin_stylesheet] was
    invoked and before the [try] is entered: the error leaves [parse] with
    [begin_stylesheet] as the only hook invoked, and [end_stylesheet] is not
    invoked at all. *)
Theorem undecodable_source_leaves_begin_stylesheet_unpaired :
  forall (cleanup_css : str -> str) (fuel : nat) (b : list Byte.byte)
         (w : world B),
    opens css_builder Hook.begin_stylesheet w ->
    decode py3 b = None ->
    fst (parse py3 css_builder cleanup_css fuel (Bytes b) w)
    = Raise UnicodeDecodeError
    /\ trace (snd (parse py3 css_builder cleanup_css fuel (Bytes b) w))
       = trace w ++ [(Hook.begin_stylesheet, [])].
Proof.
  intros cleanup_css fuel b w (v & st & Hopen) Hb.
  assert (E : parse py3 css_builder cleanup_css fuel (Bytes b) w
              = (Raise UnicodeDecodeError,
                 {| bstate := st;
                    calls := (Hook.begin_stylesheet, []) :: calls w |})).
  { unfold parse. rewrite Hb. unfold bind at 1, invoke. rewrite Hopen.
    reflexivity. }
  rewrite E. split; reflexivity.
Qed.


End Paired.

(** C10, witness: the byte [0xFF] under Python 3. *)
Lemma undecodable_source_witness :
  fst (parse true recorder no_cleanup 9 (Bytes [Byte.xff]) (start 0%N))
  = Raise UnicodeDecodeError
  /\ trace (snd (parse true recorder no_cleanup 9 (Bytes [Byte.xff])
                       (start 0%N)))
     = [(Hook.begin_stylesheet, [])].
Proof.
  apply (@undecodable_source_leaves_begin_stylesheet_unpaired
           true N recorder no_cleanup 9 [Byte.xff] (start 0%N)).
  - exists PNone, 0%N. reflexivity.
  - reflexivity.
Defined.

(** The same byte under Python 2, and a byte string that decodes. *)
Example undecodable_source_under_python2 :
  hooks (snd (parse false recorder no_cleanup 9 (Bytes [Byte.xff])
                    (start 0%N)))
  = [Hook.begin_stylesheet]
  /\ hooks (snd (parse true recorder no_cleanup 9
                       (Bytes [Byte.xc3; Byte.xa9; Byte.x7b; Byte.x7d])
                       (start 0%N)))
     = [Hook.begin_stylesheet; Hook.resolve_namespace_prefix; Hook.selector;
        Hook.ruleset; Hook.stylesheet; Hook.end_stylesheet].
Proof. split; vm_compute; reflexivity. Qed.



Section NeverReturns.
Variable B : Type.

Lemma never_returns_raise {A} (e : exn) : never_returns (raise (B:=B) (A:=A) e).
Proof. intros w a w'. discriminate. Qed.

Lemma never_returns_diverge {A} : never_returns (diverge (B:=B) (A:=A)).
Proof. intros w a w'. discriminate. Qed.

Lemma never_returns_bind_l {A C} (m : M B A) (f : A -> M B C) :
  never_returns m -> never_returns (bind m f).
Proof.
  intros H w c w' E. unfold bind in E.
  destruct (m w) as [[a|e|] w1] eqn:Em; try discriminate.
  now elim (H w a w1).
Qed.

Lemma never_returns_bind_r {A C} (m : M B A) (f : A -> M B C) :
  (forall a, never_returns (f a)) -> never_returns (bind m f).
Proof.
  intros H w c w' E. unfold bind in E.
  destruct (m w) as [[a|e|] w1] eqn:Em; try discriminate.
  now elim (H a w1 c w').
Qed.

Lemma never_returns_finally {A C} (m : M B A) (f : M B C) :
  never_returns m -> never_returns (finally m f).
Proof.
  intros H w c w' E. unfold finally in E.
  destruct (m w) as [[a|e|] w1] eqn:Em.
  - now elim (H w a w1).
  - destruct (f w1) as [[x|e'|] w2]; discriminate.
  - discriminate.
Qed.

Lemma never_returns_except {A} (m : M B A) (h : CSSParseError.t -> M B A) :
  never_returns m -> (forall e, never_returns (h e)) ->
  never_returns (except_ParseError m h).
Proof.
  intros Hm Hh w c w' E. unfold except_ParseError in E.
  destruct (m w) as [[a|e|] w1] eqn:Em.
  - now elim (Hm w a w1).
  - destruct e; try discriminate. now elim (Hh e w1 c w').
  - discriminate.
Qed.

End NeverReturns.

(** Evaluation of the closed parts of a goal. *)
Ltac ev t :=
  let v := eval vm_compute in t in
  replace t with v by (vm_compute; reflexivity).

Ltac ev_bool c :=
  let v := eval vm_compute in c in
  lazymatch v with
  | true => replace c with true by (vm_compute; reflexivity)
  | false => replace c with false by (vm_compute; reflexivity)
  end.

Ltac step :=
  first
    [ rewrite bind_ret; cbv beta iota
    | rewrite _get_match_result_ret by (vm_compute; lia)
    | match goal with
      | |- context [match_result ?r ?s] => ev (match_result r s)
      | |- context [if ?c then _ else _] => ev_bool c; cbv iota
      | |- context [first_prefix ?l ?s] => ev (first_prefix l s); cbv iota
      end ].

Lemma never_returns_ext {B A} (m m' : M B A) :
  (forall w, m w = m' w) -> never_returns m' -> never_returns m.
Proof. intros E H w a w'. rewrite E. apply H. Qed.

Lemma bind_ext_l {B A C} (m m' : M B A) (f : A -> M B C) w :
  (forall w, m w = m' w) -> bind m f w = bind m' f w.
Proof. intros H. unfold bind. now rewrite H. Qed.

Ltac nr_step :=
  cbv beta;
  match goal with
  | |- never_returns (fun w => ?m w) => change (never_returns m)
  | |- never_returns (bind (bind _ _) _) =>
      eapply never_returns_ext; [intros; apply bind_assoc|]
  | |- never_returns (bind (ret _) _) => rewrite bind_ret; cbv beta iota
  | |- never_returns (bind (invoke _ _ _) _) =>
      apply never_returns_bind_r; intros
  | |- never_returns (bind (invoke_on _ _ _ _) _) =>
      apply never_returns_bind_r; intros
  | |- never_returns diverge => apply never_returns_diverge
  | |- never_returns (raise _) => apply never_returns_raise
  | |- never_returns (raise_ParseError _ _ _) => apply never_returns_raise
  end.

Ltac under_bind :=
  match goal with
  | |- bind ?m _ ?w = bind ?m _ ?w => apply bind_ext; intros
  end.

Section SelectorRecovery.
Variable py3 : bool.
Variable B : Type.
Variable css_builder : builder B.
Variable self : Self B.


(** On [.1 { color:red }] a simple selector is made and nothing is
    consumed. *)
Lemma _parse_simple_selector_stuck (fuel : nat) (w : world B) :
  _parse_simple_selector py3 css_builder (S fuel) self stuck w
  = (name <- invoke css_builder Hook.resolve_namespace_prefix
                    [PNone; PStr (txt "*")] ;;
     selector <- invoke css_builder Hook.selector [name] ;;
     ret (stuck, selector)) w.
Proof.
  unfold _parse_simple_selector, stuck. cbv zeta.
  repeat step.
  cbn [_parse_simple_selector_while opt_str].
  repeat step.
  do 2 under_bind.
  repeat step.
  reflexivity.
Qed.

(** With the length of the source taken before the combinator, the
    recovery test never fires: the loop goes on for as long as it has
    fuel. *)
Lemma _parse_selector_while_stuck (fuel : nat) :
  forall (selector : pyval),
    never_returns
      (_parse_selector_while py3 css_builder fuel self 18 stuck selector).
Proof.
  induction fuel as [|fuel IH]; intros selector.
  - apply never_returns_diverge.
  - cbn [_parse_selector_while]. unfold stuck at 1 2. repeat step.
    fold stuck. destruct fuel as [|fuel].
    + apply never_returns_bind_l. unfold _parse_simple_selector.
      cbv zeta. unfold stuck. repeat step.
      do 2 (apply never_returns_bind_r; intros).
      apply never_returns_bind_l. cbn. apply never_returns_diverge.
    + eapply never_returns_ext.
      { intros w. apply bind_ext_l. apply _parse_simple_selector_stuck. }
      repeat nr_step. unfold stuck at 1. repeat step. 
      apply never_returns_bind_r. intros. apply IH.
Qed.



Lemma _parse_simple_selector_while_done (fuel : nat) (src : str)
      (selector : pyval) :
  CSSParseError.nonempty src && str_in (first1 src) selector_qualifiers
  = false ->
  _parse_simple_selector_while py3 css_builder fuel self src selector
  = ret (src, selector).
Proof.
  intros H. destruct fuel; cbn [_parse_simple_selector_while]; now rewrite H.
Qed.

Lemma _parse_selector_hangs (fuel : nat) :
  never_returns (_parse_selector py3 css_builder fuel self hangs).
Proof.
  unfold _parse_selector, _parse_simple_selector, hangs. cbv zeta.
  repeat step. cbn [opt_str].
  repeat nr_step.
  rewrite _parse_simple_selector_while_done by (vm_compute; reflexivity).
  repeat nr_step.
  ev (lstrip (txt " > .1 { color:red }")).
  ev (length [62; 32; 46; 49; 32; 123; 32; 99; 111; 108; 111; 114; 58; 114;
              101; 100; 32; 125]%N).
  destruct fuel as [|fuel]; [apply never_returns_diverge|].
  cbn [_parse_selector_while]. repeat step.
  ev (lstrip (from (length (txt ">"))
                   [62; 32; 46; 49; 32; 123; 32; 99; 111; 108; 111; 114; 58;
                    114; 101; 100; 32; 125]%N)).
  change [46; 49; 32; 123; 32; 99; 111; 108; 111; 114; 58; 114; 101; 100; 32;
          125]%N with stuck.
  destruct fuel as [|fuel].
  - apply never_returns_bind_l. unfold _parse_simple_selector.
    cbv zeta. unfold stuck. repeat step.
    do 2 (apply never_returns_bind_r; intros).
    apply never_returns_bind_l. cbn. apply never_returns_diverge.
  - eapply never_returns_ext.
    { intros w. apply bind_ext_l. apply _parse_simple_selector_stuck. }
    repeat nr_step. unfold stuck at 1. repeat step.
    apply never_returns_bind_r. intros. apply _parse_selector_while_stuck.
Qed.


Lemma _parse_ruleset_hangs (fuel : nat) :
  never_returns (_parse_ruleset py3 css_builder fuel self hangs).
Proof.
  unfold _parse_ruleset, _parse_selector_group.
  apply never_returns_bind_l.
  destruct fuel as [|fuel]; cbn [_parse_selector_group_while]; unfold hangs;
    repeat step; [apply never_returns_diverge|].
  apply never_returns_bind_l. apply _parse_selector_hangs.
Qed.

Lemma _parse_at_imports_while_done (fuel : nat) (src : str)
      (result : list pyval) :
  is_at_rule_ident src (Re.Lit "import") = false ->
  _parse_at_imports_while py3 css_builder fuel src result = ret (src, result).
Proof.
  intros H. destruct fuel; cbn [_parse_at_imports_while]; now rewrite H.
Qed.

Lemma _parse_at_namespace_while_done (fuel : nat) (src : str) :
  is_at_rule_ident src (Re.Lit "namespace") = false ->
  _parse_at_namespace_while py3 css_builder fuel src = ret src.
Proof.
  intros H. destruct fuel; cbn [_parse_at_namespace_while]; now rewrite H.
Qed.

Lemma _parse_stylesheet_hangs (fuel : nat) :
  never_returns (_parse_stylesheet py3 css_builder fuel self hangs).
Proof.
  unfold _parse_stylesheet, _parse_at_charset, _parse_at_imports,
    _parse_at_namespace, hangs.
  cbv zeta.
  ev (Re.delete_all true Pat.re_comment (txt "a > .1 { color:red }")).
  repeat step.
  ev (_parse_s_cdo_cdc (txt "a > .1 { color:red }")).
  rewrite _parse_at_imports_while_done by (vm_compute; reflexivity).
  repeat step.
  ev (_parse_s_cdo_cdc (txt "a > .1 { color:red }")).
  rewrite _parse_at_namespace_while_done by (vm_compute; reflexivity).
  repeat step.
  apply never_returns_bind_l.
  destruct fuel as [|fuel]; cbn [_parse_stylesheet_while];
    repeat step; [apply never_returns_diverge|].
  do 2 apply never_returns_bind_l. apply _parse_ruleset_hangs.
Qed.

End SelectorRecovery.

(** C3: the recovery misses a selector that cannot be parsed after a
    combinator.  The length the remainder is compared with is taken once,
    before the combinator is consumed, so on [a > .1 { color:red }] the test
    never fires: whatever the builder and however much fuel, the parse does
    not return; with a builder whose hooks return it does not end. *)
Theorem selector_recovery_misses_later_members :
  forall (py3 : bool) (B : Type) (css_builder : builder B) (fuel : nat),
    never_returns (parse py3 css_builder no_cleanup fuel hangs).
Proof.
  intros py3 B css_builder fuel. unfold parse.
  apply never_returns_bind_r. intros _.
  apply never_returns_finally. apply never_returns_bind_l.
  apply never_returns_except.
  - apply _parse_stylesheet_hangs.
  - intros e. apply never_returns_raise.
Qed.

(** With a builder whose hooks all return, the run does not end. *)
Example selector_recovery_hangs_with_recorder :
  fst (parse true recorder no_cleanup 60 hangs (start 0%N)) = Diverge
  /\ fst (parse false recorder no_cleanup 60 hangs (start 0%N)) = Diverge.
Proof. split; vm_compute; reflexivity. Qed.

(** ** Unknown at-rules *)

Section UnknownAtRule.
Variable py3 : bool.
Variable B : Type.
Variable css_builder : builder B.

(** C4: an unknown at-rule that ends in a semicolon is not skipped to that
    semicolon.  When the [at_ident] hook declines and a semicolon comes
    before any opening brace, the test [semiIdx < blockIdx] meets
    [blockIdx = None]: Python 3 raises [TypeError]; Python 2 finds it false,
    takes the branch for "no block", and drops the whole rest of the source,
    the rules after the semicolon included. *)
Theorem unknown_at_rule_is_not_skipped_to_its_semicolon :
  forall (fuel : nat) (self : Self B) (src : str) (w w1 : world B)
         (atIdent rest rest' : str) (semiIdx : Z),
    match_result Pat.re_ident (from 1 src) = (Some atIdent, rest) ->
    invoke css_builder Hook.at_ident [PStr atIdent; PSelf; PStr rest] w
    = (Ret (PTuple [PStr rest'; PNotImplemented]), w1) ->
    found (find rest' (txt ";")) = Some semiIdx ->
    found (find (upto (Z.to_nat semiIdx) rest') (txt "{")) = None ->
    _parse_at_ident py3 css_builder fuel self src w
    = if py3 then (Raise TypeError, w1)
      else (Ret (txt "", PNotImplemented), w1).
Proof.
  intros fuel self src w w1 atIdent rest rest' semiIdx Hident Hhook Hsemi
         Hblock.
  unfold _parse_at_ident, _get_ident. cbv zeta.
  rewrite _get_match_result_ret by (vm_compute; lia).
  rewrite Hident, bind_ret. cbv beta iota.
  rewrite (fun C f => @bind_returned B _ C _ f _ _ _ Hhook).
  cbn [unpack_src]. rewrite bind_ret. cbv beta iota.
  cbn [is_NotImplemented]. rewrite Hsemi, Hblock.
  destruct py3; reflexivity.
Qed.

End UnknownAtRule.

Lemma unknown_at_rule_is_not_skipped_witness :
  _parse_at_ident true recorder 5 (self_at true recorder 5)
                  (txt "@unknown-thing; b { c: d }") (start 0%N)
  = (Raise TypeError,
     {| bstate := 0%N;
        calls := [(Hook.at_ident,
                   [PStr (txt "unknown-thing"); PSelf;
                    PStr (txt "; b { c: d }")])] |}).
Proof.
  apply (@unknown_at_rule_is_not_skipped_to_its_semicolon
           true N recorder 5 (self_at true recorder 5)
           (txt "@unknown-thing; b { c: d }") (start 0%N) _
           (txt "unknown-thing") (txt "; b { c: d }") (txt "; b { c: d }")
           0%Z);
    reflexivity.
Defined.

(** The rule after the semicolon is never delivered: under Python 3 the
    parse raises, under Python 2 it returns without a [ruleset] call. *)
Example unknown_at_rule_loses_the_next_rule :
  fst (parse true recorder no_cleanup 9 (txt "@unknown-thing; b { c: d }")
             (start 0%N)) = Raise TypeError
  /\ hooks (snd (parse false recorder no_cleanup 9
                       (txt "@unknown-thing; b { c: d }") (start 0%N)))
     = [Hook.begin_stylesheet; Hook.at_ident; Hook.stylesheet;
        Hook.end_stylesheet].
Proof. split; vm_compute; reflexivity. Qed.

(** With a block instead of a semicolon the rule is ignored and the next
    rule is delivered. *)
Example unknown_at_rule_with_block_is_ignored :
  hooks (snd (parse true recorder no_cleanup 9
                    (txt "@unknown-thing { a:1 } b { c: d }") (start 0%N)))
  = [Hook.begin_stylesheet; Hook.at_ident; Hook.term_number; Hook.property;
     Hook.resolve_namespace_prefix; Hook.selector; Hook.term_ident;
     Hook.property; Hook.ruleset; Hook.stylesheet; Hook.end_stylesheet].
Proof. vm_compute. reflexivity. Qed.

(** Inside [@media] the same unknown rule is fatal: the [NotImplemented] it
    answers is handed to [list.extend]. *)
Example unknown_at_rule_inside_media_raises :
  fst (parse true recorder no_cleanup 9
             (txt "@media print { @unknown-thing { a:1 } }") (start 0%N))
  = Raise TypeError.
Proof. vm_compute. reflexivity. Qed.

(** * The remaining source never grows *)

Lemma run_shorter (ci : bool) (n : nat) (r : Re.re) :
  forall (R : Type) (s : str) (c : Re.caps) (k : str -> Re.caps -> option R)
         (x : R),
    length s <= n -> caps_within n c ->
    Re.run ci r s c k = Some x ->
    exists s' c', k s' c' = Some x /\ length s' <= length s
                  /\ caps_within n c'.
Proof.
  induction r as [|ch|neg rs| | |a IHa b IHb|a IHa b IHb|lo hi a IHa|i a IHa
                 |a IHa];
    intros R s c k x Hs Hc H; cbn [Re.run] in H.
  - exists s, c. auto.
  - destruct s as [|y s]; [discriminate|].
    destruct (Re.chr_eq ci ch y); [|discriminate].
    exists s, c. cbn [length]. auto.
  - destruct s as [|y s]; [discriminate|].
    destruct (xorb neg (Re.in_cls ci rs y)); [|discriminate].
    exists s, c. cbn [length]. auto.
  - destruct s as [|y s]; [discriminate|].
    destruct (N.eqb y 10); [discriminate|].
    exists s, c. cbn [length]. auto.
  - destruct s as [|y s]; [discriminate|].
    exists s, c. cbn [length]. auto.
  - apply IHa in H; [|assumption..]. destruct H as (s1 & c1 & H & L1 & C1).
    apply IHb in H; [|lia|assumption]. destruct H as (s2 & c2 & H & L2 & C2).
    exists s2, c2. split; [exact H|]. split; [lia|exact C2].
  - destruct (Re.run ci a s c k) as [y|] eqn:E.
    + injection H as <-. now apply IHa in E.
    + now apply IHb in H.
  - cbv beta iota zeta fix in H. revert H. generalize (length s) at 1.
    intros m. revert lo hi s c x Hs Hc.
    induction m as [|m IHm]; intros lo hi s c x Hs Hc H;
      cbv beta iota zeta fix in H.
    + destruct (Nat.eqb lo 0); [|discriminate]. exists s, c. auto.
    + assert (Hstop : forall y, (if Nat.eqb lo 0 then k s c else None) = Some y ->
                      exists s' c', k s' c' = Some y /\ length s' <= length s
                                    /\ caps_within n c').
      { intros y. destruct (Nat.eqb lo 0); [|discriminate]. intros E.
        exists s, c. auto. }
      match type of H with
      | match ?e with _ => _ end = _ => destruct e as [y|] eqn:E
      end; [injection H as <-|now apply Hstop].
      destruct hi as [[|h]|]; [discriminate| |].
      * apply IHa in E; [|assumption..].
        destruct E as (s1 & c1 & E & L1 & C1).
        destruct (Nat.ltb (length s1) (length s)); [|discriminate].
        apply IHm in E; [|lia|assumption].
        destruct E as (s2 & c2 & E & L2 & C2).
        exists s2, c2. split; [exact E|]. split; [lia|exact C2].
      * apply IHa in E; [|assumption..].
        destruct E as (s1 & c1 & E & L1 & C1).
        destruct (Nat.ltb (length s1) (length s)); [|discriminate].
        apply IHm in E; [|lia|assumption].
        destruct E as (s2 & c2 & E & L2 & C2).
        exists s2, c2. split; [exact E|]. split; [lia|exact C2].
  - apply IHa in H; [|assumption..]. destruct H as (s1 & c1 & H & L1 & C1).
    exists s1, ((i, firstn (length s - length s1) s) :: c1).
    split; [exact H|]. split; [exact L1|].
    constructor; [|exact C1]. cbn [snd]. rewrite length_firstn. lia.
  - destruct (Re.run ci a s c (fun _ _ => Some tt)); [discriminate|].
    exists s, c. auto.
Qed.

Lemma rmatch_shorter (ci : bool) (r : Re.re) (s : str) (c : Re.caps)
      (rest : str) :
  Re.rmatch ci r s = Some (c, rest) ->
  length rest <= length s /\ caps_within (length s) c.
Proof.
  unfold Re.rmatch. intros H.
  apply (@run_shorter ci (length s)) in H; [|lia|constructor].
  destruct H as (s' & c' & [= <- <-] & L & C). auto.
Qed.

Lemma group_within (n i : nat) (c : Re.caps) (g : str) :
  caps_within n c -> Re.group i c = Some g -> length g <= n.
Proof.
  induction c as [|[j s] c IH]; cbn [Re.group]; [discriminate|].
  intros H. inversion H as [|? ? H1 H2]; subst.
  destruct (Nat.eqb i j); [intros [= <-]; exact H1|now apply IH].
Qed.

Lemma get_string_shorter (py3 : bool) (src : str) (r : option Re.re) :
  length (snd (_get_string py3 src r)) <= length src.
Proof.
  unfold _get_string.
  destruct (Re.rmatch true _ src) as [[c rest]|] eqn:E; [|cbn; lia].
  apply rmatch_shorter in E.
  destruct py3; [cbn; lia|].
  destruct (first_true_group _ _ _); cbn; lia.
Qed.

Lemma get_string_or_uri_shorter (py3 : bool) (src : str) :
  length (snd (_get_string_or_uri py3 src)) <= length src.
Proof.
  unfold _get_string_or_uri.
  pose proof (get_string_shorter py3 src (Some Pat.re_uri)) as H1.
  destruct (_get_string py3 src (Some Pat.re_uri)) as [[r|] s]; cbn [snd] in *;
    [exact H1|].
  pose proof (get_string_shorter py3 s None). lia.
Qed.

Lemma get_string_returned (py3 : bool) (src : str) (r : option Re.re)
      (v : option str) (s : str) :
  _get_string py3 src r = (v, s) -> length s <= length src.
Proof. intros E. pose proof (get_string_shorter py3 src r) as H.
       rewrite E in H. exact H. Qed.

Lemma get_string_or_uri_returned (py3 : bool) (src : str) (v : option str)
      (s : str) :
  _get_string_or_uri py3 src = (v, s) -> length s <= length src.
Proof. intros E. pose proof (get_string_or_uri_shorter py3 src) as H.
       rewrite E in H. exact H. Qed.

Lemma strip_at_rule_ident_length (s : str) :
  length (strip_at_rule_ident s) <= length s.
Proof.
  unfold strip_at_rule_ident.
  destruct (Re.rmatch false _ s) as [[c rest]|] eqn:E; [|lia].
  apply rmatch_shorter in E. lia.
Qed.

Lemma skip_to_delimiter_length (s : str) :
  length (skip_to_delimiter s) <= length s.
Proof.
  induction s as [|c s IH]; [cbn; lia|].
  cbn [skip_to_delimiter].
  destruct (str_in _ _); cbn [length] in *; lia.
Qed.

Lemma _parse_s_cdo_cdc_while_length (n : nat) :
  forall s, length (_parse_s_cdo_cdc_while n s) <= length s.
Proof.
  induction n as [|n IH]; intros s; cbn [_parse_s_cdo_cdc_while];
    pose proof (lstrip_length s).
  - lia.
  - destruct (startswith _ _).
    + pose proof (IH (from 4 (lstrip s))).
      pose proof (from_length 4 (lstrip s)). lia.
    + destruct (startswith _ _).
      * pose proof (IH (from 3 (lstrip s))).
        pose proof (from_length 3 (lstrip s)). lia.
      * lia.
Qed.

Lemma _parse_s_cdo_cdc_length (s : str) :
  length (_parse_s_cdo_cdc s) <= length s.
Proof. apply _parse_s_cdo_cdc_while_length. Qed.

Lemma delete_all_from_length (ci : bool) (r : Re.re) (n : nat) :
  forall s, length (Re.delete_all_from ci r n s) <= length s.
Proof.
  induction n as [|n IH]; intros s; cbn [Re.delete_all_from]; [lia|].
  destruct s as [|c s]; [cbn; lia|].
  destruct (Re.rmatch ci r (c :: s)) as [[cs rest]|] eqn:E.
  - apply rmatch_shorter in E. destruct (Nat.ltb _ _).
    + pose proof (IH rest). lia.
    + pose proof (IH s). cbn [length]. lia.
  - pose proof (IH s). cbn [length]. lia.
Qed.

Lemma delete_all_length (ci : bool) (r : Re.re) (s : str) :
  length (Re.delete_all ci r s) <= length s.
Proof. apply delete_all_from_length. Qed.

Lemma strip_length (s : str) : length (strip s) <= length s.
Proof.
  unfold strip, rstrip. rewrite length_rev.
  pose proof (lstrip_length (rev (lstrip s))). rewrite length_rev in H.
  pose proof (lstrip_length s). lia.
Qed.





Section Post.
Variable B : Type.

Lemma post_ret {A} (Q : A -> Prop) (a : A) : Q a -> post Q (ret (B:=B) a).
Proof. intros H w x w' [= <- <-]. exact H. Qed.

Lemma post_raise {A} (Q : A -> Prop) (e : exn) : post Q (raise (B:=B) e).
Proof. intros w x w'. discriminate. Qed.

Lemma post_diverge {A} (Q : A -> Prop) : post Q (diverge (B:=B)).
Proof. intros w x w'. discriminate. Qed.

Lemma post_bind {A C} (Q1 : A -> Prop) (Q : C -> Prop) (m : M B A)
      (f : A -> M B C) :
  post Q1 m -> (forall a, Q1 a -> post Q (f a)) -> post Q (bind m f).
Proof.
  intros Hm Hf w c w' E. unfold bind in E.
  destruct (m w) as [[a|e|] w1] eqn:Em; try discriminate.
  exact (Hf a (Hm _ _ _ Em) _ _ _ E).
Qed.

Lemma post_bind_ret {A C} (Q : C -> Prop) (a : A) (f : A -> M B C) :
  post Q (f a) -> post Q (bind (ret a) f).
Proof. intros H. exact H. Qed.

Lemma post_any {A} (m : M B A) : post (fun _ => True) m.
Proof. intros w a w' _. exact I. Qed.

Lemma post_weaken {A} (Q1 Q : A -> Prop) (m : M B A) :
  post Q1 m -> (forall a, Q1 a -> Q a) -> post Q m.
Proof. intros H HQ w a w' E. exact (HQ a (H _ _ _ E)). Qed.

Lemma post_ext {A} (Q : A -> Prop) (m m' : M B A) :
  (forall w, m w = m' w) -> post Q m' -> post Q m.
Proof. intros E H w a w' Em. rewrite E in Em. exact (H _ _ _ Em). Qed.

Lemma post_assoc {A C D} (Q : D -> Prop) (m : M B A) (f : A -> M B C)
      (g : C -> M B D) :
  post Q (bind m (fun x => bind (f x) g)) -> post Q (bind (bind m f) g).
Proof. apply post_ext. intros w. apply bind_assoc. Qed.

Lemma post_except {A} (Q : A -> Prop) (m : M B A)
      (h : CSSParseError.t -> M B A) :
  post Q m -> (forall e, post Q (h e)) -> post Q (except_ParseError m h).
Proof.
  intros Hm Hh w a w' E. unfold except_ParseError in E.
  destruct (m w) as [[x|e|] w1] eqn:Em.
  - exact (Hm _ _ _ (eq_trans Em E)).
  - destruct e; try discriminate. exact (Hh _ _ _ _ E).
  - discriminate.
Qed.

Lemma post_bind_except {A C} (Q : C -> Prop) (m : M B A)
      (h : CSSParseError.t -> M B A) (f : A -> M B C) :
  post Q (bind m f) -> (forall e, post Q (bind (h e) f)) ->
  post Q (bind (except_ParseError m h) f).
Proof.
  intros Hm Hh w a w' E. unfold bind, except_ParseError in E.
  destruct (m w) as [[x|e|] w1] eqn:Em.
  - apply (Hm w a w'). unfold bind. rewrite Em. exact E.
  - destruct e as [e| | | | | |]; try discriminate. exact (Hh e w1 a w' E).
  - discriminate.
Qed.

Lemma post_get_match_result (r : Re.re) (src : str) :
  post (fun a => length (snd a) <= length src)
       (_get_match_result (B:=B) r src).
Proof.
  unfold _get_match_result.
  destruct (Re.rmatch true r src) as [[c rest]|] eqn:E.
  - apply rmatch_shorter in E. destruct (Nat.ltb _ _).
    + apply post_raise.
    + apply post_ret. cbn. lia.
  - apply post_ret. cbn. lia.
Qed.

Lemma post_get_ident (src : str) :
  post (fun a => length (snd a) <= length src) (_get_ident (B:=B) src).
Proof. apply post_get_match_result. Qed.

End Post.

Ltac learn H :=
  let T := type of H in
  lazymatch goal with
  | _ : T |- _ => fail
  | _ => pose proof H
  end.

Ltac len_fact t :=
  lazymatch t with
  | lstrip ?s => learn (lstrip_length s)
  | strip ?s => learn (strip_length s)
  | from ?k ?s => learn (from_length k s)
  | upto ?k ?s => learn (upto_length k s)
  | strip_at_rule_ident ?s => learn (strip_at_rule_ident_length s)
  | skip_to_delimiter ?s => learn (skip_to_delimiter_length s)
  | _parse_s_cdo_cdc ?s => learn (_parse_s_cdo_cdc_length s)
  | Re.delete_all ?c ?r ?s => learn (delete_all_length c r s)
  | snd (_get_string ?p ?s ?r) => learn (get_string_shorter p s r)
  | snd (_get_string_or_uri ?p ?s) => learn (get_string_or_uri_shorter p s)
  end.

Ltac len_facts :=
  repeat match goal with
         | |- context [length ?t] => len_fact t
         | H : context [length ?t] |- _ => len_fact t
         end.

Ltac len_hyps :=
  repeat match goal with
         | H : ?p = (_, _) |- _ => is_var p; subst p
         end;
  repeat match goal with
         | H : Re.rmatch _ _ ?s = Some (?c, ?rest) |- _ =>
             first [learn (proj1 (@rmatch_shorter _ _ _ _ _ H))
                   |learn (proj2 (@rmatch_shorter _ _ _ _ _ H))]
         | H : Re.group _ ?c = Some ?g, Hc : caps_within _ ?c |- _ =>
             learn (@group_within _ _ _ _ Hc H)
         | H : _get_string _ _ _ = (_, _) |- _ =>
             learn (@get_string_returned _ _ _ _ _ H)
         | H : _get_string_or_uri _ _ = (_, _) |- _ =>
             learn (@get_string_or_uri_returned _ _ _ _ H)
         end.

Ltac len :=
  cbn [fst snd length] in *; len_hyps; len_facts; cbn [length] in *; lia.

Ltac post_sub :=
  lazymatch goal with
  | |- post _ (_get_match_result _ _) => apply post_get_match_result
  | |- post _ (_get_ident _) => apply post_get_ident
  | |- post _ (invoke _ _ _) => apply post_any
  | |- post _ (invoke_on _ _ _ _) => apply post_any
  | |- post _ (extend _ _ _) => apply post_any
  | |- post _ (str_add _ _) => apply post_any
  | H : Self_shrinks ?self |- post _ (self_parse_expression ?self _ _) =>
      apply (proj1 H)
  | H : Self_shrinks ?self |- post _ (self_parse_at_keyword ?self _) =>
      apply (proj1 (proj2 H))
  | H : Self_shrinks ?self |- post _ (self_parse_stylesheet ?self _) =>
      apply (proj2 (proj2 H))
  | |- _ => solve [eauto]
  end.

Ltac post_step :=
  lazymatch goal with
  | |- post _ (ret _) => apply post_ret; len
  | |- post _ (raise _) => apply post_raise
  | |- post _ (raise_ParseError _ _ _) => apply post_raise
  | |- post _ diverge => apply post_diverge
  | |- post _ (bind (ret _) _) => apply post_bind_ret; cbv beta
  | |- post _ (bind (raise _) _) => apply post_raise
  | |- post _ (bind (raise_ParseError _ _ _) _) => apply post_raise
  | |- post _ (bind (except_ParseError _ _) _) =>
      apply post_bind_except; [|intros]
  | |- post _ (bind (bind _ _) _) =>
      apply post_assoc
  | |- post _ (bind (if ?c then _ else _) _) => destruct c eqn:?
  | |- post _ (bind (match ?x with _ => _ end) _) => destruct x eqn:?
  | |- post _ (bind _ _) =>
      eapply post_bind; [post_sub|cbv beta; intros; cbn [fst snd] in *]
  | |- post _ (except_ParseError _ _) => apply post_except; [|intros]
  | |- post _ (match _get_string ?p ?s ?r with _ => _ end) =>
      let H := fresh "Hlen" in
      pose proof (get_string_shorter p s r) as H;
      destruct (_get_string p s r); cbn [snd] in H
  | |- post _ (match _get_string_or_uri ?p ?s with _ => _ end) =>
      let H := fresh "Hlen" in
      pose proof (get_string_or_uri_shorter p s) as H;
      destruct (_get_string_or_uri p s); cbn [snd] in H
  | |- post _ (match (match ?y with _ => _ end) with _ => _ end) =>
      destruct y eqn:?
  | |- post _ (match (if ?y then _ else _) with _ => _ end) =>
      destruct y eqn:?
  | |- post _ (if ?c then _ else _) => destruct c eqn:?
  | |- post _ (match ?x with _ => _ end) => destruct x eqn:?; cbn [fst snd] in *
  | |- post _ ?m =>
      first
        [ match m with
          | context [if ?c then _ else _] => destruct c eqn:?
          | context [match ?c with Some _ => _ | None => _ end] =>
              destruct c eqn:?
          end
        | eapply post_weaken;
          [post_sub|cbv beta; intros; cbn [fst snd] in *; len] ]
  end.

Ltac post_auto := cbv zeta; repeat post_step.

Section Shrinks.
Variable py3 : bool.
Variable B : Type.
Variable css_builder : builder B.
Hypothesis Hhooks : hooks_consume css_builder.
Variable self : Self B.
Hypothesis Hself : Self_shrinks self.

Lemma post_unpacked (h : Hook.t) (args : list pyval) (src : str) :
  (forall st v st' s,
      css_builder h args st = (Ok v, st') ->
      returned_source v = Some s -> length s <= length src) ->
  post (fun a => length (fst a) <= length src)
       (r <- invoke css_builder h args ;; unpack_src r).
Proof.
  intros H w a w' E. unfold bind, invoke in E.
  destruct (css_builder h args (bstate w)) as [[v|e] st] eqn:Eh;
    [|discriminate].
  specialize (H _ _ _ (fst a) Eh).
  destruct v as [| |s|l|l|o|]; try discriminate;
    destruct l as [|[| |s|?|?|?|] [|r [|? ?]]]; try discriminate;
    injection E as <- <-; apply H; reflexivity.
Qed.

Lemma shrinks_parse_expression_term (src : str) :
  post (fun a => length (fst a) <= length src)
       (_parse_expression_term py3 css_builder self src).
Proof.
  unfold _parse_expression_term. cbv zeta.
  repeat lazymatch goal with
         | |- post _ (bind (invoke _ Hook.term_unknown _) _) =>
             eapply post_weaken;
             [apply post_unpacked; intros; eapply (proj1 Hhooks); eassumption
             |cbv beta; intros; len]
         | |- _ => post_step
         end.
Qed.

Lemma shrinks_parse_expression_while (fuel : nat) :
  forall src term operator,
    post (fun a => length (fst (fst a)) <= length src)
         (_parse_expression_while py3 css_builder fuel self src term operator).
Proof.
  pose proof shrinks_parse_expression_term.
  induction fuel as [|fuel IH]; intros; cbn [_parse_expression_while];
    post_auto.
Qed.

Lemma shrinks_parse_expression (fuel : nat) (src : str) (returnList : bool) :
  post (fun a => length (fst a) <= length src)
       (_parse_expression py3 css_builder fuel self src returnList).
Proof.
  pose proof shrinks_parse_expression_term.
  pose proof shrinks_parse_expression_while.
  unfold _parse_expression. post_auto.
Qed.

Lemma shrinks_parse_declaration_property (fuel : nat) (src : str) (n : pyval) :
  post (fun a => length (fst a) <= length src)
       (_parse_declaration_property py3 css_builder fuel self src n).
Proof.
  pose proof shrinks_parse_expression.
  unfold _parse_declaration_property. post_auto.
Qed.

Lemma shrinks_parse_declaration (fuel : nat) (src : str) :
  post (fun a => length (fst a) <= length src)
       (_parse_declaration py3 css_builder fuel self src).
Proof.
  pose proof shrinks_parse_declaration_property.
  unfold _parse_declaration. post_auto.
Qed.

End Shrinks.

(** *** The placeholder of the star hack is an identifier *)

Lemma star_total (ci : bool) (a : Re.re) (R : Type) (s : str) (c : Re.caps)
      (k : str -> Re.caps -> option R) :
  (forall s' c', k s' c' <> None) -> Re.run ci (Re.Star a) s c k <> None.
Proof.
  intros Hk. unfold Re.Star. cbn [Re.run]. cbv beta iota zeta fix.
  destruct (length s) as [|n]; cbn [Nat.eqb].
  - apply Hk.
  - match goal with
    | |- match ?e with _ => _ end <> None => destruct e
    end; [discriminate|apply Hk].
Qed.

Lemma star_step (ci : bool) (a : Re.re) (R : Type) (ch : char) (s : str)
      (c : Re.caps) (k : str -> Re.caps -> option R) :
  (forall k' : str -> Re.caps -> option R,
      Re.run ci a (ch :: s) c k' = k' s c) ->
  Re.run ci (Re.Star a) (ch :: s) c k
  = match Re.run ci (Re.Star a) s c k with
    | Some x => Some x
    | None => k (ch :: s) c
    end.
Proof.
  intros Ha. unfold Re.Star. cbn [Re.run length]. cbv beta iota zeta fix.
  rewrite Ha. cbn [Nat.eqb pred option_map].
  replace (Nat.ltb (length s) (S (length s))) with true
    by (symmetry; apply Nat.ltb_lt; lia).
  reflexivity.
Qed.

Lemma nmchar_plain (ch : char) (R : Type) (s : str) (c : Re.caps)
      (k : str -> Re.caps -> option R) :
  In ch (txt "othing-") -> Re.run true Pat.i_nmchar (ch :: s) c k = k s c.
Proof.
  intros H. cbn in H.
  repeat (destruct H as [<-|H]; [cbv; destruct (k s c); reflexivity|]).
  contradiction.
Qed.

Lemma run_seq (ci : bool) (a b : Re.re) (R : Type) (s : str) (c : Re.caps)
      (k : str -> Re.caps -> option R) :
  Re.run ci (Re.Seq a b) s c k
  = Re.run ci a s c (fun s' c' => Re.run ci b s' c' k).
Proof. reflexivity. Qed.

Lemma run_grp (ci : bool) (i : nat) (a : Re.re) (R : Type) (s : str)
      (c : Re.caps) (k : str -> Re.caps -> option R) :
  Re.run ci (Re.Grp i a) s c k
  = Re.run ci a s c
           (fun s' c' => k s' ((i, firstn (length s - length s') s) :: c')).
Proof. reflexivity. Qed.

Lemma nmstart_hyphen (R : Type) (s : str) (c : Re.caps)
      (k : str -> Re.caps -> option R) :
  Re.run true Pat.i_nmstart (45 :: 110 :: s)%N c k = k s c.
Proof. cbv. destruct (k s c); reflexivity. Qed.

Lemma ident_body_after_nothing (R : Type) (rest : str)
      (k : str -> Re.caps -> option R) :
  (forall s' c', k s' c' <> None) ->
  exists s' c',
    length s' <= length rest
    /\ Re.run true Pat.i_ident_body (txt "-nothing-" ++ rest) [] k = k s' c'.
Proof.
  intros Hk. unfold Pat.i_ident_body.
  change (txt "-nothing-" ++ rest)
    with (45 :: 110 :: 111 :: 116 :: 104 :: 105 :: 110 :: 103 :: 45 :: rest)%N.
  rewrite run_seq, nmstart_hyphen.
  do 7 (rewrite star_step by (intros; apply nmchar_plain; cbn; tauto)).
  destruct (Re.run true (Re.Star Pat.i_nmchar) rest [] k) as [x|] eqn:E;
    [|now elim (@star_total true Pat.i_nmchar _ rest [] k Hk)].
  apply (@run_shorter true (length rest)) in E; [|lia|constructor].
  destruct E as (s' & c' & Ek & L & _).
  exists s', c'. split; [exact L|]. now rewrite Ek.
Qed.

Lemma ident_after_nothing (rest : str) :
  exists id rest',
    match_result Pat.re_ident (txt "-nothing-" ++ rest) = (Some id, rest')
    /\ length rest' <= length rest.
Proof.
  unfold match_result, Re.rmatch, Pat.re_ident, Pat.i_ident.
  rewrite run_grp.
  match goal with
  | |- context [Re.run true Pat.i_ident_body ?s [] ?k] =>
      destruct (@ident_body_after_nothing _ rest k) as (s' & c' & L & E);
      [intros; discriminate|rewrite E]
  end.
  cbn [Re.group Nat.eqb]. eauto.
Qed.

Lemma post_and {B A} (Q1 Q2 : A -> Prop) (m : M B A) :
  post Q1 m -> post Q2 m -> post (fun a => Q1 a /\ Q2 a) m.
Proof. intros H1 H2 w a w' E. split; [exact (H1 _ _ _ E)|exact (H2 _ _ _ E)]. Qed.


Section ShrinksDeclarations.
Variable py3 : bool.
Variable B : Type.
Variable css_builder : builder B.
Hypothesis Hhooks : hooks_consume css_builder.
Variable self : Self B.
Hypothesis Hself : Self_shrinks self.

Lemma shrinks_parse_declaration_nothing (fuel : nat) (rest : str) :
  post (fun a => length (fst a) <= length rest)
       (_parse_declaration py3 css_builder fuel self
                           (txt "-nothing-" ++ rest)).
Proof.
  pose proof (shrinks_parse_declaration_property py3 Hhooks Hself).
  unfold _parse_declaration, _get_ident.
  rewrite _get_match_result_ret by (vm_compute; lia).
  destruct (ident_after_nothing rest) as (id & rest' & E & L).
  rewrite E, bind_ret. cbv beta iota. post_auto.
Qed.

Lemma within_parse_declaration (fuel : nat) (src : str) :
  post (fun a => within src (fst a))
       (_parse_declaration py3 css_builder fuel self src).
Proof.
  apply post_and.
  - now apply shrinks_parse_declaration.
  - intros w a w' E rest ->.
    exact (shrinks_parse_declaration_nothing _ _ _ E).
Qed.

Lemma within_refl (src : str) :
  str_in (first1 src)
         [txt ""; txt ","; txt "{"; txt "}"; txt "["; txt "]"; txt "(";
          txt ")"; txt "@"] = true ->
  within src src.
Proof.
  intros H. split; [lia|]. intros rest ->. discriminate.
Qed.

Lemma within_trans (src s1 s2 : str) :
  within src s1 -> length s2 <= length s1 -> within src s2.
Proof.
  intros [H1 H2] L. split; [lia|]. intros rest E. specialize (H2 rest E). lia.
Qed.

Lemma within_parse_declaration_group_while (fuel : nat) :
  forall src properties,
    post (fun a => within src (fst a))
         (_parse_declaration_group_while py3 css_builder fuel self src
                                         properties).
Proof.
  induction fuel as [|fuel IH]; intros src properties;
    cbn [_parse_declaration_group_while];
    destruct (str_in (first1 src) _) eqn:Hstop;
    try (apply post_ret; now apply within_refl);
    try apply post_diverge.
  eapply post_bind; [apply within_parse_declaration|].
  intros [s1 property] H1. cbn [fst] in H1.
  destruct (startswith s1 (txt "*")).
  - eapply post_weaken; [apply IH|]. intros a [_ Ha].
    specialize (Ha _ eq_refl). eapply within_trans; [exact H1|].
    pose proof (from_length 1 s1). lia.
  - destruct (is_None property).
    + apply post_ret. exact H1.
    + destruct (startswith s1 (txt ";")).
      * eapply post_weaken; [apply IH|]. intros a [Ha _].
        eapply within_trans; [exact H1|].
        pose proof (from_length 1 s1). pose proof (lstrip_length (from 1 s1)).
        lia.
      * apply post_ret. exact H1.
Qed.

Lemma shrinks_parse_declaration_group_while (fuel : nat) :
  forall src properties,
    post (fun a => length (fst a) <= length src)
         (_parse_declaration_group_while py3 css_builder fuel self src
                                         properties).
Proof.
  intros. eapply post_weaken; [apply within_parse_declaration_group_while|].
  intros a [H _]. exact H.
Qed.

Lemma shrinks_parse_declaration_group (fuel : nat) (src : str)
      (braces : bool) :
  post (fun a => length (fst a) <= length src)
       (_parse_declaration_group py3 css_builder fuel self src braces).
Proof.
  pose proof shrinks_parse_declaration_group_while.
  unfold _parse_declaration_group. post_auto.
Qed.

End ShrinksDeclarations.

Section ShrinksRules.
Variable py3 : bool.
Variable B : Type.
Variable css_builder : builder B.
Hypothesis Hhooks : hooks_consume css_builder.
Variable self : Self B.
Hypothesis Hself : Self_shrinks self.

Lemma shrinks_parse_selector_attribute (src : str) (selector : pyval) :
  post (fun a => length (fst a) <= length src)
       (_parse_selector_attribute py3 css_builder src selector).
Proof. unfold _parse_selector_attribute. post_auto. Qed.

Lemma shrinks_parse_selector_pseudo (fuel : nat) (src : str)
      (selector : pyval) :
  post (fun a => length (fst a) <= length src)
       (_parse_selector_pseudo py3 css_builder fuel self src selector).
Proof.
  pose proof (shrinks_parse_expression py3 Hhooks Hself).
  unfold _parse_selector_pseudo. post_auto.
Qed.

Lemma shrinks_parse_simple_selector_while (fuel : nat) :
  forall src selector,
    post (fun a => length (fst a) <= length src)
         (_parse_simple_selector_while py3 css_builder fuel self src selector).
Proof.
  pose proof shrinks_parse_selector_attribute.
  pose proof shrinks_parse_selector_pseudo.
  induction fuel as [|fuel IH]; intros; cbn [_parse_simple_selector_while];
    post_auto.
Qed.

Lemma shrinks_parse_simple_selector (fuel : nat) (src : str) :
  post (fun a => length (fst a) <= length src)
       (_parse_simple_selector py3 css_builder fuel self src).
Proof.
  pose proof shrinks_parse_simple_selector_while.
  unfold _parse_simple_selector. post_auto.
Qed.

Lemma shrinks_parse_selector_while (fuel : nat) :
  forall srcLen src selector,
    post (fun a => length (fst a) <= length src)
         (_parse_selector_while py3 css_builder fuel self srcLen src selector).
Proof.
  pose proof shrinks_parse_simple_selector.
  induction fuel as [|fuel IH]; intros; cbn [_parse_selector_while];
    post_auto.
Qed.

Lemma shrinks_parse_selector (fuel : nat) (src : str) :
  post (fun a => length (fst a) <= length src)
       (_parse_selector py3 css_builder fuel self src).
Proof.
  pose proof shrinks_parse_simple_selector.
  pose proof shrinks_parse_selector_while.
  unfold _parse_selector. post_auto.
Qed.

Lemma shrinks_parse_selector_group_while (fuel : nat) :
  forall src selectors,
    post (fun a => length (fst a) <= length src)
         (_parse_selector_group_while py3 css_builder fuel self src selectors).
Proof.
  pose proof shrinks_parse_selector.
  induction fuel as [|fuel IH]; intros; cbn [_parse_selector_group_while];
    post_auto.
Qed.

Lemma shrinks_parse_ruleset (fuel : nat) (src : str) :
  post (fun a => length (fst a) <= length src)
       (_parse_ruleset py3 css_builder fuel self src).
Proof.
  pose proof shrinks_parse_selector_group_while.
  pose proof (shrinks_parse_declaration_group py3 Hhooks Hself).
  unfold _parse_ruleset, _parse_selector_group. post_auto.
Qed.

Lemma shrinks_parse_at_charset (src : str) :
  post (fun a => length a <= length src)
       (_parse_at_charset py3 css_builder src).
Proof. unfold _parse_at_charset. post_auto. Qed.

Lemma post_bind_unpacked {C} (Q : C -> Prop) (h : Hook.t)
      (args : list pyval) (src : str) (f : str * pyval -> M B C) :
  (forall st v st' s,
      css_builder h args st = (Ok v, st') ->
      returned_source v = Some s -> length s <= length src) ->
  (forall a, length (fst a) <= length src -> post Q (f a)) ->
  post Q (r <- invoke css_builder h args ;; a <- unpack_src r ;; f a).
Proof.
  intros Hh Hf.
  eapply post_ext;
    [intros w; symmetry;
     apply (bind_assoc (invoke css_builder h args) unpack_src f)|].
  eapply post_bind; [apply post_unpacked; exact Hh|exact Hf].
Qed.

Lemma shrinks_parse_at_imports_mediums (fuel : nat) :
  forall medium src mediums,
    post (fun a => length (fst a) <= length src)
         (_parse_at_imports_mediums (B:=B) fuel medium src mediums).
Proof.
  induction fuel as [|fuel IH]; intros; cbn [_parse_at_imports_mediums];
    post_auto.
Qed.

Lemma shrinks_parse_at_imports_while (fuel : nat) :
  forall src result,
    post (fun a => length (fst a) <= length src)
         (_parse_at_imports_while py3 css_builder fuel src result).
Proof.
  pose proof shrinks_parse_at_imports_mediums.
  induction fuel as [|fuel IH]; intros; cbn [_parse_at_imports_while];
    post_auto.
Qed.

Lemma shrinks_parse_at_namespace_while (fuel : nat) :
  forall src,
    post (fun a => length a <= length src)
         (_parse_at_namespace_while py3 css_builder fuel src).
Proof.
  induction fuel as [|fuel IH]; intros; cbn [_parse_at_namespace_while];
    post_auto.
Qed.

Lemma shrinks_parse_at_namespace (fuel : nat) (src : str) :
  post (fun a => length a <= length src)
       (_parse_at_namespace py3 css_builder fuel src).
Proof.
  pose proof shrinks_parse_at_namespace_while.
  unfold _parse_at_namespace. post_auto.
Qed.

Lemma shrinks_parse_at_media_mediums (fuel : nat) :
  forall ctxsrc src mediums,
    post (fun a => length (fst a) <= length src)
         (_parse_at_media_mediums (B:=B) fuel ctxsrc src mediums).
Proof.
  induction fuel as [|fuel IH]; intros; cbn [_parse_at_media_mediums];
    post_auto.
Qed.

Lemma shrinks_parse_at_media_rules (fuel : nat) :
  forall src stylesheet_elements,
    post (fun a => length (fst a) <= length src)
         (_parse_at_media_rules py3 css_builder fuel self src
                                stylesheet_elements).
Proof.
  pose proof shrinks_parse_ruleset.
  induction fuel as [|fuel IH]; intros; cbn [_parse_at_media_rules];
    post_auto.
Qed.

Lemma shrinks_parse_at_media (fuel : nat) (src : str) :
  post (fun a => length (fst a) <= length src)
       (_parse_at_media py3 css_builder fuel self src).
Proof.
  pose proof shrinks_parse_at_media_mediums.
  pose proof shrinks_parse_at_media_rules.
  unfold _parse_at_media. post_auto.
Qed.

Lemma shrinks_parse_at_page_while (fuel : nat) :
  forall src stylesheet_elements properties,
    post (fun a => length (fst a) <= length src)
         (_parse_at_page_while py3 css_builder fuel self src
                               stylesheet_elements properties).
Proof.
  pose proof (shrinks_parse_declaration_group py3 Hhooks Hself).
  induction fuel as [|fuel IH]; intros; cbn [_parse_at_page_while];
    post_auto.
Qed.

Lemma shrinks_parse_at_page (fuel : nat) (src : str) :
  post (fun a => length (fst a) <= length src)
       (_parse_at_page py3 css_builder fuel self src).
Proof.
  pose proof shrinks_parse_at_page_while.
  unfold _parse_at_page. post_auto.
Qed.

Lemma shrinks_parse_at_frame (fuel : nat) (src : str) :
  post (fun a => length (fst a) <= length src)
       (_parse_at_frame py3 css_builder fuel self src).
Proof.
  pose proof (shrinks_parse_declaration_group py3 Hhooks Hself).
  unfold _parse_at_frame. post_auto.
Qed.

Lemma shrinks_parse_at_font_face (fuel : nat) (src : str) :
  post (fun a => length (fst a) <= length src)
       (_parse_at_font_face py3 css_builder fuel self src).
Proof.
  pose proof (shrinks_parse_declaration_group py3 Hhooks Hself).
  unfold _parse_at_font_face. post_auto.
Qed.

Lemma shrinks_parse_at_ident (fuel : nat) (src : str) :
  post (fun a => length (fst a) <= length src)
       (_parse_at_ident py3 css_builder fuel self src).
Proof.
  pose proof (shrinks_parse_declaration_group py3 Hhooks Hself).
  unfold _parse_at_ident. cbv zeta.
  repeat lazymatch goal with
         | |- post _ (bind (invoke _ Hook.at_ident _) _) =>
             eapply post_bind_unpacked;
             [intros; eapply (proj2 Hhooks); eassumption
             |cbv beta; intros; cbn [fst snd] in *]
         | |- _ => post_step
         end.
Qed.

Lemma shrinks_parse_at_keyword (fuel : nat) (src : str) :
  post (fun a => length (fst a) <= length src)
       (_parse_at_keyword py3 css_builder fuel self src).
Proof.
  pose proof shrinks_parse_at_media.
  pose proof shrinks_parse_at_page.
  pose proof shrinks_parse_at_font_face.
  pose proof shrinks_parse_at_imports_while.
  pose proof shrinks_parse_at_frame.
  pose proof shrinks_parse_at_ident.
  unfold _parse_at_keyword, _parse_at_imports. post_auto.
Qed.

Lemma shrinks_parse_stylesheet_while (fuel : nat) :
  forall src stylesheet_elements,
    post (fun a => length (fst a) <= length src)
         (_parse_stylesheet_while py3 css_builder fuel self src
                                  stylesheet_elements).
Proof.
  pose proof shrinks_parse_ruleset.
  pose proof shrinks_parse_at_keyword.
  induction fuel as [|fuel IH]; intros; cbn [_parse_stylesheet_while];
    post_auto.
Qed.

Lemma shrinks_parse_stylesheet (fuel : nat) (src : str) :
  post (fun a => length (fst a) <= length src)
       (_parse_stylesheet py3 css_builder fuel self src).
Proof.
  pose proof shrinks_parse_at_charset.
  pose proof shrinks_parse_at_imports_while.
  pose proof shrinks_parse_at_namespace.
  pose proof shrinks_parse_stylesheet_while.
  unfold _parse_stylesheet, _parse_at_imports. post_auto.
Qed.

End ShrinksRules.


Lemma Self_shrinks_self_at (py3 : bool) (B : Type) (css_builder : builder B) :
  hooks_consume css_builder ->
  forall fuel, Self_shrinks (self_at py3 css_builder fuel).
Proof.
  intros Hhooks. induction fuel as [|fuel IH]; cbn [self_at].
  - repeat split; intros; apply post_diverge.
  - repeat split; cbn [self_parse_expression self_parse_at_keyword
                       self_parse_stylesheet]; intros.
    + apply shrinks_parse_expression; assumption.
    + apply shrinks_parse_at_keyword; assumption.
    + apply shrinks_parse_stylesheet; assumption.
Qed.

(** * Further properties of the parser *)

(** ** What a match consumes *)

Lemma run_consumes (ci : bool) (r : Re.re) :
  forall (R : Type) (s : str) (c : Re.caps) (k : str -> Re.caps -> option R)
         (x : R),
    Re.run ci r s c k = Some x ->
    exists p s' c',
      s = p ++ s' /\ k s' c' = Some x /\ (Pat.groups_of r = 0 -> c' = c).
Proof.
  induction r as [|ch|neg rs| | |a IHa b IHb|a IHa b IHb|lo hi a IHa|i a IHa
                 |a IHa];
    intros R s c k x H; cbn [Re.run Pat.groups_of] in *.
  - exists [], s, c. auto.
  - destruct s as [|y s]; [discriminate|].
    destruct (Re.chr_eq ci ch y); [|discriminate].
    exists [y], s, c. auto.
  - destruct s as [|y s]; [discriminate|].
    destruct (xorb neg (Re.in_cls ci rs y)); [|discriminate].
    exists [y], s, c. auto.
  - destruct s as [|y s]; [discriminate|].
    destruct (N.eqb y 10); [discriminate|].
    exists [y], s, c. auto.
  - destruct s as [|y s]; [discriminate|].
    exists [y], s, c. auto.
  - apply IHa in H. destruct H as (p1 & s1 & c1 & -> & H & G1).
    apply IHb in H. destruct H as (p2 & s2 & c2 & -> & H & G2).
    exists (p1 ++ p2), s2, c2. rewrite app_assoc.
    split; [reflexivity|]. split; [exact H|].
    intros G. rewrite G2, G1 by lia. reflexivity.
  - destruct (Re.run ci a s c k) as [y|] eqn:E.
    + injection H as <-. apply IHa in E.
      destruct E as (p & s' & c' & -> & E & G).
      exists p, s', c'. split; [reflexivity|]. split; [exact E|].
      intros G0. apply G. lia.
    + apply IHb in H. destruct H as (p & s' & c' & -> & E' & G).
      exists p, s', c'. split; [reflexivity|]. split; [exact E'|].
      intros G0. apply G. lia.
  - cbv beta iota zeta fix in H. revert H. generalize (length s) at 1.
    intros m. revert lo hi s c x.
    induction m as [|m IHm]; intros lo hi s c x H;
      cbv beta iota zeta fix in H.
    + destruct (Nat.eqb lo 0); [|discriminate]. exists [], s, c. auto.
    + assert (Hstop : forall y, (if Nat.eqb lo 0 then k s c else None) = Some y ->
                      exists p s' c',
                        s = p ++ s' /\ k s' c' = Some y
                        /\ (Pat.groups_of a = 0 -> c' = c)).
      { intros y. destruct (Nat.eqb lo 0); [|discriminate]. intros E.
        exists [], s, c. auto. }
      match type of H with
      | match ?e with _ => _ end = _ => destruct e as [y|] eqn:E
      end; [injection H as <-|now apply Hstop].
      destruct hi as [[|h]|]; [discriminate| |];
        (apply IHa in E; destruct E as (p1 & s1 & c1 & -> & E & G1);
         destruct (Nat.ltb (length s1) (length (p1 ++ s1))); [|discriminate];
         apply IHm in E; destruct E as (p2 & s2 & c2 & -> & E & G2);
         exists (p1 ++ p2), s2, c2; rewrite app_assoc;
         split; [reflexivity|]; split; [exact E|];
         intros G; rewrite G2, G1 by exact G; reflexivity).
  - apply IHa in H. destruct H as (p & s1 & c1 & -> & H & G).
    exists p, s1, ((i, firstn (length (p ++ s1) - length s1) (p ++ s1)) :: c1).
    split; [reflexivity|]. split; [exact H|]. discriminate.
  - destruct (Re.run ci a s c (fun _ _ => Some tt)); [discriminate|].
    exists [], s, c. auto.
Qed.

Lemma run_alt (ci : bool) (a b : Re.re) (R : Type) (s : str) (c : Re.caps)
      (k : str -> Re.caps -> option R) :
  Re.run ci (Re.Alt a b) s c k
  = match Re.run ci a s c k with
    | Some x => Some x
    | None => Re.run ci b s c k
    end.
Proof. reflexivity. Qed.

Lemma firstn_consumed {A} (p s : list A) :
  firstn (length (p ++ s) - length s) (p ++ s) = p.
Proof.
  rewrite length_app, Nat.add_sub, firstn_app, Nat.sub_diag, firstn_all.
  cbn [firstn]. apply app_nil_r.
Qed.

(** X1: what [_get_match_result] returns as the remaining source is the end
    of the source it was given, whatever the pattern; it invokes no hook and
    leaves the builder as it was. *)
Theorem get_match_result_leaves_a_suffix (B : Type) (r : Re.re) (src : str)
        (w w' : world B) (v : option str) (rest : str) :
  _get_match_result r src w = (Ret (v, rest), w') ->
  (exists p, src = p ++ rest) /\ w' = w.
Proof.
  unfold _get_match_result.
  destruct (Re.rmatch true r src) as [[c s']|] eqn:E.
  - destruct (Nat.ltb _ _); [discriminate|]. intros [= _ <- <-].
    apply run_consumes in E. destruct E as (p & s1 & c1 & -> & [= _ <-] & _).
    split; [now exists p|reflexivity].
  - intros [= _ <- <-]. split; [now exists []|reflexivity].
Qed.

Lemma get_match_result_leaves_a_suffix_witness :
  (exists p, txt "color: red" = p ++ txt ": red") /\ start 0%N = start 0%N.
Proof.
  apply (@get_match_result_leaves_a_suffix
           N Pat.re_ident (txt "color: red") (start 0%N) (start 0%N)
           (Some (txt "color")) (txt ": red")).
  vm_compute. reflexivity.
Defined.

(** X2: an identifier and the source left after it make up the source:
    [_get_ident] returns the identifier as written, escapes included. *)
Theorem get_ident_round_trip (B : Type) (src : str) (w w' : world B)
        (id rest : str) :
  _get_ident src w = (Ret (Some id, rest), w') -> src = id ++ rest.
Proof.
  unfold _get_ident, _get_match_result, Re.rmatch, Pat.re_ident, Pat.i_ident.
  rewrite run_grp.
  match goal with
  | |- match ?e with _ => _ end _ = _ -> _ => destruct e as [[c s']|] eqn:E
  end; [|discriminate].
  apply run_consumes in E. destruct E as (p & s1 & c1 & -> & [= <- <-] & _).
  change (Nat.ltb (Pat.groups_of (Re.Grp 1 Pat.i_ident_body)) 1) with false.
  cbn [Re.group Nat.eqb]. rewrite firstn_consumed. now intros [= <- <-].
Qed.

Lemma get_ident_round_trip_witness :
  txt "color: red" = txt "color" ++ txt ": red".
Proof.
  apply (@get_ident_round_trip N (txt "color: red") (start 0%N) (start 0%N)).
  vm_compute. reflexivity.
Defined.

(** ** Literals and greedy runs *)

Lemma run_seqs_cons (ci : bool) (a : Re.re) (l : list Re.re) (R : Type)
      (s : str) (c : Re.caps) (k : str -> Re.caps -> option R) :
  Re.run ci (Re.Seqs (a :: l)) s c k
  = Re.run ci a s c (fun s' c' => Re.run ci (Re.Seqs l) s' c' k).
Proof. destruct l; reflexivity. Qed.

(** A literal matches where the text starts with it, case-sensitively. *)
Lemma run_chrs (cs : str) (R : Type) :
  forall (s : str) (c : Re.caps) (k : str -> Re.caps -> option R),
    Re.run false (Re.Seqs (map Re.Chr cs)) s c k
    = if startswith s cs then k (from (length cs) s) c else None.
Proof.
  induction cs as [|x cs IH]; intros s c k; [now destruct s|].
  cbn [map]. rewrite run_seqs_cons.
  destruct s as [|y s]; [reflexivity|].
  cbn [Re.run Re.chr_eq startswith length from skipn].
  destruct (N.eqb x y); [|reflexivity]. cbn [andb]. apply IH.
Qed.

Lemma is_at_rule_ident_startswith (src : str) (ident : String.string) :
  is_at_rule_ident src (Re.Lit ident) = startswith src (txt "@" ++ txt ident).
Proof.
  unfold is_at_rule_ident, Re.rmatch.
  change (Re.Seqs [Re.Chr 64; Re.Lit ident; Re.Star Re.Space])
    with (Re.Seq (Re.Chr 64) (Re.Seq (Re.Lit ident) (Re.Star Re.Space))).
  rewrite !run_seq. unfold Re.Lit.
  change (txt "@" ++ txt ident) with (64%N :: txt ident).
  destruct src as [|y s]; [reflexivity|].
  cbn [Re.run Re.chr_eq startswith].
  destruct (N.eqb 64 y); [|reflexivity]. cbn [andb].
  rewrite run_chrs. destruct (startswith s (txt ident)); [|reflexivity].
  match goal with
  | |- match ?e with _ => _ end = _ => destruct e eqn:E
  end; [reflexivity|].
  now apply star_total in E.
Qed.

(** X3: for a name that stands for itself as a pattern (a literal, as
    every name the module passes), [is_at_rule_ident(src, ident)] is a prefix
    test and no more: the source begins with [@] and the name, in the same
    case, whatever comes after; the name need not end there.  A name that
    holds a pattern character is a pattern: [a.c] accepts [@abc]. *)
Theorem is_at_rule_ident_is_a_prefix_test (src : str) (ident : String.string) :
  (is_at_rule_ident src (Re.Lit ident) = true
   <-> exists rest, src = txt "@" ++ txt ident ++ rest)
  /\ is_at_rule_ident (txt "@abc") (Re.Seqs [Re.Chr 97; Re.Dot; Re.Chr 99])
     = true.
Proof.
  split; [|reflexivity].
  rewrite is_at_rule_ident_startswith. split.
  - intros H. apply startswith_split in H.
    exists (from (length (txt "@" ++ txt ident)) src).
    now rewrite app_assoc.
  - intros [rest ->]. rewrite app_assoc. apply startswith_app.
Qed.

(** X4: [_parse_at_keyword] chooses the rule by that prefix test, in the
    order media, page, font-face, import, frame: a source that begins with
    [@media] goes to [_parse_at_media] whatever follows the five letters,
    and so on for the others. *)
Theorem at_keyword_dispatches_on_prefix (py3 : bool) (B : Type)
        (css_builder : builder B) (fuel : nat) (self : Self B) (rest : str) :
  _parse_at_keyword py3 css_builder fuel self (txt "@media" ++ rest)
  = _parse_at_media py3 css_builder fuel self (txt "@media" ++ rest)
  /\ _parse_at_keyword py3 css_builder fuel self (txt "@page" ++ rest)
     = _parse_at_page py3 css_builder fuel self (txt "@page" ++ rest)
  /\ _parse_at_keyword py3 css_builder fuel self (txt "@font-face" ++ rest)
     = _parse_at_font_face py3 css_builder fuel self
                           (txt "@font-face" ++ rest)
  /\ _parse_at_keyword py3 css_builder fuel self (txt "@import" ++ rest)
     = ('(src, result) <-
          _parse_at_imports py3 css_builder fuel (txt "@import" ++ rest) ;;
        ret (src, PList result))
  /\ _parse_at_keyword py3 css_builder fuel self (txt "@frame" ++ rest)
     = _parse_at_frame py3 css_builder fuel self (txt "@frame" ++ rest).
Proof.
  unfold _parse_at_keyword. rewrite !is_at_rule_ident_startswith.
  destruct rest as [|c rest];
    repeat match goal with
           | |- context [startswith (txt ?a ++ ?r) ?p] =>
               let b := eval vm_compute in (startswith (txt a ++ r) p) in
               change (startswith (txt a ++ r) p) with b
           end;
    cbv iota; repeat split.
Qed.

(** ** Space and comment delimiters between rules *)

Lemma startswith_length (s p : str) :
  startswith s p = true -> length p <= length s.
Proof.
  intros H. apply startswith_split in H. rewrite H, length_app. lia.
Qed.

Lemma _parse_s_cdo_cdc_while_exit (n : nat) :
  forall s,
    length s <= n ->
    lstrip (_parse_s_cdo_cdc_while n s) = _parse_s_cdo_cdc_while n s
    /\ startswith (_parse_s_cdo_cdc_while n s) (txt "<!--") = false
    /\ startswith (_parse_s_cdo_cdc_while n s) (txt "-->") = false.
Proof.
  induction n as [|n IH]; intros s Hs; cbn [_parse_s_cdo_cdc_while].
  - destruct s; [|cbn [length] in Hs; lia]. repeat split.
  - pose proof (lstrip_length s) as Hl.
    destruct (startswith (lstrip s) (txt "<!--")) eqn:E1.
    + apply IH. apply startswith_length in E1. rewrite from_length.
      change (length (txt "<!--")) with 4 in E1. lia.
    + destruct (startswith (lstrip s) (txt "-->")) eqn:E2.
      * apply IH. apply startswith_length in E2. rewrite from_length.
        change (length (txt "-->")) with 3 in E2. lia.
      * rewrite lstrip_idem. auto.
Qed.

(** X5: [_parse_s_cdo_cdc] stops only where its loop may stop: what it
    returns begins with neither white space, nor [<!--], nor [-->], and
    running it again changes nothing. *)
Theorem s_cdo_cdc_leaves_nothing_to_skip (src : str) :
  lstrip (_parse_s_cdo_cdc src) = _parse_s_cdo_cdc src
  /\ startswith (_parse_s_cdo_cdc src) (txt "<!--") = false
  /\ startswith (_parse_s_cdo_cdc src) (txt "-->") = false
  /\ _parse_s_cdo_cdc (_parse_s_cdo_cdc src) = _parse_s_cdo_cdc src.
Proof.
  destruct (@_parse_s_cdo_cdc_while_exit (length src) src (le_n _))
    as (H1 & H2 & H3).
  fold (_parse_s_cdo_cdc src) in H1, H2, H3.
  repeat split; try assumption.
  generalize dependent (_parse_s_cdo_cdc src). intros r H1 H2 H3.
  unfold _parse_s_cdo_cdc.
  destruct (length r); cbn [_parse_s_cdo_cdc_while]; rewrite H1;
    [reflexivity|].
  now rewrite H2, H3.
Qed.

(** ** Quoted strings and URIs under Python 3 *)

Lemma string1_needs_double_quote (R : Type) (s : str) (c : Re.caps)
      (k : str -> Re.caps -> option R) :
  Re.run true Pat.i_string1 (39%N :: s) c k = None.
Proof. reflexivity. Qed.

Lemma string2_binds_group_2 (R : Type) (s : str) (c : Re.caps)
      (k : str -> Re.caps -> option R) (x : R) :
  Re.run true Pat.i_string2 s c k = Some x ->
  exists s' t, k s' ((2, t) :: c) = Some x.
Proof.
  unfold Pat.i_string2.
  change (Re.Seqs [Re.Chr 39; Re.Grp 2 ?a; Re.Chr 39])
    with (Re.Seq (Re.Chr 39) (Re.Seq (Re.Grp 2 a) (Re.Chr 39))).
  rewrite run_seq. intros H.
  apply run_consumes in H. destruct H as (_ & s1 & c1 & _ & H & G1).
  rewrite G1 in H by reflexivity. rewrite run_seq, run_grp in H.
  apply run_consumes in H. destruct H as (_ & s2 & c2 & _ & H & G2).
  rewrite G2 in H by reflexivity.
  apply run_consumes in H. destruct H as (_ & s3 & c3 & _ & H & G3).
  rewrite G3 in H by reflexivity. eauto.
Qed.

(** X6: under Python 3 the text of a single-quoted string is lost.  The
    pattern's first group is the double-quoted alternative, which took no
    part in the match, and [_get_string] returns it: [None], together with
    the source after the string. *)
Theorem single_quoted_string_is_lost_under_python3 (src : str)
        (c : Re.caps) (rest : str) :
  startswith src (txt "'") = true ->
  Re.rmatch true Pat.re_string src = Some (c, rest) ->
  _get_string true src None = (None, rest).
Proof.
  intros Hq Hm. unfold _get_string. rewrite Hm. f_equal.
  destruct src as [|q s]; [discriminate|].
  cbn [startswith txt String.list_ascii_of_string map] in Hq.
  apply andb_true_iff in Hq as [Hq _]. apply N.eqb_eq in Hq. subst q.
  unfold Re.rmatch, Pat.re_string, Pat.i_string in Hm.
  rewrite run_alt, string1_needs_double_quote in Hm.
  apply string2_binds_group_2 in Hm. destruct Hm as (s' & t & [= <- _]).
  reflexivity.
Qed.

Lemma single_quoted_string_is_lost_witness :
  _get_string true (txt "'Arial', serif") None = (None, txt ", serif").
Proof.
  apply (@single_quoted_string_is_lost_under_python3
           (txt "'Arial', serif") [(2, txt "Arial")] (txt ", serif"));
    vm_compute; reflexivity.
Defined.

Lemma chr_eq_34 (y : char) : Re.chr_eq true 34%N y = true -> y = 34%N.
Proof.
  unfold Re.chr_eq. change (Re.lower 34%N) with 34%N. unfold Re.lower.
  destruct ((65 <=? y) && (y <=? 90))%N eqn:E; intros H;
    apply N.eqb_eq in H; [|now symmetry].
  apply andb_true_iff in E as [E _]. apply N.leb_le in E. lia.
Qed.

Lemma string1_starts_with_double_quote (R : Type) (s : str) (c : Re.caps)
      (k : str -> Re.caps -> option R) (x : R) :
  Re.run true Pat.i_string1 s c k = Some x -> exists s', s = 34%N :: s'.
Proof.
  unfold Pat.i_string1. rewrite run_seqs_cons.
  destruct s as [|y s]; cbn [Re.run]; [discriminate|].
  destruct (Re.chr_eq true 34%N y) eqn:E; [|discriminate].
  apply chr_eq_34 in E. subst y. eauto.
Qed.

(** The first group of the URI pattern is the text between double quotes. *)
Lemma uri_without_double_quotes_has_no_first_group (src : str)
      (c : Re.caps) (rest : str) :
  ~ In 34%N src ->
  Re.rmatch true Pat.re_uri src = Some (c, rest) ->
  Re.group 1 c = None.
Proof.
  intros Hq Hm.
  unfold Re.rmatch, Pat.re_uri, Pat.i_uri in Hm.
  rewrite !run_seqs_cons in Hm.
  apply run_consumes in Hm. destruct Hm as (p1 & s1 & c1 & -> & Hm & G1).
  rewrite G1 in Hm by reflexivity. rewrite run_seqs_cons in Hm.
  apply run_consumes in Hm. destruct Hm as (p2 & s2 & c2 & -> & Hm & G2).
  rewrite G2 in Hm by reflexivity. rewrite run_seqs_cons in Hm.
  assert (Hend : forall s' t i,
             Re.run true (Re.Seqs [Re.Star Re.Space; Re.Chr 41]) s'
                    [(i, t)] (fun s0 c0 => Some (c0, s0)) = Some (c, rest) ->
             c = [(i, t)]).
  { intros s' t i H. apply run_consumes in H.
    destruct H as (_ & s3 & c3 & _ & [= <- _] & G3).
    now apply G3. }
  rewrite run_alt in Hm.
  match type of Hm with
  | match ?e with _ => _ end = _ => destruct e as [x|] eqn:E
  end.
  - injection Hm as ->. unfold Pat.i_string in E. rewrite run_alt in E.
    match type of E with
    | match ?e with _ => _ end = _ => destruct e as [x|] eqn:E1
    end.
    + apply string1_starts_with_double_quote in E1. destruct E1 as [s' ->].
      elim Hq. rewrite !in_app_iff. right. right. now left.
    + apply string2_binds_group_2 in E. destruct E as (s' & t & E).
      apply Hend in E. now subst c.
  - rewrite run_grp in Hm.
    apply run_consumes in Hm. destruct Hm as (_ & s3 & c3 & _ & Hm & G3).
    rewrite G3 in Hm by reflexivity. apply Hend in Hm. now subst c.
Qed.

(** X7: under Python 3 a URI is delivered only when it is written in double
    quotes.  For [url(x)] and [url('x')] the first group of the pattern took
    no part in the match, and [_get_string] returns [None] together with the
    source after the URI. *)
Theorem uri_without_double_quotes_is_lost_under_python3 (src : str)
        (c : Re.caps) (rest : str) :
  ~ In 34%N src ->
  Re.rmatch true Pat.re_uri src = Some (c, rest) ->
  _get_string true src (Some Pat.re_uri) = (None, rest).
Proof.
  intros Hq Hm. unfold _get_string. rewrite Hm. f_equal.
  exact (@uri_without_double_quotes_has_no_first_group src c rest Hq Hm).
Qed.

Lemma uri_without_double_quotes_is_lost_witness :
  _get_string true (txt "url(logo.png) no-repeat") (Some Pat.re_uri)
  = (None, txt " no-repeat").
Proof.
  apply (@uri_without_double_quotes_is_lost_under_python3
           (txt "url(logo.png) no-repeat") [(3, txt "logo.png")]
           (txt " no-repeat")).
  - vm_compute. intuition discriminate.
  - vm_compute. reflexivity.
Defined.

(** ** Unicode ranges *)

Lemma chr_eq_U (y : char) :
  Re.chr_eq true 85%N y = true -> y = 85%N \/ y = 117%N.
Proof.
  unfold Re.chr_eq. change (Re.lower 85%N) with 117%N. unfold Re.lower.
  destruct ((65 <=? y) && (y <=? 90))%N eqn:E; intros H;
    apply N.eqb_eq in H; lia.
Qed.

Lemma chr_eq_plus (y : char) : Re.chr_eq true 43%N y = true -> y = 43%N.
Proof.
  unfold Re.chr_eq. change (Re.lower 43%N) with 43%N. unfold Re.lower.
  destruct ((65 <=? y) && (y <=? 90))%N eqn:E; intros H;
    apply N.eqb_eq in H; [|now symmetry].
  apply andb_true_iff in E as [E _]. apply N.leb_le in E. lia.
Qed.

Lemma unicode_range_prefix (src : str) :
  Re.rmatch true Pat.re_unicoderange src <> None ->
  exists (u : char) (rest : str),
    src = u :: 43%N :: rest /\ (u = 85%N \/ u = 117%N).
Proof.
  unfold Re.rmatch, Pat.re_unicoderange, Pat.i_unicoderange,
    Pat.i_unicoderange1.
  rewrite run_seqs_cons. unfold Re.Lit.
  change (map Re.Chr (txt "U+")) with [Re.Chr 85; Re.Chr 43].
  rewrite run_seqs_cons.
  destruct src as [|u s]; cbn [Re.run]; [congruence|].
  destruct (Re.chr_eq true 85%N u) eqn:Eu; [|congruence].
  destruct s as [|p rest]; [cbn [Re.Seqs Re.run]; congruence|].
  change (Re.Seqs [Re.Chr 43]) with (Re.Chr 43). cbn [Re.run].
  destruct (Re.chr_eq true 43%N p) eqn:Ep; [|congruence].
  intros _. apply chr_eq_plus in Ep. apply chr_eq_U in Eu. subst p. eauto.
Qed.

Lemma before_unicode_range (u : char) (rest : str) :
  u = 85%N \/ u = 117%N ->
  Re.rmatch true Pat.re_num (u :: 43%N :: rest) = None
  /\ Re.rmatch true Pat.re_uri (u :: 43%N :: rest) = None
  /\ Re.rmatch true Pat.re_string (u :: 43%N :: rest) = None
  /\ Re.rmatch true Pat.re_functionterm (u :: 43%N :: rest) = None
  /\ Re.rmatch true Pat.re_rgbcolor (u :: 43%N :: rest) = None.
Proof. intros [-> | ->]; repeat split; reflexivity. Qed.

(** X8: a unicode range never becomes a term.  Its pattern has no group, so
    [_get_match_result] raises [IndexError] at [result.group(1)] wherever the
    pattern matches; the kinds tried before it do not match such a source,
    and [term_unicode_range] is never reached. *)
Theorem unicode_range_term_raises_IndexError (py3 : bool) (B : Type)
        (css_builder : builder B) (self : Self B) (src : str) (w : world B) :
  Re.rmatch true Pat.re_unicoderange src <> None ->
  _parse_expression_term py3 css_builder self src w = (Raise IndexError, w).
Proof.
  intros Hm. destruct (@unicode_range_prefix src Hm) as (u & rest & -> & Hu).
  destruct (@before_unicode_range u rest Hu) as (H1 & H2 & H3 & H4 & H5).
  unfold _parse_expression_term, _get_match_result, _get_string.
  rewrite H1. unfold bind at 1. cbn [ret]. rewrite H2, H3, H4.
  unfold bind at 1. cbn [ret]. rewrite H5. unfold bind at 1. cbn [ret].
  destruct (Re.rmatch true Pat.re_unicoderange (u :: 43%N :: rest))
    as [[c r]|]; [reflexivity|contradiction].
Qed.

Lemma unicode_range_term_raises_witness :
  _parse_expression_term true recorder (self_at true recorder 3)
                         (txt "U+0041-005A;") (start 0%N)
  = (Raise IndexError, start 0%N).
Proof.
  apply unicode_range_term_raises_IndexError. vm_compute. discriminate.
Defined.

(** ** The entry points *)

Lemma avoids_finally {B A C} (bad : Hook.t -> bool) (m : M B A) (f : M B C) :
  avoids bad m -> avoids bad f -> avoids bad (finally m f).
Proof.
  intros Hm Hf w. unfold finally. destruct (Hm w) as (a1 & E1 & F1).
  destruct (m w) as [o w1]; cbn [snd] in E1.
  destruct (Hf w1) as (a2 & E2 & F2).
  assert (Hboth : Forall (fun c => bad (fst c) = false) (a2 ++ a1))
    by (apply Forall_app; auto).
  destruct (f w1) as [[v|e|] w2]; cbn [snd] in E2;
    destruct o; cbn [snd];
    first [exists a1; split; [assumption|assumption]
          |exists (a2 ++ a1); rewrite E2, E1, app_assoc; split;
           [reflexivity|assumption]].
Qed.

Lemma invoked_not_unreachable (h : Hook.t) :
  invoked h = true -> unreachable h = false.
Proof. destruct h; (reflexivity || discriminate). Qed.

(** X9: no run of an entry point invokes [set_charset] or
    [term_unicode_range], whatever the source and the builder, and however
    the run ends: nothing calls the former ([@charset] is reported through
    [at_charset]) and the latter stands behind a pattern without a group. *)
Theorem entry_points_never_invoke_set_charset_or_term_unicode_range
        (py3 : bool) (B : Type) (css_builder : builder B)
        (cleanup_css : str -> str) (fuel : nat) (data : source) (src : str)
        (attributes : option (list (str * str)))
        (kwAttributes : list (str * str)) :
  avoids unreachable (parse py3 css_builder cleanup_css fuel data)
  /\ avoids unreachable (parse_inline py3 css_builder fuel src)
  /\ avoids unreachable
            (parse_attributes py3 css_builder fuel attributes kwAttributes).
Proof.
  split; [|split]; (apply avoids_bind; [now apply avoids_invoke|intros _]);
    [apply avoids_bind;
     [destruct data as [s|b];
      [apply avoids_ret|destruct (decode py3 b); [apply avoids_ret|]];
      exact (avoids_raise unreachable UnicodeDecodeError)
     |intros text]|..];
    (apply avoids_finally; [|now apply avoids_invoke]).
  - apply avoids_parse_body. exact invoked_not_unreachable.
  - apply avoids_parse_inline_body;
      [exact invoked_not_unreachable|reflexivity].
  - apply avoids_parse_attributes_body;
      [exact invoked_not_unreachable|reflexivity].
Qed.

Lemma invoke_raises (B : Type) (css_builder : builder B) (h : Hook.t)
      (args : list pyval) (w w' : world B) (e : CSSParseError.t) :
  raises_no_ParseError css_builder h ->
  invoke css_builder h args w <> (Raise (ParseError e), w').
Proof.
  intros Hh. unfold invoke.
  destruct (css_builder h args (bstate w)) as [[v|x] st] eqn:E;
    [discriminate|].
  intros [= -> <-]. exact (Hh _ _ _ _ E).
Qed.

(** A parse error that leaves [opening; try: body; finally: closing] was
    raised by the body. *)
Lemma finally_raises (B A : Type) (css_builder : builder B)
      (opening closing : Hook.t) (body : M B A) (w w' : world B)
      (e : CSSParseError.t) :
  raises_no_ParseError css_builder opening ->
  raises_no_ParseError css_builder closing ->
  (invoke css_builder opening [] ;;;
   finally body (invoke css_builder closing [])) w
  = (Raise (ParseError e), w') ->
  exists w1 w2, body w1 = (Raise (ParseError e), w2).
Proof.
  intros Ho Hc. unfold bind.
  destruct (invoke css_builder opening [] w) as [[v|x|] w1] eqn:E1;
    [| |discriminate].
  - unfold finally. destruct (body w1) as [o w2] eqn:E2.
    destruct (invoke css_builder closing [] w2) as [[v'|x'|] w3] eqn:E3.
    + destruct o; intros [= <- <-]; eauto.
    + destruct o; intros [= -> <-]; now apply invoke_raises in E3.
    + destruct o; discriminate.
  - intros [= -> <-]. now apply invoke_raises in E1.
Qed.

(** A parse error that leaves [try: m except ParseError as err:
    err.setFullCSSSource(full, inl); raise], followed by code that raises
    none, carries [full]. *)
Lemma reraised_with_full_source (B A C : Type) (m : M B A) (f : A -> M B C)
      (full : str) (inl : bool) (w w' : world B) (e : CSSParseError.t) :
  (forall a w1 w2 x, f a w1 <> (Raise (ParseError x), w2)) ->
  (a <- except_ParseError
          m (fun err =>
               raise (ParseError (CSSParseError.setFullCSSSource err full inl))) ;;
   f a) w = (Raise (ParseError e), w') ->
  exists err, e = CSSParseError.setFullCSSSource err full inl.
Proof.
  intros Hf. unfold bind, except_ParseError.
  destruct (m w) as [[a|[err| | | | | |]|] w1]; try discriminate.
  - intros H. now apply Hf in H.
  - intros [= <- _]. eauto.
Qed.

(** X10: a parse error that leaves [parse] carries the whole source, as
    [cleanup_css] returned it, provided the two lifecycle hooks raise no
    parse error of their own. *)
Theorem parse_error_carries_the_full_source (py3 : bool) (B : Type)
        (css_builder : builder B) (cleanup_css : str -> str) (fuel : nat)
        (src : str) (w w' : world B) (e : CSSParseError.t) :
  raises_no_ParseError css_builder Hook.begin_stylesheet ->
  raises_no_ParseError css_builder Hook.end_stylesheet ->
  parse py3 css_builder cleanup_css fuel src w = (Raise (ParseError e), w') ->
  CSSParseError.fullsrc e = Some (cleanup_css src).
Proof.
  intros Hb He H. unfold parse in H.
  apply finally_raises in H; [|assumption..]. destruct H as (w1 & w2 & H).
  cbv zeta in H. apply reraised_with_full_source in H.
  - destruct H as [err ->]. reflexivity.
  - intros [s v] ? ? ?. discriminate.
Qed.

Lemma recorder_raises_no_ParseError (h : Hook.t) :
  lifecycle h = true \/ h = Hook.inline -> raises_no_ParseError recorder h.
Proof.
  intros [H| ->] args st e st'; [destruct h; try discriminate H|];
    cbn; discriminate.
Qed.

Lemma parse_error_carries_the_full_source_witness :
  exists e w',
    parse true recorder no_cleanup 9 (txt "a { b: c") (start 0%N)
    = (Raise (ParseError e), w')
    /\ CSSParseError.fullsrc e = Some (no_cleanup (txt "a { b: c")).
Proof.
  eexists _, _. split; [vm_compute; reflexivity|].
  eapply (@parse_error_carries_the_full_source
            true N recorder no_cleanup 9 (txt "a { b: c") (start 0%N)).
  - apply recorder_raises_no_ParseError. now left.
  - apply recorder_raises_no_ParseError. now left.
  - vm_compute. reflexivity.
Defined.

(** X11: a parse error that leaves [parse_inline] carries the source as it
    was given, white space at its ends included, and is marked inline,
    provided [begin_inline], [inline] and [end_inline] raise no parse error
    of their own. *)
Theorem parse_inline_error_is_marked_inline (py3 : bool) (B : Type)
        (css_builder : builder B) (fuel : nat) (src : str) (w w' : world B)
        (e : CSSParseError.t) :
  raises_no_ParseError css_builder Hook.begin_inline ->
  raises_no_ParseError css_builder Hook.inline ->
  raises_no_ParseError css_builder Hook.end_inline ->
  parse_inline py3 css_builder fuel src w = (Raise (ParseError e), w') ->
  CSSParseError.fullsrc e = Some src /\ CSSParseError.inline e = true.
Proof.
  intros Hb Hi He H. unfold parse_inline in H.
  apply finally_raises in H; [|assumption..]. destruct H as (w1 & w2 & H).
  apply reraised_with_full_source in H.
  - destruct H as [err ->]. split; reflexivity.
  - intros [s v] ? ? ?. now apply invoke_raises.
Qed.

Lemma parse_inline_error_is_marked_inline_witness :
  exists e w',
    parse_inline true recorder 9 (txt " a: f(x; ") (start 0%N)
    = (Raise (ParseError e), w')
    /\ CSSParseError.fullsrc e = Some (txt " a: f(x; ")
    /\ CSSParseError.inline e = true.
Proof.
  eexists _, _. split; [vm_compute; reflexivity|].
  eapply (@parse_inline_error_is_marked_inline
            true N recorder 9 (txt " a: f(x; ") (start 0%N)).
  - apply recorder_raises_no_ParseError. now left.
  - apply recorder_raises_no_ParseError. now right.
  - apply recorder_raises_no_ParseError. now left.
  - vm_compute. reflexivity.
Defined.

(** X12: a style attribute that is empty or blank yields the inline
    declaration of no property: [parse_inline] invokes [begin_inline],
    [inline] with the empty list and [end_inline], and nothing else. *)
Theorem parse_inline_of_a_blank_source (py3 : bool) (B : Type)
        (css_builder : builder B) (fuel : nat) (src : str) (w : world B) :
  strip src = [] ->
  parse_inline py3 css_builder fuel src w
  = (invoke css_builder Hook.begin_inline [] ;;;
     finally (invoke css_builder Hook.inline [PList []])
             (invoke css_builder Hook.end_inline [])) w.
Proof.
  intros Hs. unfold parse_inline. rewrite Hs.
  assert (E : forall w1 : world B,
             _parse_declaration_group py3 css_builder fuel
                                      (self_at py3 css_builder fuel) [] false w1
             = (Ret ([], []), w1)) by (destruct fuel; reflexivity).
  unfold bind at 1 3.
  destruct (invoke css_builder Hook.begin_inline [] w) as [[v|e|] w1];
    [|reflexivity..].
  unfold finally, bind, except_ParseError. rewrite E. reflexivity.
Qed.

Lemma parse_inline_of_a_blank_source_witness :
  parse_inline true recorder 3 (txt "  ") (start 0%N)
  = (invoke recorder Hook.begin_inline [] ;;;
     finally (invoke recorder Hook.inline [PList []])
             (invoke recorder Hook.end_inline [])) (start 0%N).
Proof. apply parse_inline_of_a_blank_source. reflexivity. Defined.

(** ** Greedy runs of a character class *)

Lemma star_stop (ci : bool) (a : Re.re) (R : Type) (s : str) (c : Re.caps)
      (k : str -> Re.caps -> option R) :
  (forall k' : str -> Re.caps -> option R, Re.run ci a s c k' = None) ->
  Re.run ci (Re.Star a) s c k = k s c.
Proof.
  intros Ha. unfold Re.Star. cbn [Re.run]. cbv beta iota zeta fix.
  destruct (length s); cbn [Nat.eqb]; [reflexivity|]. now rewrite Ha.
Qed.

Lemma plus_step (ci : bool) (a : Re.re) (R : Type) (ch : char) (s : str)
      (c : Re.caps) (k : str -> Re.caps -> option R) :
  (forall k' : str -> Re.caps -> option R,
      Re.run ci a (ch :: s) c k' = k' s c) ->
  Re.run ci (Re.Plus a) (ch :: s) c k = Re.run ci (Re.Star a) s c k.
Proof.
  intros Ha. unfold Re.Plus, Re.Star. cbn [Re.run length].
  cbv beta iota zeta fix. rewrite Ha. cbn [Nat.eqb pred option_map].
  replace (Nat.ltb (length s) (S (length s))) with true
    by (symmetry; apply Nat.ltb_lt; lia).
  match goal with
  | |- match ?e with _ => _ end = _ => now destruct e
  end.
Qed.

Lemma plus_stop (ci : bool) (a : Re.re) (R : Type) (s : str) (c : Re.caps)
      (k : str -> Re.caps -> option R) :
  (forall k' : str -> Re.caps -> option R, Re.run ci a s c k' = None) ->
  Re.run ci (Re.Plus a) s c k = None.
Proof.
  intros Ha. unfold Re.Plus. cbn [Re.run]. cbv beta iota zeta fix.
  destruct (length s); cbn [Nat.eqb]; [reflexivity|]. now rewrite Ha.
Qed.

Lemma star_cls_greedy (rs : list (char * char)) (R : Type)
      (k : str -> Re.caps -> option R) (c : Re.caps) :
  (forall s', k s' c <> None) ->
  forall s,
    Re.run false (Re.Star (Re.Cls false rs)) s c k
    = k (skip_while (Re.in_cls false rs) s) c.
Proof.
  intros Hk. induction s as [|ch s IH]; cbn [skip_while].
  - now apply star_stop.
  - destruct (Re.in_cls false rs ch) eqn:E.
    + rewrite star_step by (intros; cbn [Re.run xorb]; now rewrite E).
      rewrite IH. destruct (k _ c) eqn:Ek; [reflexivity|now apply Hk in Ek].
    + apply star_stop. intros. cbn [Re.run xorb]. now rewrite E.
Qed.

Lemma run_chr_cons (x y : char) (R : Type) (s : str) (c : Re.caps)
      (k : str -> Re.caps -> option R) :
  Re.run false (Re.Chr x) (y :: s) c k
  = if N.eqb x y then k s c else None.
Proof. reflexivity. Qed.

Lemma skip_while_ext (p q : char -> bool) (s : str) :
  (forall c, p c = q c) -> skip_while p s = skip_while q s.
Proof.
  intros H. induction s as [|c s IH]; [reflexivity|].
  cbn [skip_while]. now rewrite H, IH.
Qed.

Lemma skip_while_is_space (s : str) : skip_while is_space s = lstrip s.
Proof.
  induction s as [|c s IH]; [reflexivity|].
  cbn [skip_while lstrip]. now rewrite IH.
Qed.

Lemma bool_eq_iff (a b : bool) : (a = true <-> b = true) -> a = b.
Proof. destruct a, b; intuition congruence. Qed.

Lemma space_class (c : char) :
  Re.in_cls false
            [(9, 13); (28, 32); (133, 133); (160, 160); (5760, 5760);
             (8192, 8202); (8232, 8233); (8239, 8239); (8287, 8287);
             (12288, 12288)]%N c
  = is_space c.
Proof.
  apply bool_eq_iff. unfold Re.in_cls, Re.in_ranges, is_space.
  cbn [existsb fst snd andb].
  rewrite ?orb_true_iff, ?andb_true_iff, ?N.leb_le, ?N.eqb_eq. lia.
Qed.

Lemma at_name_class (c : char) :
  Re.in_cls false [(97, 122); (45, 45)]%N c = is_at_name_char c.
Proof.
  apply bool_eq_iff. unfold Re.in_cls, Re.in_ranges, is_at_name_char.
  cbn [existsb fst snd andb].
  rewrite ?orb_true_iff, ?andb_true_iff, ?N.leb_le, ?N.eqb_eq. lia.
Qed.

(** X13: [strip_at_rule_ident] removes the [@], the longest run of small
    letters and hyphens after it and the white space that follows; a source
    that does not begin with [@] and such a character, a name in capitals
    for one, is returned unchanged. *)
Theorem strip_at_rule_ident_as_described (src : str) :
  strip_at_rule_ident src = strip_at_rule_ident_in_words src.
Proof.
  unfold strip_at_rule_ident, strip_at_rule_ident_in_words, Re.rmatch.
  rewrite !run_seqs_cons.
  destruct src as [|y s]; [reflexivity|].
  rewrite run_chr_cons, (N.eqb_sym 64 y).
  destruct (N.eqb y 64); cbn [andb]; [|now destruct s].
  rewrite run_seqs_cons.
  destruct s as [|n s].
  - now rewrite plus_stop.
  - rewrite <- at_name_class.
    destruct (Re.in_cls false [(97, 122); (45, 45)]%N n) eqn:E.
    + rewrite plus_step by (intros; cbn [Re.run xorb]; now rewrite E).
      rewrite star_cls_greedy.
      * change (Re.Seqs [Re.Star Re.Space]) with (Re.Star Re.Space).
        unfold Re.Space. rewrite star_cls_greedy by discriminate.
        rewrite (skip_while_ext _ is_space _ space_class).
        rewrite skip_while_is_space.
        now rewrite (skip_while_ext _ is_at_name_char _ at_name_class).
      * intros s'. apply star_total. discriminate.
    + rewrite plus_stop; [reflexivity|].
      intros. cbn [Re.run xorb]. now rewrite E.
Qed.

(** ** Inline styles stay clear of rules *)

Section InlineStyles.
Variable py3 : bool.
Variable B : Type.
Variable css_builder : builder B.
Variable bad : Hook.t -> bool.
Hypothesis Hok : forall h, of_inline_styles h = true -> bad h = false.

Ltac inline_step :=
  match goal with
  | |- avoids bad (bind (_get_match_result Pat.re_unicoderange _) _) =>
      apply avoids_unicode_range; intros
  | |- avoids bad (bind _ _) => apply avoids_bind; [|intros]
  | |- avoids bad (ret _) => apply avoids_ret
  | |- avoids bad (raise _) => apply avoids_raise
  | |- avoids bad (raise_ParseError _ _ _) => apply avoids_raise_ParseError
  | |- avoids bad diverge => apply avoids_diverge
  | |- avoids bad (invoke _ _ _) =>
      apply avoids_invoke; apply Hok; reflexivity
  | |- avoids bad (except_ParseError _ _) => apply avoids_except; [|intros]
  | |- avoids bad (unpack_src _) => apply avoids_unpack_src
  | |- avoids bad (_get_match_result _ _) => apply avoids_get_match_result
  | |- avoids bad (_get_ident _) => apply avoids_get_ident
  | |- avoids bad (match ?x with _ => _ end) => destruct x
  | |- avoids bad (if ?x then _ else _) => destruct x
  | |- avoids bad _ => solve [auto]
  end.

Section Productions.
Variable self : Self B.
Hypothesis Hself :
  forall src returnList,
    avoids bad (self_parse_expression self src returnList).

Lemma inline_parse_expression_term (src : str) :
  avoids bad (_parse_expression_term py3 css_builder self src).
Proof. unfold _parse_expression_term. repeat inline_step. Qed.

Lemma inline_parse_expression_while (fuel : nat) :
  forall src term operator,
    avoids bad
           (_parse_expression_while py3 css_builder fuel self src term
                                    operator).
Proof.
  pose proof inline_parse_expression_term.
  induction fuel as [|fuel IH]; intros; cbn [_parse_expression_while];
    repeat inline_step.
Qed.

Lemma inline_parse_expression (fuel : nat) (src : str) (returnList : bool) :
  avoids bad (_parse_expression py3 css_builder fuel self src returnList).
Proof.
  pose proof inline_parse_expression_term.
  pose proof inline_parse_expression_while.
  unfold _parse_expression. repeat inline_step.
Qed.

Lemma inline_parse_declaration_property (fuel : nat) (src : str)
      (n : pyval) :
  avoids bad (_parse_declaration_property py3 css_builder fuel self src n).
Proof.
  pose proof inline_parse_expression.
  unfold _parse_declaration_property. repeat inline_step.
Qed.

Lemma inline_parse_declaration (fuel : nat) (src : str) :
  avoids bad (_parse_declaration py3 css_builder fuel self src).
Proof.
  pose proof inline_parse_declaration_property.
  unfold _parse_declaration. repeat inline_step.
Qed.

Lemma inline_parse_declaration_group_while (fuel : nat) :
  forall src properties,
    avoids bad
           (_parse_declaration_group_while py3 css_builder fuel self src
                                           properties).
Proof.
  pose proof inline_parse_declaration.
  induction fuel as [|fuel IH]; intros;
    cbn [_parse_declaration_group_while]; repeat inline_step.
Qed.

Lemma inline_parse_declaration_group (fuel : nat) (src : str)
      (braces : bool) :
  avoids bad (_parse_declaration_group py3 css_builder fuel self src braces).
Proof.
  pose proof inline_parse_declaration_group_while.
  unfold _parse_declaration_group. repeat inline_step.
Qed.

End Productions.

Lemma inline_self_at (fuel : nat) :
  forall src returnList,
    avoids bad
           (self_parse_expression (self_at py3 css_builder fuel) src
                                  returnList).
Proof.
  induction fuel as [|fuel IH]; intros; cbn [self_at self_parse_expression].
  - apply avoids_diverge.
  - now apply inline_parse_expression.
Qed.

Lemma inline_parse_attributes_for (fuel : nat) :
  forall items properties,
    avoids bad (parse_attributes_for py3 css_builder fuel items properties).
Proof.
  induction items as [|[name src] items IH]; intros properties;
    cbn [parse_attributes_for].
  - apply avoids_ret.
  - apply avoids_bind.
    + apply avoids_except.
      * apply inline_parse_declaration_property. apply inline_self_at.
      * intros e. apply avoids_raise.
    + intros [s p]. apply IH.
Qed.

Lemma inline_entry_points (fuel : nat) (src : str)
      (attributes : option (list (str * str)))
      (kwAttributes : list (str * str)) :
  avoids bad (parse_inline py3 css_builder fuel src)
  /\ avoids bad
            (parse_attributes py3 css_builder fuel attributes kwAttributes).
Proof.
  split; (apply avoids_bind; [apply avoids_invoke; now apply Hok|intros _]);
    (apply avoids_finally; [|apply avoids_invoke; now apply Hok]).
  - apply avoids_bind.
    + apply avoids_except.
      * apply inline_parse_declaration_group. apply inline_self_at.
      * intros e. apply avoids_raise.
    + intros [s v]. apply avoids_invoke. now apply Hok.
  - apply avoids_bind.
    + apply inline_parse_attributes_for.
    + intros v. apply avoids_invoke. now apply Hok.
Qed.

End InlineStyles.

(** X14: parsing an inline style, by [parse_inline] or by
    [parse_attributes], invokes only the hooks of inline styles, properties
    and terms: never one of a stylesheet, a ruleset, a selector or an
    at-rule, whatever the source holds. *)
Theorem inline_styles_invoke_no_rule_hooks (py3 : bool) (B : Type)
        (css_builder : builder B) (fuel : nat) (src : str)
        (attributes : option (list (str * str)))
        (kwAttributes : list (str * str)) :
  avoids (fun h => negb (of_inline_styles h))
         (parse_inline py3 css_builder fuel src)
  /\ avoids (fun h => negb (of_inline_styles h))
            (parse_attributes py3 css_builder fuel attributes kwAttributes).
Proof.
  apply inline_entry_points. intros h H. now rewrite H.
Qed.

(** ** Function terms *)

(** X15: a function term whose arguments run to the end of the source ends
    in [IndexError], not in a parse error: once the name and its bracket are
    matched and the arguments leave nothing, [src[0]] is taken of the empty
    source. *)
Theorem function_term_without_end_raises_IndexError (py3 : bool) (B : Type)
        (css_builder : builder B) (self : Self B) (src rest name : str)
        (c : Re.caps) (params : pyval) (w w1 : world B) :
  Re.rmatch true Pat.re_num src = None ->
  Re.rmatch true Pat.re_uri src = None ->
  Re.rmatch true Pat.re_string src = None ->
  Re.rmatch true Pat.re_functionterm src = Some (c, rest) ->
  Re.group 1 c = Some name ->
  self_parse_expression self rest true w = (Ret ([], params), w1) ->
  _parse_expression_term py3 css_builder self src w = (Raise IndexError, w1).
Proof.
  intros H1 H2 H3 H4 Hn H5.
  unfold _parse_expression_term, _get_match_result, _get_string.
  rewrite H1. unfold bind at 1. cbn [ret]. rewrite H2, H3, H4.
  change (Nat.ltb (Pat.groups_of Pat.re_functionterm) 1) with false.
  cbv iota. unfold bind at 1. cbn [ret]. rewrite Hn.
  unfold bind at 1. rewrite H5. reflexivity.
Qed.

Lemma function_term_without_end_witness :
  _parse_expression_term true recorder (self_at true recorder 5)
                         (txt "rgb(1, 2") (start 0%N)
  = (Raise IndexError,
     snd (self_parse_expression (self_at true recorder 5) (txt "1, 2") true
                                (start 0%N))).
Proof.
  apply (@function_term_without_end_raises_IndexError
           true N recorder (self_at true recorder 5) (txt "rgb(1, 2")
           (txt "1, 2") (txt "rgb") [(1, txt "rgb")] (PObj 2));
    vm_compute; reflexivity.
Defined.

(** ** Sources without rules *)

Lemma s_cdo_cdc_empty_no_at_rule (s : str) (ident : String.string) :
  _parse_s_cdo_cdc s = [] -> is_at_rule_ident s (Re.Lit ident) = false.
Proof.
  rewrite is_at_rule_ident_startswith.
  change (txt "@" ++ txt ident) with (64%N :: txt ident).
  destruct s as [|y s]; [reflexivity|].
  cbn [startswith]. destruct (N.eqb_spec 64 y) as [<-|]; [|reflexivity].
  unfold _parse_s_cdo_cdc. cbn [length _parse_s_cdo_cdc_while].
  change (lstrip (64%N :: s)) with (64%N :: s).
  change (startswith (64%N :: s) (txt "<!--")) with false.
  change (startswith (64%N :: s) (txt "-->")) with false.
  discriminate.
Qed.

(** X16: a source that holds nothing but white space, comments and the
    delimiters [<!--] and [-->] yields the empty stylesheet: [parse] invokes
    [begin_stylesheet], [stylesheet] with no element and no import, and
    [end_stylesheet], and nothing else. *)
Theorem parse_of_a_source_without_rules (py3 : bool) (B : Type)
        (css_builder : builder B) (cleanup_css : str -> str) (fuel : nat)
        (src : str) (w : world B) :
  _parse_s_cdo_cdc (Re.delete_all true Pat.re_comment (cleanup_css src)) = [] ->
  raises_no_ParseError css_builder Hook.stylesheet ->
  parse py3 css_builder cleanup_css fuel src w
  = (invoke css_builder Hook.begin_stylesheet [] ;;;
     finally (invoke css_builder Hook.stylesheet [PList []; PList []])
             (invoke css_builder Hook.end_stylesheet [])) w.
Proof.
  intros Hs Hst. rewrite parse_text. cbv zeta.
  assert (E : forall w1 : world B,
             _parse_stylesheet py3 css_builder fuel
                               (self_at py3 css_builder fuel)
                               (cleanup_css src) w1
             = (stylesheet <- invoke css_builder Hook.stylesheet
                                     [PList []; PList []] ;;
                ret ([], stylesheet)) w1).
  { intros w1. unfold _parse_stylesheet, _parse_at_charset. cbv zeta.
    rewrite (s_cdo_cdc_empty_no_at_rule _ "charset" Hs).
    unfold bind at 1. cbn [ret]. rewrite Hs.
    unfold _parse_at_imports, _parse_at_namespace.
    change (_parse_s_cdo_cdc []) with (@nil char).
    destruct fuel; reflexivity. }
  unfold bind at 1 3.
  destruct (invoke css_builder Hook.begin_stylesheet [] w) as [[v|e|] w1];
    [|reflexivity..].
  unfold finally, bind at 1, except_ParseError. rewrite E.
  unfold bind, ret.
  destruct (invoke css_builder Hook.stylesheet [PList []; PList []] w1)
    as [[v'|[e'| | | | | |]|] w2] eqn:Ei; try reflexivity.
  now apply invoke_raises in Ei.
Qed.

Lemma parse_of_a_source_without_rules_witness :
  parse true recorder no_cleanup 3 (txt " /* none */ <!-- -->") (start 0%N)
  = (invoke recorder Hook.begin_stylesheet [] ;;;
     finally (invoke recorder Hook.stylesheet [PList []; PList []])
             (invoke recorder Hook.end_stylesheet [])) (start 0%N).
Proof.
  apply parse_of_a_source_without_rules.
  - vm_compute. reflexivity.
  - intros args st e st'. cbn. discriminate.
Defined.

(** ** The character after the name of an at-rule *)

Lemma bind_returns_alike {B A C} (m1 m2 : M B A) (f g : A -> M B C)
      (w w' : world B) (a : C) :
  (forall x w1, m1 w = (Ret x, w1) -> m2 w = (Ret x, w1)) ->
  (forall x w1, f x w1 = (Ret a, w') -> g x w1 = (Ret a, w')) ->
  bind m1 f w = (Ret a, w') -> bind m2 g w = (Ret a, w').
Proof.
  intros Hm Hf. unfold bind.
  destruct (m1 w) as [[x|e|] w1] eqn:E; try discriminate.
  rewrite (Hm _ _ eq_refl). apply Hf.
Qed.

Lemma mediums_whatever_the_context (B : Type) (fuel : nat) (c1 c2 : str) :
  forall (src : str) (mediums : list pyval) (w w' : world B)
         (a : str * list pyval),
    _parse_at_media_mediums fuel c1 src mediums w = (Ret a, w') ->
    _parse_at_media_mediums fuel c2 src mediums w = (Ret a, w').
Proof.
  induction fuel as [|fuel IH]; intros src mediums w w' a;
    (destruct src as [|ch s]; cbn [_parse_at_media_mediums]; [exact id|]);
    (destruct (N.eqb ch 123); [exact id|]); [discriminate|].
  apply bind_returns_alike; [auto|].
  intros [[medium|] s'] w1; [|discriminate].
  destruct (str_eqb medium (txt "and")); [exact id|].
  destruct s' as [|ch' s'']; [exact id|]. apply IH.
Qed.

(** X18: the parsers of [@media] and [@page] rules never look at the
    character that follows the name: they cut the source at the length of
    the name and one more character, taken for the space, and what they
    return depends on the source from there on only. *)
Theorem at_rules_drop_the_character_after_their_name (py3 : bool) (B : Type)
        (css_builder : builder B) (fuel : nat) (self : Self B)
        (s1 s2 : str) (w w' : world B) (a : str * pyval) :
  (from 7 s1 = from 7 s2 ->
   _parse_at_media py3 css_builder fuel self s1 w = (Ret a, w') ->
   _parse_at_media py3 css_builder fuel self s2 w = (Ret a, w'))
  /\ (from 6 s1 = from 6 s2 ->
      _parse_at_page py3 css_builder fuel self s1 w = (Ret a, w') ->
      _parse_at_page py3 css_builder fuel self s2 w = (Ret a, w')).
Proof.
  split; intros E.
  - unfold _parse_at_media. cbv zeta. rewrite E.
    apply bind_returns_alike;
      [intros x w1; apply mediums_whatever_the_context|].
    intros [s mediums] w1.
    destruct (negb (startswith s (txt "{"))); [discriminate|].
    apply bind_returns_alike; [auto|].
    intros [s' elements] w2.
    destruct (negb (startswith s' (txt "}"))); [discriminate|exact id].
  - unfold _parse_at_page. cbv zeta. rewrite E.
    apply bind_returns_alike; [auto|]. intros [page s] w1.
    apply bind_returns_alike; [auto|]. intros [[page' pseudo] s'] w2.
    destruct (negb (startswith (lstrip s') (txt "{")));
      [discriminate|exact id].
Qed.

Lemma at_rules_drop_the_character_witness :
  _parse_at_media true recorder 9 (self_at true recorder 9)
                  (txt "@media{print { a { b: c } }") (start 0%N)
  = _parse_at_media true recorder 9 (self_at true recorder 9)
                    (txt "@media print { a { b: c } }") (start 0%N).
Proof.
  match goal with
  | |- ?l = ?r =>
      let v := eval vm_compute in r in
      transitivity v; [|vm_compute; reflexivity]
  end.
  eapply (proj1 (@at_rules_drop_the_character_after_their_name
                   true N recorder 9 (self_at true recorder 9)
                   (txt "@media print { a { b: c } }")
                   (txt "@media{print { a { b: c } }")
                   (start 0%N) _ _));
    vm_compute; reflexivity.
Defined.

(** ** Page bodies that never end *)

Lemma declaration_group_stops_at_once (py3 : bool) (B : Type)
      (css_builder : builder B) (fuel : nat) (self : Self B) (c : char)
      (rest : str) (w : world B) :
  In c (txt ",[]()") ->
  _parse_declaration_group py3 css_builder fuel self (c :: rest) false w
  = (Ret (c :: rest, []), w).
Proof.
  intros H. cbn in H.
  repeat (destruct H as [<-|H]; [destruct fuel; reflexivity|]).
  contradiction.
Qed.

(** X19: the body loop of [_parse_at_page] never ends once the source
    begins with one of [, [ ] ( )]: the declaration group returns at once
    with nothing consumed, the loop runs again on the same source, and no
    number of rounds is enough. *)
Theorem at_page_body_never_ends (py3 : bool) (B : Type)
        (css_builder : builder B) (self : Self B) (c : char) (rest : str)
        (w : world B) :
  In c (txt ",[]()") ->
  forall (fuel : nat) (stylesheet_elements properties : list pyval),
    _parse_at_page_while py3 css_builder fuel self (c :: rest)
                         stylesheet_elements properties w
    = (Diverge, w).
Proof.
  intros H fuel. induction fuel as [|fuel IH]; intros els props.
  - cbn in H.
    repeat (destruct H as [<-|H]; [reflexivity|]). contradiction.
  - assert (E : forall w1 : world B,
               _parse_declaration_group py3 css_builder fuel self
                                        (lstrip (c :: rest)) false w1
               = (Ret (c :: rest, []), w1)).
    { intros w1. replace (lstrip (c :: rest)) with (c :: rest).
      - now apply declaration_group_stops_at_once.
      - cbn in H.
        repeat (destruct H as [<-|H]; [reflexivity|]). contradiction. }
    specialize (IH els (props ++ [])).
    cbn [_parse_at_page_while].
    replace (CSSParseError.nonempty (c :: rest)
             && negb (startswith (c :: rest) (txt "}"))) with true
      by (cbn in H; repeat (destruct H as [<-|H]; [reflexivity|]);
          contradiction).
    replace (startswith (c :: rest) (txt "@")) with false
      by (cbn in H; repeat (destruct H as [<-|H]; [reflexivity|]);
          contradiction).
    unfold bind at 1. unfold bind at 1. rewrite E. unfold ret.
    replace (lstrip (c :: rest)) with (c :: rest)
      by (cbn in H; repeat (destruct H as [<-|H]; [reflexivity|]);
          contradiction).
    exact IH.
Qed.

Lemma at_page_body_never_ends_witness :
  _parse_at_page_while true recorder 9 (self_at true recorder 9)
                       (txt ", }") [] [] (start 0%N)
  = (Diverge, start 0%N).
Proof.
  apply (@at_page_body_never_ends true N recorder (self_at true recorder 9)
                                  44%N (txt " }") (start 0%N)).
  cbn. tauto.
Defined.

Example at_page_with_a_comma_never_ends :
  fst (parse true recorder no_cleanup 40 (txt "@page { margin: 1cm } a, b {}")
             (start 0%N))
  <> Diverge
  /\ fst (parse true recorder no_cleanup 40 (txt "@page { , }") (start 0%N))
     = Diverge.
Proof. split; vm_compute; [discriminate|reflexivity]. Qed.

Lemma star_any_greedy (ci : bool) (R : Type) (k : str -> Re.caps -> option R)
      (c : Re.caps) :
  (forall s', k s' c <> None) ->
  forall s, Re.run ci (Re.Star Re.Any) s c k = k [] c.
Proof.
  intros Hk. induction s as [|ch s IH].
  - now apply star_stop.
  - rewrite star_step by reflexivity. rewrite IH.
    destruct (k [] c) eqn:E; [reflexivity|now apply Hk in E].
Qed.

Lemma run_colons (R : Type) (rest : str) (c : Re.caps)
      (k : str -> Re.caps -> option R) :
  (forall s', k s' c <> None) ->
  Re.run false (Re.Rep 1 (Some 2) (Re.Chr 58)) (58%N :: rest) c k
  = match rest with
    | y :: r => if N.eqb 58%N y then k r c else k rest c
    | [] => k rest c
    end.
Proof.
  intros Hk. cbn [Re.run length]. cbv beta iota zeta fix.
  change (Re.chr_eq false 58%N 58%N) with true. cbv iota.
  replace (Nat.ltb (length rest) (S (length rest))) with true
    by (symmetry; apply Nat.ltb_lt; lia).
  cbn [Nat.eqb pred option_map].
  destruct rest as [|y r]; cbn [length].
  - destruct (k [] c) eqn:E; [reflexivity|now apply Hk in E].
  - unfold Re.chr_eq. destruct (N.eqb 58%N y).
    + replace (Nat.ltb (length r) (S (length r))) with true
        by (symmetry; apply Nat.ltb_lt; lia).
      destruct (length r); cbn [Nat.eqb pred option_map];
        (destruct (k r c) eqn:E; [reflexivity|now apply Hk in E]).
    + destruct (k (y :: r) c) eqn:E; [reflexivity|now apply Hk in E].
Qed.

Lemma pseudo_colons (rest : str) :
  let colons :=
    Re.Seq (Re.Rep 1 (Some 2) (Re.Chr 58)) (Re.Grp 1 (Re.Star Re.Any)) in
  Re.rmatch false colons (58%N :: 58%N :: rest) = Some ([(1, rest)], [])
  /\ (startswith rest (txt ":") = false ->
      Re.rmatch false colons (58%N :: rest) = Some ([(1, rest)], [])).
Proof.
  cbv zeta. unfold Re.rmatch. rewrite !run_seq.
  assert (Hk : forall s' : str,
             Re.run false (Re.Grp 1 (Re.Star Re.Any)) s' []
                    (fun s0 c0 => Some (c0, s0))
             = Some ([(1, s')], [])).
  { intros s'. rewrite run_grp, star_any_greedy by discriminate.
    cbn [length]. now rewrite Nat.sub_0_r, firstn_all. }
  split; [|intros Hc]; rewrite run_colons by (intros s'; now rewrite Hk).
  - change (N.eqb 58 58) with true. cbv iota. apply Hk.
  - destruct rest as [|y r]; [apply Hk|].
    cbn [startswith txt String.list_ascii_of_string map] in Hc.
    change (N_of_ascii ":") with 58%N in Hc.
    destruct (N.eqb 58 y); [now destruct r|apply Hk].
Qed.

(** X20: a pseudo-element written with two colons is read as the
    pseudo-class of the same name: [_parse_selector_pseudo] drops one or
    two colons alike, and what it returns for [::name] is what it returns
    for [:name]. *)
Theorem pseudo_with_two_colons_is_read_as_with_one (py3 : bool) (B : Type)
        (css_builder : builder B) (fuel : nat) (self : Self B) (rest : str)
        (selector : pyval) (w w' : world B) (a : str * pyval) :
  startswith rest (txt ":") = false ->
  _parse_selector_pseudo py3 css_builder fuel self (txt ":" ++ rest)
                         selector w
  = (Ret a, w') ->
  _parse_selector_pseudo py3 css_builder fuel self (txt "::" ++ rest)
                         selector w
  = (Ret a, w').
Proof.
  intros Hc. unfold _parse_selector_pseudo. cbv zeta.
  rewrite (startswith_app (txt ":") rest).
  change (txt "::" ++ rest) with (txt ":" ++ 58%N :: rest).
  rewrite (startswith_app (txt ":") (58%N :: rest)). cbn [negb].
  change (txt ":" ++ 58%N :: rest) with (58%N :: 58%N :: rest).
  change (txt ":" ++ rest) with (58%N :: rest).
  destruct (pseudo_colons rest) as [E2 E1]. cbv zeta in E1, E2.
  rewrite E2, (E1 Hc). cbn [Re.group Nat.eqb].
  apply bind_returns_alike; [auto|].
  intros [[name|] s] w1; [|discriminate].
  destruct (startswith s (txt "(")); [|exact id].
  apply bind_returns_alike; [auto|].
  intros [s' term] w2.
  destruct (negb (startswith s' (txt ")"))); [discriminate|exact id].
Qed.

Lemma pseudo_with_two_colons_witness :
  _parse_selector_pseudo true recorder 5 (self_at true recorder 5)
                         (txt "::first-line {") (PObj 0) (start 1%N)
  = (Ret (txt " {", PObj 0),
     {| bstate := 1%N;
        calls := [(Hook.add_pseudo, [PObj 0; PStr (txt "first-line")])] |}).
Proof.
  apply (@pseudo_with_two_colons_is_read_as_with_one
           true N recorder 5 (self_at true recorder 5) (txt "first-line {"));
    vm_compute; reflexivity.
Defined.

(** ** The star workaround *)

(** X21: a declaration that begins with a star is read with [-nothing-] in
    the place of the star: the declaration yields no property, and the group
    goes on with the source so rewritten, whatever follows the star. *)
Theorem star_declaration_is_renamed (py3 : bool) (B : Type)
        (css_builder : builder B) (fuel : nat) (self : Self B) (rest : str)
        (properties : list pyval) (w : world B) :
  _parse_declaration_group_while py3 css_builder (S fuel) self
                                 (txt "*" ++ rest) properties w
  = _parse_declaration_group_while py3 css_builder fuel self
                                   (txt "-nothing-" ++ rest) properties w.
Proof.
  change (txt "*" ++ rest) with (42%N :: rest).
  cbn [_parse_declaration_group_while].
  change (str_in (first1 (42%N :: rest)) _) with false. cbv iota.
  unfold _parse_declaration, _get_ident, _get_match_result.
  change (Re.rmatch true Pat.re_ident (42%N :: rest)) with
    (@None (Re.caps * str)).
  unfold bind, ret. cbv beta iota.
  change (42%N :: rest) with (txt "*" ++ rest).
  now rewrite startswith_app.
Qed.

(** ** Media queries *)

Lemma ident_is_a_prefix (src id rest : str) :
  match_result Pat.re_ident src = (Some id, rest) -> src = id ++ rest.
Proof.
  unfold match_result, Re.rmatch, Pat.re_ident, Pat.i_ident.
  rewrite run_grp.
  match goal with
  | |- match ?e with _ => _ end = _ -> _ => destruct e as [[c s']|] eqn:E
  end; [|discriminate].
  apply run_consumes in E. destruct E as (p & s1 & c1 & -> & [= <- <-] & _).
  cbn [Re.group Nat.eqb]. rewrite firstn_consumed. now intros [= <- <-].
Qed.

Section EndOfLine.
Variable tail : str.
Hypothesis Htail : tail = [] \/ exists more, tail = 10%N :: more.

Lemma dot_stops_at_tail (R : Type) (c : Re.caps)
      (k' : str -> Re.caps -> option R) :
  Re.run false Re.Dot tail c k' = None.
Proof. destruct Htail as [->|[more ->]]; reflexivity. Qed.

Lemma star_dot_greedy (R : Type) (k : str -> Re.caps -> option R)
      (c : Re.caps) (line : str) :
  (forall s', k s' c <> None) -> ~ In 10%N line ->
  Re.run false (Re.Star Re.Dot) (line ++ tail) c k = k tail c.
Proof.
  intros Hk. induction line as [|ch l IH]; intros Hl; cbn [app].
  - apply star_stop. intros. apply dot_stops_at_tail.
  - rewrite star_step.
    + rewrite IH by (intros H; apply Hl; now right).
      destruct (k tail c) eqn:E; [reflexivity|now apply Hk in E].
    + intros k'. cbn [Re.run].
      destruct (N.eqb_spec ch 10) as [->|]; [|reflexivity].
      elim Hl. now left.
Qed.

Let block : Re.re := Re.Grp 1 (Re.Seq (Re.Chr 123) (Re.Star Re.Dot)).
Let found (s : str) (c : Re.caps) : option (Re.caps * str) :=
  Re.run false block s c (fun s' c' => Some (c', s')).

Lemma block_needs_a_brace (s : str) (c : Re.caps) :
  startswith s (txt "{") = false -> found s c = None.
Proof.
  unfold found, block. rewrite run_grp, run_seq.
  destruct s as [|ch s]; [reflexivity|].
  cbn [startswith txt String.list_ascii_of_string map].
  change (N_of_ascii "{") with 123%N. rewrite run_chr_cons.
  destruct (N.eqb 123 ch); [now destruct s|reflexivity].
Qed.

Lemma block_runs_to_the_tail (line : str) (c : Re.caps) :
  ~ In 10%N line ->
  exists caps, found (123%N :: line ++ tail) c = Some (caps, tail).
Proof.
  intros Hl. unfold found, block. rewrite run_grp, run_seq, run_chr_cons.
  change (N.eqb 123 123) with true. cbv iota.
  rewrite star_dot_greedy by (discriminate || assumption). eauto.
Qed.

Lemma no_brace_no_block (line : str) :
  ~ In 123%N line -> ~ In 10%N line ->
  Re.run false (Re.Star Re.Dot) (line ++ tail) [] found = None.
Proof.
  induction line as [|ch l IH]; intros Hb Hl; cbn [app].
  - rewrite star_stop by (intros; apply dot_stops_at_tail).
    apply block_needs_a_brace.
    destruct Htail as [->|[more ->]]; reflexivity.
  - rewrite star_step.
    + rewrite IH
        by (intros H; first [apply Hb; now right|apply Hl; now right]).
      apply block_needs_a_brace.
      cbn [startswith txt String.list_ascii_of_string map].
      change (N_of_ascii "{") with 123%N.
      destruct (N.eqb_spec 123 ch) as [<-|]; [|reflexivity].
      elim Hb. now left.
    + intros k'. cbn [Re.run].
      destruct (N.eqb_spec ch 10) as [->|]; [|reflexivity].
      elim Hl. now left.
Qed.

Lemma last_brace_block (line : str) :
  In 123%N line -> ~ In 10%N line ->
  exists caps,
    Re.run false (Re.Star Re.Dot) (line ++ tail) [] found = Some (caps, tail).
Proof.
  induction line as [|ch l IH]; intros Hb Hl; [contradiction|]. cbn [app].
  rewrite star_step.
  - destruct (in_dec N.eq_dec 123%N l) as [Hin|Hout].
    + destruct (IH Hin) as [caps E]; [intros H; apply Hl; now right|].
      rewrite E. eauto.
    + rewrite no_brace_no_block;
        [|assumption|intros H; apply Hl; now right].
      destruct Hb as [->|Hb]; [|contradiction].
      apply block_runs_to_the_tail. intros H. apply Hl. now right.
  - intros k'. cbn [Re.run].
    destruct (N.eqb_spec ch 10) as [->|]; [|reflexivity].
    elim Hl. now left.
Qed.

(** X22: after the word [and] in the media list of an [@media] rule, the
    source resumes at the last character of the current line, whatever the
    line holds after its first brace: the block of the rule is found only
    where its opening brace ends the line. *)
Theorem media_query_resumes_at_the_end_of_the_line (B : Type) (fuel : nat)
        (ctxsrc src line : str) (mediums : list pyval) (w : world B) :
  match_result Pat.re_ident src = (Some (txt "and"), line ++ tail) ->
  In 123%N line -> ~ In 10%N line ->
  _parse_at_media_mediums (B:=B) (S fuel) ctxsrc src mediums w
  = (Ret (from (length line - 1) line ++ tail, mediums), w).
Proof.
  intros Hid Hb Hl. pose proof (ident_is_a_prefix _ Hid) as ->.
  destruct (@last_brace_block line Hb Hl) as [caps E].
  change (txt "and" ++ line ++ tail)
    with (97%N :: 110%N :: 100%N :: line ++ tail) in *.
  cbn [_parse_at_media_mediums].
  change (N.eqb 97 123) with false. cbv iota.
  unfold _get_ident. rewrite _get_match_result_ret by (vm_compute; lia).
  rewrite Hid. unfold bind at 1. cbn [ret].
  change (str_eqb (txt "and") (txt "and")) with true. cbv iota.
  unfold Re.rmatch. rewrite run_seq. fold block. fold found. rewrite E.
  unfold ret. do 2 f_equal. f_equal.
  rewrite length_app, Nat.add_sub. unfold from.
  rewrite skipn_app.
  replace (length line - 1 - length line) with 0 by lia. reflexivity.
Qed.

End EndOfLine.

Lemma media_query_resumes_witness :
  _parse_at_media_mediums (B:=N) 5 (txt "@media screen and (a) { b { c: d } }")
                          (txt "and (a) { b { c: d } }")
                          [PStr (txt "screen")] (start 0%N)
  = (Ret (txt "}", [PStr (txt "screen")]), start 0%N).
Proof.
  apply (@media_query_resumes_at_the_end_of_the_line
           [] (or_introl eq_refl) N 4
           (txt "@media screen and (a) { b { c: d } }")
           (txt "and (a) { b { c: d } }") (txt " (a) { b { c: d } }")).
  - vm_compute. reflexivity.
  - vm_compute. tauto.
  - vm_compute. intuition discriminate.
Defined.

Example media_query_on_one_line_is_refused :
  exists e,
    fst (parse true recorder no_cleanup 9
               (txt "@media screen and (a) { b { c: d } }") (start 0%N))
    = Raise (ParseError e)
    /\ CSSParseError.msg e = txt "Ruleset opening '{' not found".
Proof. eexists. split; vm_compute; reflexivity. Qed.

(** ** Rules that begin with a closing character *)

(** X23: a rule that begins with one of [} ] ( ) ;] is refused: the
    selector group is empty, the declaration group finds no opening brace,
    and [_parse_ruleset] raises the parse error of that name on the source
    as it stands; no hook is invoked. *)
Theorem ruleset_at_a_closing_character_is_refused (py3 : bool) (B : Type)
        (css_builder : builder B) (fuel : nat) (self : Self B) (c : char)
        (rest : str) (w : world B) :
  In c (txt "}]();") ->
  _parse_ruleset py3 css_builder fuel self (c :: rest) w
  = raise_ParseError "Declaration group opening '{' not found"
                     (c :: rest) (c :: rest) w.
Proof.
  intros H. cbn in H.
  repeat (destruct H as [<-|H]; [destruct fuel; reflexivity|]).
  contradiction.
Qed.

Lemma ruleset_at_a_closing_character_witness :
  _parse_ruleset true recorder 5 (self_at true recorder 5) (txt "} a { b: c }")
                 (start 0%N)
  = raise_ParseError "Declaration group opening '{' not found"
                     (txt "} a { b: c }") (txt "} a { b: c }") (start 0%N).
Proof.
  apply (@ruleset_at_a_closing_character_is_refused
           true N recorder 5 (self_at true recorder 5) 125%N
           (txt " a { b: c }") (start 0%N)).
  cbn. tauto.
Defined.

(** * The term a URI gives under Python 3 *)

Lemma chr_eq_u (y : char) :
  Re.chr_eq true 117%N y = true -> y = 85%N \/ y = 117%N.
Proof.
  unfold Re.chr_eq. change (Re.lower 117%N) with 117%N. unfold Re.lower.
  destruct ((65 <=? y) && (y <=? 90))%N eqn:E; intros H;
    apply N.eqb_eq in H; lia.
Qed.

Lemma uri_prefix (src : str) :
  Re.rmatch true Pat.re_uri src <> None ->
  exists (u : char) (rest : str), src = u :: rest /\ (u = 85%N \/ u = 117%N).
Proof.
  unfold Re.rmatch, Pat.re_uri, Pat.i_uri.
  rewrite run_seqs_cons. unfold Re.Lit.
  change (map Re.Chr (txt "url(")) with [Re.Chr 117; Re.Chr 114; Re.Chr 108;
                                         Re.Chr 40].
  rewrite run_seqs_cons.
  destruct src as [|u s]; cbn [Re.run]; [congruence|].
  destruct (Re.chr_eq true 117%N u) eqn:Eu; [|congruence].
  intros _. apply chr_eq_u in Eu. eauto.
Qed.

Lemma no_number_at_u (u : char) (rest : str) :
  u = 85%N \/ u = 117%N -> Re.rmatch true Pat.re_num (u :: rest) = None.
Proof. intros [-> | ->]; reflexivity. Qed.

Section DroppedUri.
Variable B : Type.
Variable css_builder : builder B.

(** C1: under Python 3 the kind whose recognizer matches does not always
    produce the term.  Where the URI pattern matches a URI that is not
    written in double quotes, as in [url(x)red], the URI is consumed and
    dropped: [term_uri] is not invoked, the kinds after it are tried on the
    text behind the URI, and the term production answers what it answers for
    that text alone (a text that begins with none of the first four kinds,
    so that the production reads it in the same way on its own). *)
Theorem uri_is_dropped_and_a_later_kind_gives_the_term :
  forall (self : Self B) (src : str) (c : Re.caps) (rest : str) (w : world B),
    ~ In 34%N src ->
    Re.rmatch true Pat.re_uri src = Some (c, rest) ->
    Re.rmatch true Pat.re_num rest = None ->
    Re.rmatch true Pat.re_uri rest = None ->
    Re.rmatch true Pat.re_string rest = None ->
    Re.rmatch true Pat.re_functionterm rest = None ->
    _parse_expression_term true css_builder self src w
    = _parse_expression_term true css_builder self rest w.
Proof.
  intros self src c rest w Hq Hm Hnum Huri Hstr Hfun.
  destruct (@uri_prefix src) as (u & s & -> & Hu); [congruence|].
  pose proof (@uri_without_double_quotes_has_no_first_group _ c rest Hq Hm)
    as Hg.
  assert (H1 : _get_string true (u :: s) (Some Pat.re_uri) = (None, rest)).
  { unfold _get_string. now rewrite Hm, Hg. }
  assert (H2 : _get_string true rest (Some Pat.re_uri) = (None, rest)).
  { unfold _get_string. now rewrite Huri. }
  assert (H3 : _get_string true rest None = (None, rest)).
  { unfold _get_string. now rewrite Hstr. }
  assert (H4 : forall x, Re.rmatch true Pat.re_num x = None ->
                         _get_match_result (B:=B) Pat.re_num x
                         = ret (None, x)).
  { intros x E. unfold _get_match_result. now rewrite E. }
  assert (H5 : _get_match_result (B:=B) Pat.re_functionterm rest
               = ret (None, rest)).
  { unfold _get_match_result. now rewrite Hfun. }
  unfold _parse_expression_term. cbv zeta.
  rewrite (H4 _ (no_number_at_u s Hu)), (H4 _ Hnum), !bind_ret.
  cbv beta iota. rewrite H1, H2. cbv beta iota. rewrite H3. cbv beta iota.
  rewrite H5, !bind_ret. reflexivity.
Qed.

End DroppedUri.

(** C1, witness: [url(x)red] gives the identifier [red]. *)
Lemma uri_is_dropped_witness :
  _parse_expression_term true recorder (self_at true recorder 3)
                         (txt "url(x)red") (start 0%N)
  = (Ret (txt "", PObj 0),
     {| bstate := 1%N;
        calls := [(Hook.term_ident, [PStr (txt "red")])] |}).
Proof.
  rewrite (@uri_is_dropped_and_a_later_kind_gives_the_term
             N recorder (self_at true recorder 3) (txt "url(x)red")
             [(3, txt "x")] (txt "red") (start 0%N));
    try (vm_compute; reflexivity).
  vm_compute. intuition discriminate.
Defined.

(** The same source under Python 2, where [filter] returns the groups that
    matched: the URI is the term. *)
Example uri_is_a_term_under_python2 :
  _parse_expression_term false recorder (self_at false recorder 3)
                         (txt "url(x)red") (start 0%N)
  = (Ret (txt "red", PObj 0),
     {| bstate := 1%N;
        calls := [(Hook.term_uri, [PStr (txt "x")])] |}).
Proof. vm_compute. reflexivity. Qed.

(** * What a production leaves of its source *)

(** ** Ends of a text *)

Lemma suffix_refl (s : str) : suffix_of s s.
Proof. now exists []. Qed.

Lemma suffix_nil (s : str) : suffix_of s [].
Proof. exists s. now rewrite app_nil_r. Qed.

Lemma suffix_trans (a b c : str) (H1 : suffix_of a b) (H2 : suffix_of b c) :
  suffix_of a c.
Proof.
  destruct H1 as [p ->], H2 as [q ->]. exists (p ++ q). now rewrite app_assoc.
Qed.

Lemma suffix_length (a b : str) : suffix_of a b -> length b <= length a.
Proof. intros [p ->]. rewrite length_app. lia. Qed.

(** An end of [p ++ r] that is no longer than [r] is an end of [r]. *)
Lemma suffix_behind (p r s : str) :
  suffix_of (p ++ r) s -> length s <= length r -> suffix_of r s.
Proof.
  intros [q E] L.
  assert (Hl : length p <= length q).
  { apply (f_equal (@length char)) in E. rewrite !length_app in E. lia. }
  exists (skipn (length p) q).
  apply (f_equal (skipn (length p))) in E.
  rewrite skipn_app, Nat.sub_diag, skipn_all in E. cbn [skipn app] in E.
  rewrite E, skipn_app.
  replace (length p - length q) with 0 by lia. reflexivity.
Qed.

Lemma suffix_from (n : nat) (s : str) : suffix_of s (from n s).
Proof. exists (firstn n s). unfold from. now rewrite firstn_skipn. Qed.

Lemma suffix_lstrip (s : str) : suffix_of s (lstrip s).
Proof.
  induction s as [|c s IH]; cbn [lstrip]; [apply suffix_refl|].
  destruct (is_space c); [|apply suffix_refl].
  destruct IH as [p E]. exists (c :: p). cbn [app]. now rewrite <- E.
Qed.

Lemma suffix_skip_to_delimiter (s : str) : suffix_of s (skip_to_delimiter s).
Proof.
  induction s as [|c s IH]; cbn [skip_to_delimiter]; [apply suffix_refl|].
  destruct (str_in _ _); [apply suffix_refl|].
  destruct IH as [p E]. exists (c :: p). cbn [app]. now rewrite <- E.
Qed.

Lemma suffix_s_cdo_cdc_while (n : nat) :
  forall s, suffix_of s (_parse_s_cdo_cdc_while n s).
Proof.
  induction n as [|n IH]; intros s; cbn [_parse_s_cdo_cdc_while];
    [apply suffix_lstrip|].
  destruct (startswith _ _).
  - eapply suffix_trans; [apply suffix_lstrip|].
    eapply suffix_trans; [apply (suffix_from 4)|apply IH].
  - destruct (startswith _ _); [|apply suffix_lstrip].
    eapply suffix_trans; [apply suffix_lstrip|].
    eapply suffix_trans; [apply (suffix_from 3)|apply IH].
Qed.

Lemma suffix_s_cdo_cdc (s : str) : suffix_of s (_parse_s_cdo_cdc s).
Proof. apply suffix_s_cdo_cdc_while. Qed.

Lemma suffix_rmatch (ci : bool) (r : Re.re) (s : str) (c : Re.caps)
      (rest : str) (H : Re.rmatch ci r s = Some (c, rest)) :
  suffix_of s rest.
Proof.
  unfold Re.rmatch in H. apply run_consumes in H.
  destruct H as (p & s' & c' & -> & [= _ <-] & _). now exists p.
Qed.

Lemma suffix_strip_at_rule_ident (s : str) :
  suffix_of s (strip_at_rule_ident s).
Proof.
  unfold strip_at_rule_ident.
  destruct (Re.rmatch false _ s) as [[c rest]|] eqn:E; [|apply suffix_refl].
  exact (@suffix_rmatch _ _ _ _ _ E).
Qed.

Lemma suffix_get_string (py3 : bool) (src : str) (r : option Re.re) :
  suffix_of src (snd (_get_string py3 src r)).
Proof.
  unfold _get_string.
  destruct (Re.rmatch true _ src) as [[c rest]|] eqn:E;
    [|apply suffix_refl].
  apply suffix_rmatch in E.
  destruct py3; [exact E|]. destruct (first_true_group _ _ _); exact E.
Qed.

Lemma suffix_get_string_or_uri (py3 : bool) (src : str) :
  suffix_of src (snd (_get_string_or_uri py3 src)).
Proof.
  unfold _get_string_or_uri.
  pose proof (suffix_get_string py3 src (Some Pat.re_uri)) as H1.
  destruct (_get_string py3 src (Some Pat.re_uri)) as [[r|] s]; cbn [snd] in *;
    [exact H1|].
  eapply suffix_trans; [exact H1|apply suffix_get_string].
Qed.

Lemma suffix_get_string_returned (py3 : bool) (src : str) (r : option Re.re)
      (v : option str) (s : str) (E : _get_string py3 src r = (v, s)) :
  suffix_of src s.
Proof. pose proof (suffix_get_string py3 src r) as H.
       rewrite E in H. exact H. Qed.

Lemma suffix_get_string_or_uri_returned (py3 : bool) (src : str)
      (v : option str) (s : str) (E : _get_string_or_uri py3 src = (v, s)) :
  suffix_of src s.
Proof. pose proof (suffix_get_string_or_uri py3 src) as H.
       rewrite E in H. exact H. Qed.

(** What follows the colons of a pseudo-class is an end of the source. *)
Lemma suffix_pseudo (src : str) (c : Re.caps) (rest g : str) :
  startswith src (txt ":") = true ->
  Re.rmatch false
    (Re.Seq (Re.Rep 1 (Some 2) (Re.Chr 58)) (Re.Grp 1 (Re.Star Re.Any))) src
  = Some (c, rest) ->
  Re.group 1 c = Some g ->
  suffix_of src g /\ length g < length src.
Proof.
  intros Hs Hm Hg. destruct src as [|x s]; [discriminate|].
  cbn [startswith txt String.list_ascii_of_string map] in Hs.
  change (N_of_ascii ":") with 58%N in Hs.
  apply andb_true_iff in Hs as [Hx _]. apply N.eqb_eq in Hx. subst x.
  destruct (pseudo_colons s) as [_ H1].
  destruct (startswith s (txt ":")) eqn:E.
  - destruct s as [|y r]; [discriminate|].
    cbn [startswith txt String.list_ascii_of_string map] in E.
    change (N_of_ascii ":") with 58%N in E.
    apply andb_true_iff in E as [Hy _]. apply N.eqb_eq in Hy. subst y.
    destruct (pseudo_colons r) as [H2 _]. cbv zeta in H2.
    pose proof (eq_trans (eq_sym Hm) H2) as E2. injection E2 as -> ->.
    cbn in Hg. injection Hg as <-.
    split; [now exists [58%N; 58%N]|cbn [length]; lia].
  - cbv zeta in H1.
    pose proof (eq_trans (eq_sym Hm) (H1 eq_refl)) as E2.
    injection E2 as -> ->. cbn in Hg. injection Hg as <-.
    split; [now exists [58%N]|cbn [length]; lia].
Qed.

Section SuffixPost.
Variable B : Type.

Lemma spost_get_match_result (r : Re.re) (src : str) :
  post (fun a => suffix_of src (snd a)) (_get_match_result (B:=B) r src).
Proof.
  unfold _get_match_result.
  destruct (Re.rmatch true r src) as [[c rest]|] eqn:E.
  - apply suffix_rmatch in E. destruct (Nat.ltb _ _).
    + apply post_raise.
    + apply post_ret. exact E.
  - apply post_ret. apply suffix_refl.
Qed.

Lemma spost_get_ident (src : str) :
  post (fun a => suffix_of src (snd a)) (_get_ident (B:=B) src).
Proof. apply spost_get_match_result. Qed.

End SuffixPost.

Lemma suffix_step (src a b : str) (H1 : suffix_of a b) :
  suffix_of src a -> suffix_of src b.
Proof. intros H2. exact (suffix_trans H2 H1). Qed.

Ltac suf_hyps :=
  repeat match goal with
         | H : ?p = (_, _) |- _ => is_var p; subst p
         end.

(** A remainder is an end of the source when it was cut from one. *)
Ltac suf_step :=
  first
    [ apply suffix_refl
    | assumption
    | apply suffix_nil
    | match goal with
      | |- suffix_of _ (lstrip ?s) => apply (suffix_step (suffix_lstrip s))
      | |- suffix_of _ (from ?n ?s) => apply (suffix_step (suffix_from n s))
      | |- suffix_of _ (skip_to_delimiter ?s) =>
          apply (suffix_step (suffix_skip_to_delimiter s))
      | |- suffix_of _ (_parse_s_cdo_cdc ?s) =>
          apply (suffix_step (suffix_s_cdo_cdc s))
      | |- suffix_of _ (strip_at_rule_ident ?s) =>
          apply (suffix_step (suffix_strip_at_rule_ident s))
      | |- suffix_of _ (snd (_get_string ?p ?s ?r)) =>
          apply (suffix_step (suffix_get_string p s r))
      | |- suffix_of _ (snd (_get_string_or_uri ?p ?s)) =>
          apply (suffix_step (suffix_get_string_or_uri p s))
      | H : suffix_of ?y ?x |- suffix_of _ ?x => apply (suffix_step H)
      | H : Re.rmatch _ _ ?y = Some (_, ?x) |- suffix_of _ ?x =>
          apply (suffix_step (@suffix_rmatch _ _ _ _ _ H))
      | H : _get_string _ ?y _ = (_, ?x) |- suffix_of _ ?x =>
          apply (suffix_step (@suffix_get_string_returned _ _ _ _ _ H))
      | H : _get_string_or_uri _ ?y = (_, ?x) |- suffix_of _ ?x =>
          apply (suffix_step (@suffix_get_string_or_uri_returned _ _ _ _ H))
      end ].

Ltac suf := cbn [fst snd] in *; suf_hyps; solve [repeat suf_step].

Ltac spost_sub :=
  lazymatch goal with
  | |- post _ (_get_match_result _ _) => apply spost_get_match_result
  | |- post _ (_get_ident _) => apply spost_get_ident
  | |- post _ (invoke _ _ _) => apply post_any
  | |- post _ (invoke_on _ _ _ _) => apply post_any
  | |- post _ (extend _ _ _) => apply post_any
  | |- post _ (str_add _ _) => apply post_any
  | H : Self_leaves_suffixes ?self
    |- post _ (self_parse_expression ?self _ _) => apply (proj1 H)
  | H : Self_leaves_suffixes ?self
    |- post _ (self_parse_at_keyword ?self _) => apply (proj1 (proj2 H))
  | H : Self_leaves_suffixes ?self
    |- post _ (self_parse_stylesheet ?self _) => apply (proj2 (proj2 H))
  | |- _ => solve [eauto]
  end.

Ltac spost_step :=
  lazymatch goal with
  | |- post _ (ret _) => apply post_ret; suf
  | |- post _ (raise _) => apply post_raise
  | |- post _ (raise_ParseError _ _ _) => apply post_raise
  | |- post _ diverge => apply post_diverge
  | |- post _ (bind (ret _) _) => apply post_bind_ret; cbv beta
  | |- post _ (bind (raise _) _) => apply post_raise
  | |- post _ (bind (raise_ParseError _ _ _) _) => apply post_raise
  | |- post _ (bind (except_ParseError _ _) _) =>
      apply post_bind_except; [|intros]
  | |- post _ (bind (bind _ _) _) =>
      apply post_assoc
  | |- post _ (bind (if ?c then _ else _) _) => destruct c eqn:?
  | |- post _ (bind (match ?x with _ => _ end) _) => destruct x eqn:?
  | |- post _ (bind _ _) =>
      eapply post_bind; [spost_sub|cbv beta; intros; cbn [fst snd] in *]
  | |- post _ (except_ParseError _ _) => apply post_except; [|intros]
  | |- post _ (match _get_string ?p ?s ?r with _ => _ end) =>
      let H := fresh "Hsuf" in
      pose proof (suffix_get_string p s r) as H;
      destruct (_get_string p s r); cbn [snd] in H
  | |- post _ (match _get_string_or_uri ?p ?s with _ => _ end) =>
      let H := fresh "Hsuf" in
      pose proof (suffix_get_string_or_uri p s) as H;
      destruct (_get_string_or_uri p s); cbn [snd] in H
  | |- post _ (match (match ?y with _ => _ end) with _ => _ end) =>
      destruct y eqn:?
  | |- post _ (match (if ?y then _ else _) with _ => _ end) =>
      destruct y eqn:?
  | |- post _ (if ?c then _ else _) => destruct c eqn:?
  | |- post _ (match ?x with _ => _ end) => destruct x eqn:?; cbn [fst snd] in *
  | |- post _ ?m =>
      first
        [ match m with
          | context [if ?c then _ else _] => destruct c eqn:?
          | context [match ?c with Some _ => _ | None => _ end] =>
              destruct c eqn:?
          end
        | eapply post_weaken;
          [spost_sub|cbv beta; intros; cbn [fst snd] in *; suf] ]
  end.

Ltac spost_auto := cbv zeta; repeat spost_step.

Section Suffixes.
Variable py3 : bool.
Variable B : Type.
Variable css_builder : builder B.
Hypothesis Hhooks : hooks_hand_back_suffixes css_builder.
Variable self : Self B.
Hypothesis Hself : Self_leaves_suffixes self.

Lemma spost_unpacked (h : Hook.t) (args : list pyval) (src : str) :
  (forall st v st' s,
      css_builder h args st = (Ok v, st') ->
      returned_source v = Some s -> suffix_of src s) ->
  post (fun a => suffix_of src (fst a))
       (r <- invoke css_builder h args ;; unpack_src r).
Proof.
  intros H w a w' E. unfold bind, invoke in E.
  destruct (css_builder h args (bstate w)) as [[v|e] st] eqn:Eh;
    [|discriminate].
  specialize (H _ _ _ (fst a) Eh).
  destruct v as [| |s|l|l|o|]; try discriminate;
    destruct l as [|[| |s|?|?|?|] [|r [|? ?]]]; try discriminate;
    injection E as <- <-; apply H; reflexivity.
Qed.

Lemma suffix_parse_expression_term (src : str) :
  post (fun a => suffix_of src (fst a))
       (_parse_expression_term py3 css_builder self src).
Proof.
  unfold _parse_expression_term. cbv zeta.
  repeat lazymatch goal with
         | |- post _ (bind (invoke _ Hook.term_unknown _) _) =>
             eapply post_weaken;
             [apply spost_unpacked; intros; eapply (proj1 Hhooks); eassumption
             |cbv beta; intros; suf]
         | |- _ => spost_step
         end.
Qed.

Lemma suffix_parse_expression_while (fuel : nat) :
  forall src term operator,
    post (fun a => suffix_of src (fst (fst a)))
         (_parse_expression_while py3 css_builder fuel self src term operator).
Proof.
  pose proof suffix_parse_expression_term.
  induction fuel as [|fuel IH]; intros; cbn [_parse_expression_while];
    spost_auto.
Qed.

Lemma suffix_parse_expression (fuel : nat) (src : str) (returnList : bool) :
  post (fun a => suffix_of src (fst a))
       (_parse_expression py3 css_builder fuel self src returnList).
Proof.
  pose proof suffix_parse_expression_term.
  pose proof suffix_parse_expression_while.
  unfold _parse_expression. spost_auto.
Qed.

Lemma suffix_parse_declaration_property (fuel : nat) (src : str) (n : pyval) :
  post (fun a => suffix_of src (fst a))
       (_parse_declaration_property py3 css_builder fuel self src n).
Proof.
  pose proof suffix_parse_expression.
  unfold _parse_declaration_property. spost_auto.
Qed.

Lemma suffix_parse_declaration (fuel : nat) (src : str) :
  post (fun a => suffix_of src (fst a))
       (_parse_declaration py3 css_builder fuel self src).
Proof.
  pose proof suffix_parse_declaration_property.
  unfold _parse_declaration. spost_auto.
Qed.

End Suffixes.


(** *** The placeholder of the star hack *)

Lemma ident_after_nothing_suffix (rest : str) :
  exists id rest',
    match_result Pat.re_ident (txt "-nothing-" ++ rest) = (Some id, rest')
    /\ suffix_of rest rest'.
Proof.
  destruct (ident_after_nothing rest) as (id & rest' & E & L).
  exists id, rest'. split; [exact E|].
  unfold match_result in E.
  destruct (Re.rmatch true Pat.re_ident (txt "-nothing-" ++ rest))
    as [[c r]|] eqn:Em; [|discriminate].
  injection E as _ ->.
  exact (@suffix_behind _ _ _ (@suffix_rmatch _ _ _ _ _ Em) L).
Qed.

Section SuffixesOfDeclarations.
Variable py3 : bool.
Variable B : Type.
Variable css_builder : builder B.
Hypothesis Hhooks : hooks_hand_back_suffixes css_builder.
Variable self : Self B.
Hypothesis Hself : Self_leaves_suffixes self.

Lemma suffix_parse_declaration_nothing (fuel : nat) (rest : str) :
  post (fun a => suffix_of rest (fst a))
       (_parse_declaration py3 css_builder fuel self
                           (txt "-nothing-" ++ rest)).
Proof.
  pose proof (suffix_parse_declaration_property py3 Hhooks Hself).
  unfold _parse_declaration, _get_ident.
  rewrite _get_match_result_ret by (vm_compute; lia).
  destruct (ident_after_nothing_suffix rest) as (id & rest' & E & L).
  rewrite E, bind_ret. cbv beta iota. spost_auto.
Qed.

Lemma inside_parse_declaration (fuel : nat) (src : str) :
  post (fun a => inside src (fst a))
       (_parse_declaration py3 css_builder fuel self src).
Proof.
  apply post_and.
  - now apply suffix_parse_declaration.
  - intros w a w' E rest ->.
    exact (suffix_parse_declaration_nothing _ _ _ E).
Qed.

Lemma inside_refl (src : str) :
  str_in (first1 src)
         [txt ""; txt ","; txt "{"; txt "}"; txt "["; txt "]"; txt "(";
          txt ")"; txt "@"] = true ->
  inside src src.
Proof.
  intros H. split; [apply suffix_refl|]. intros rest ->. discriminate.
Qed.

Lemma inside_trans (src s1 s2 : str) :
  inside src s1 -> suffix_of s1 s2 -> inside src s2.
Proof.
  intros [H1 H2] L. split; [exact (suffix_trans H1 L)|].
  intros rest E. exact (suffix_trans (H2 rest E) L).
Qed.

Lemma inside_parse_declaration_group_while (fuel : nat) :
  forall src properties,
    post (fun a => inside src (fst a))
         (_parse_declaration_group_while py3 css_builder fuel self src
                                         properties).
Proof.
  induction fuel as [|fuel IH]; intros src properties;
    cbn [_parse_declaration_group_while];
    destruct (str_in (first1 src) _) eqn:Hstop;
    try (apply post_ret; now apply inside_refl);
    try apply post_diverge.
  eapply post_bind; [apply inside_parse_declaration|].
  intros [s1 property] H1. cbn [fst] in H1.
  destruct (startswith s1 (txt "*")).
  - eapply post_weaken; [apply IH|]. intros a [_ Ha].
    specialize (Ha _ eq_refl). eapply inside_trans; [exact H1|].
    exact (suffix_trans (suffix_from 1 s1) Ha).
  - destruct (is_None property).
    + apply post_ret. exact H1.
    + destruct (startswith s1 (txt ";")).
      * eapply post_weaken; [apply IH|]. intros a [Ha _].
        eapply inside_trans; [exact H1|].
        exact (suffix_trans (suffix_from 1 s1)
                            (suffix_trans (suffix_lstrip _) Ha)).
      * apply post_ret. exact H1.
Qed.

Lemma suffix_parse_declaration_group_while (fuel : nat) :
  forall src properties,
    post (fun a => suffix_of src (fst a))
         (_parse_declaration_group_while py3 css_builder fuel self src
                                         properties).
Proof.
  intros. eapply post_weaken; [apply inside_parse_declaration_group_while|].
  intros a [H _]. exact H.
Qed.

Lemma suffix_parse_declaration_group (fuel : nat) (src : str)
      (braces : bool) :
  post (fun a => suffix_of src (fst a))
       (_parse_declaration_group py3 css_builder fuel self src braces).
Proof.
  pose proof suffix_parse_declaration_group_while.
  unfold _parse_declaration_group. spost_auto.
Qed.

End SuffixesOfDeclarations.

Section SuffixesOfRules.
Variable py3 : bool.
Variable B : Type.
Variable css_builder : builder B.
Hypothesis Hhooks : hooks_hand_back_suffixes css_builder.
Variable self : Self B.
Hypothesis Hself : Self_leaves_suffixes self.

Lemma suffix_parse_selector_attribute (src : str) (selector : pyval) :
  post (fun a => suffix_of src (fst a))
       (_parse_selector_attribute py3 css_builder src selector).
Proof. unfold _parse_selector_attribute. spost_auto. Qed.

Lemma suffix_parse_selector_pseudo (fuel : nat) (src : str)
      (selector : pyval) :
  post (fun a => suffix_of src (fst a))
       (_parse_selector_pseudo py3 css_builder fuel self src selector).
Proof.
  pose proof (suffix_parse_expression py3 Hhooks Hself).
  unfold _parse_selector_pseudo. cbv zeta.
  destruct (startswith src (txt ":")) eqn:Hs; [|apply post_raise].
  cbn [negb].
  match goal with
  | |- post _ (match ?e with _ => _ end) =>
      destruct e as [[c r]|] eqn:Hm; [|apply post_raise]
  end.
  destruct (Re.group 1 c) as [g|] eqn:Hg; [|apply post_raise].
  pose proof (proj1 (@suffix_pseudo src c r g Hs Hm Hg)).
  spost_auto.
Qed.

Lemma suffix_parse_simple_selector_while (fuel : nat) :
  forall src selector,
    post (fun a => suffix_of src (fst a))
         (_parse_simple_selector_while py3 css_builder fuel self src selector).
Proof.
  pose proof suffix_parse_selector_attribute.
  pose proof suffix_parse_selector_pseudo.
  induction fuel as [|fuel IH]; intros; cbn [_parse_simple_selector_while];
    spost_auto.
Qed.

Lemma suffix_parse_simple_selector (fuel : nat) (src : str) :
  post (fun a => suffix_of src (fst a))
       (_parse_simple_selector py3 css_builder fuel self src).
Proof.
  pose proof suffix_parse_simple_selector_while.
  unfold _parse_simple_selector. spost_auto.
Qed.

Lemma suffix_parse_selector_while (fuel : nat) :
  forall srcLen src selector,
    post (fun a => suffix_of src (fst a))
         (_parse_selector_while py3 css_builder fuel self srcLen src selector).
Proof.
  pose proof suffix_parse_simple_selector.
  induction fuel as [|fuel IH]; intros; cbn [_parse_selector_while];
    spost_auto.
Qed.

Lemma suffix_parse_selector (fuel : nat) (src : str) :
  post (fun a => suffix_of src (fst a))
       (_parse_selector py3 css_builder fuel self src).
Proof.
  pose proof suffix_parse_simple_selector.
  pose proof suffix_parse_selector_while.
  unfold _parse_selector. spost_auto.
Qed.

Lemma suffix_parse_selector_group_while (fuel : nat) :
  forall src selectors,
    post (fun a => suffix_of src (fst a))
         (_parse_selector_group_while py3 css_builder fuel self src selectors).
Proof.
  pose proof suffix_parse_selector.
  induction fuel as [|fuel IH]; intros; cbn [_parse_selector_group_while];
    spost_auto.
Qed.

Lemma suffix_parse_ruleset (fuel : nat) (src : str) :
  post (fun a => suffix_of src (fst a))
       (_parse_ruleset py3 css_builder fuel self src).
Proof.
  pose proof suffix_parse_selector_group_while.
  pose proof (suffix_parse_declaration_group py3 Hhooks Hself).
  unfold _parse_ruleset, _parse_selector_group. spost_auto.
Qed.

Lemma suffix_parse_at_charset (src : str) :
  post (suffix_of src)
       (_parse_at_charset py3 css_builder src).
Proof. unfold _parse_at_charset. spost_auto. Qed.

Lemma spost_bind_unpacked {C} (Q : C -> Prop) (h : Hook.t)
      (args : list pyval) (src : str) (f : str * pyval -> M B C) :
  (forall st v st' s,
      css_builder h args st = (Ok v, st') ->
      returned_source v = Some s -> suffix_of src s) ->
  (forall a, suffix_of src (fst a) -> post Q (f a)) ->
  post Q (r <- invoke css_builder h args ;; a <- unpack_src r ;; f a).
Proof.
  intros Hh Hf.
  eapply post_ext;
    [intros w; symmetry;
     apply (bind_assoc (invoke css_builder h args) unpack_src f)|].
  eapply post_bind; [apply spost_unpacked; exact Hh|exact Hf].
Qed.

Lemma suffix_parse_at_imports_mediums (fuel : nat) :
  forall medium src mediums,
    post (fun a => suffix_of src (fst a))
         (_parse_at_imports_mediums (B:=B) fuel medium src mediums).
Proof.
  induction fuel as [|fuel IH]; intros; cbn [_parse_at_imports_mediums];
    spost_auto.
Qed.

Lemma suffix_parse_at_imports_while (fuel : nat) :
  forall src result,
    post (fun a => suffix_of src (fst a))
         (_parse_at_imports_while py3 css_builder fuel src result).
Proof.
  pose proof suffix_parse_at_imports_mediums.
  induction fuel as [|fuel IH]; intros; cbn [_parse_at_imports_while];
    spost_auto.
Qed.

Lemma suffix_parse_at_namespace_while (fuel : nat) :
  forall src,
    post (suffix_of src)
         (_parse_at_namespace_while py3 css_builder fuel src).
Proof.
  induction fuel as [|fuel IH]; intros; cbn [_parse_at_namespace_while];
    spost_auto.
Qed.

Lemma suffix_parse_at_namespace (fuel : nat) (src : str) :
  post (suffix_of src)
       (_parse_at_namespace py3 css_builder fuel src).
Proof.
  pose proof suffix_parse_at_namespace_while.
  unfold _parse_at_namespace. spost_auto.
Qed.

Lemma suffix_parse_at_media_mediums (fuel : nat) :
  forall ctxsrc src mediums,
    post (fun a => suffix_of src (fst a))
         (_parse_at_media_mediums (B:=B) fuel ctxsrc src mediums).
Proof.
  induction fuel as [|fuel IH]; intros; cbn [_parse_at_media_mediums];
    spost_auto.
Qed.

Lemma suffix_parse_at_media_rules (fuel : nat) :
  forall src stylesheet_elements,
    post (fun a => suffix_of src (fst a))
         (_parse_at_media_rules py3 css_builder fuel self src
                                stylesheet_elements).
Proof.
  pose proof suffix_parse_ruleset.
  induction fuel as [|fuel IH]; intros; cbn [_parse_at_media_rules];
    spost_auto.
Qed.

Lemma suffix_parse_at_media (fuel : nat) (src : str) :
  post (fun a => suffix_of src (fst a))
       (_parse_at_media py3 css_builder fuel self src).
Proof.
  pose proof suffix_parse_at_media_mediums.
  pose proof suffix_parse_at_media_rules.
  unfold _parse_at_media. spost_auto.
Qed.

Lemma suffix_parse_at_page_while (fuel : nat) :
  forall src stylesheet_elements properties,
    post (fun a => suffix_of src (fst a))
         (_parse_at_page_while py3 css_builder fuel self src
                               stylesheet_elements properties).
Proof.
  pose proof (suffix_parse_declaration_group py3 Hhooks Hself).
  induction fuel as [|fuel IH]; intros; cbn [_parse_at_page_while];
    spost_auto.
Qed.

Lemma suffix_parse_at_page (fuel : nat) (src : str) :
  post (fun a => suffix_of src (fst a))
       (_parse_at_page py3 css_builder fuel self src).
Proof.
  pose proof suffix_parse_at_page_while.
  unfold _parse_at_page. spost_auto.
Qed.

Lemma suffix_parse_at_frame (fuel : nat) (src : str) :
  post (fun a => suffix_of src (fst a))
       (_parse_at_frame py3 css_builder fuel self src).
Proof.
  pose proof (suffix_parse_declaration_group py3 Hhooks Hself).
  unfold _parse_at_frame. spost_auto.
Qed.

Lemma suffix_parse_at_font_face (fuel : nat) (src : str) :
  post (fun a => suffix_of src (fst a))
       (_parse_at_font_face py3 css_builder fuel self src).
Proof.
  pose proof (suffix_parse_declaration_group py3 Hhooks Hself).
  unfold _parse_at_font_face. spost_auto.
Qed.

Lemma suffix_parse_at_ident (fuel : nat) (src : str) :
  post (fun a => suffix_of src (fst a))
       (_parse_at_ident py3 css_builder fuel self src).
Proof.
  pose proof (suffix_parse_declaration_group py3 Hhooks Hself).
  unfold _parse_at_ident. cbv zeta.
  repeat lazymatch goal with
         | |- post _ (bind (invoke _ Hook.at_ident _) _) =>
             eapply spost_bind_unpacked;
             [intros; eapply (proj2 Hhooks); eassumption
             |cbv beta; intros; cbn [fst snd] in *]
         | |- _ => spost_step
         end.
Qed.

Lemma suffix_parse_at_keyword (fuel : nat) (src : str) :
  post (fun a => suffix_of src (fst a))
       (_parse_at_keyword py3 css_builder fuel self src).
Proof.
  pose proof suffix_parse_at_media.
  pose proof suffix_parse_at_page.
  pose proof suffix_parse_at_font_face.
  pose proof suffix_parse_at_imports_while.
  pose proof suffix_parse_at_frame.
  pose proof suffix_parse_at_ident.
  unfold _parse_at_keyword, _parse_at_imports. spost_auto.
Qed.

(** The rule loop of a stylesheet ends at the end of the source only. *)
Lemma stylesheet_while_leaves_nothing (fuel : nat) :
  forall src stylesheet_elements,
    post (fun a => fst a = [])
         (_parse_stylesheet_while py3 css_builder fuel self src
                                  stylesheet_elements).
Proof.
  induction fuel as [|fuel IH]; intros src stylesheet_elements;
    cbn [_parse_stylesheet_while];
    (destruct src as [|c src]; [apply post_ret; reflexivity|]);
    cbn [CSSParseError.nonempty]; [apply post_diverge|].
  eapply post_bind; [apply post_any|]. intros [s e] _. apply IH.
Qed.

Lemma suffix_parse_stylesheet (fuel : nat) (src : str) :
  post (fun a => suffix_of src (fst a))
       (_parse_stylesheet py3 css_builder fuel self src).
Proof.
  unfold _parse_stylesheet. cbv zeta.
  eapply post_bind; [apply post_any|]. intros s1 _.
  eapply post_bind; [apply post_any|]. intros [s2 imports] _.
  eapply post_bind; [apply post_any|]. intros s3 _.
  eapply post_bind; [apply stylesheet_while_leaves_nothing|].
  intros [s4 elements] E. cbn [fst] in E. subst s4.
  eapply post_bind; [apply post_any|]. intros v _.
  apply post_ret. apply suffix_nil.
Qed.

End SuffixesOfRules.


Lemma Self_suffix_self_at (py3 : bool) (B : Type) (css_builder : builder B) :
  hooks_hand_back_suffixes css_builder ->
  forall fuel, Self_leaves_suffixes (self_at py3 css_builder fuel).
Proof.
  intros Hhooks. induction fuel as [|fuel IH]; cbn [self_at].
  - repeat split; intros; apply post_diverge.
  - repeat split; cbn [self_parse_expression self_parse_at_keyword
                       self_parse_stylesheet]; intros.
    + apply suffix_parse_expression; assumption.
    + apply suffix_parse_at_keyword; assumption.
    + apply suffix_parse_stylesheet; assumption.
Qed.


(** * Progress *)

(** A match leaves no more than it was given, and less when the pattern
    cannot match the empty text. *)
Lemma run_progress (ci : bool) (r : Re.re) :
  forall (R : Type) (s : str) (c : Re.caps) (k : str -> Re.caps -> option R)
         (x : R),
    Re.run ci r s c k = Some x ->
    exists s' c', k s' c' = Some x /\ length s' <= length s
                  /\ (can_match_empty r = false -> length s' < length s).
Proof.
  induction r as [|ch|neg rs| | |a IHa b IHb|a IHa b IHb|lo hi a IHa|i a IHa
                 |a IHa];
    intros R s c k x H; cbn [Re.run can_match_empty] in *.
  - exists s, c. split; [exact H|]. split; [lia|discriminate].
  - destruct s as [|y s]; [discriminate|].
    destruct (Re.chr_eq ci ch y); [|discriminate].
    exists s, c. cbn [length]. split; [exact H|]. split; lia.
  - destruct s as [|y s]; [discriminate|].
    destruct (xorb neg (Re.in_cls ci rs y)); [|discriminate].
    exists s, c. cbn [length]. split; [exact H|]. split; lia.
  - destruct s as [|y s]; [discriminate|].
    destruct (N.eqb y 10); [discriminate|].
    exists s, c. cbn [length]. split; [exact H|]. split; lia.
  - destruct s as [|y s]; [discriminate|].
    exists s, c. cbn [length]. split; [exact H|]. split; lia.
  - apply IHa in H. destruct H as (s1 & c1 & H & L1 & P1).
    apply IHb in H. destruct H as (s2 & c2 & H & L2 & P2).
    exists s2, c2. split; [exact H|]. split; [lia|].
    intros E. apply andb_false_iff in E as [E|E];
      [specialize (P1 E)|specialize (P2 E)]; lia.
  - destruct (Re.run ci a s c k) as [y|] eqn:E.
    + injection H as <-. apply IHa in E.
      destruct E as (s1 & c1 & E & L1 & P1).
      exists s1, c1. split; [exact E|]. split; [exact L1|].
      intros N. apply orb_false_iff in N as [N _]. auto.
    + apply IHb in H. destruct H as (s1 & c1 & E' & L1 & P1).
      exists s1, c1. split; [exact E'|]. split; [exact L1|].
      intros N. apply orb_false_iff in N as [_ N]. auto.
  - cbv beta iota zeta fix in H. revert H. generalize (length s) at 1.
    intros m. revert lo hi s c x.
    induction m as [|m IHm]; intros lo hi s c x H;
      cbv beta iota zeta fix in H.
    + destruct (Nat.eqb lo 0) eqn:El; [|discriminate].
      exists s, c. split; [exact H|]. split; [lia|discriminate].
    + assert (Hstop : forall y, (if Nat.eqb lo 0 then k s c else None) = Some y ->
                      exists s' c', k s' c' = Some y /\ length s' <= length s
                        /\ (Nat.eqb lo 0 || can_match_empty a = false ->
                            length s' < length s)).
      { intros y. destruct (Nat.eqb lo 0); [|discriminate]. intros E.
        exists s, c. split; [exact E|]. split; [lia|discriminate]. }
      match type of H with
      | match ?e with _ => _ end = _ => destruct e as [y|] eqn:E
      end; [injection H as <-|now apply Hstop].
      destruct hi as [[|h]|]; [discriminate| |];
        (apply IHa in E; destruct E as (s1 & c1 & E & L1 & P1);
         destruct (Nat.ltb (length s1) (length s)); [|discriminate];
         apply IHm in E; destruct E as (s2 & c2 & E & L2 & _);
         exists s2, c2; split; [exact E|]; split; [lia|];
         intros N; apply orb_false_iff in N as [_ N]; specialize (P1 N); lia).
  - apply IHa in H. destruct H as (s1 & c1 & H & L1 & P1).
    exists s1, ((i, firstn (length s - length s1) s) :: c1).
    split; [exact H|]. split; [exact L1|exact P1].
  - destruct (Re.run ci a s c (fun _ _ => Some tt)); [discriminate|].
    exists s, c. split; [exact H|]. split; [lia|discriminate].
Qed.

Lemma rmatch_progress (ci : bool) (r : Re.re) (s : str) (c : Re.caps)
      (rest : str) :
  can_match_empty r = false ->
  Re.rmatch ci r s = Some (c, rest) -> length rest < length s.
Proof.
  unfold Re.rmatch. intros N H. apply run_progress in H.
  destruct H as (s' & c' & [= _ <-] & _ & P). auto.
Qed.

(** Where [_get_match_result] answers with a group, the match behind it
    consumed at least one character. *)
Lemma post_get_match_result_progress (B : Type) (r : Re.re) (src : str) :
  can_match_empty r = false ->
  post (fun a => length (snd a) <= length src
                 /\ (fst a <> None -> length (snd a) < length src))
       (_get_match_result (B:=B) r src).
Proof.
  intros N. unfold _get_match_result.
  destruct (Re.rmatch true r src) as [[c rest]|] eqn:E.
  - apply (@rmatch_progress _ _ _ _ _ N) in E. destruct (Nat.ltb _ _).
    + apply post_raise.
    + apply post_ret. cbn. lia.
  - apply post_ret. cbn. split; [lia|congruence].
Qed.

Lemma startswith_shorter (s p : str) (H : startswith s p = true) :
  length p <= length s.
Proof. apply startswith_split in H. rewrite H, length_app. lia. Qed.

Lemma not_startswith_shorter (s p : str)
      (H : negb (startswith s p) = false) : length p <= length s.
Proof. apply negb_false_iff in H. now apply startswith_shorter. Qed.

Lemma first1_shorter (s p : str) (H : str_eqb (first1 s) p = true) :
  length p <= length s.
Proof.
  apply str_eqb_eq in H. subst p. unfold first1. apply upto_length.
Qed.

Lemma not_first1_shorter (s p : str)
      (H : negb (str_eqb (first1 s) p) = false) : length p <= length s.
Proof. apply negb_false_iff in H. now apply first1_shorter. Qed.

Ltac learn_at_least s p H0 :=
  let n := eval vm_compute in (length p) in
  lazymatch goal with
  | _ : n <= length s |- _ => fail
  | _ => assert (n <= length s) by (exact H0)
  end.

Ltac prog_hyps :=
  repeat match goal with
         | H : startswith ?s ?p = true |- _ =>
             learn_at_least s p (@startswith_shorter s p H)
         | H : negb (startswith ?s ?p) = false |- _ =>
             learn_at_least s p (@not_startswith_shorter s p H)
         | H : str_eqb (first1 ?s) ?p = true |- _ =>
             learn_at_least s p (@first1_shorter s p H)
         | H : negb (str_eqb (first1 ?s) ?p) = false |- _ =>
             learn_at_least s p (@not_first1_shorter s p H)
         end.

Ltac plen :=
  cbn [fst snd length] in *; len_hyps; prog_hyps; len_facts;
  cbn [length] in *; lia.

Ltac ppost_step :=
  lazymatch goal with
  | |- post _ (ret _) => apply post_ret; plen
  | |- post _ (raise _) => apply post_raise
  | |- post _ (raise_ParseError _ _ _) => apply post_raise
  | |- post _ diverge => apply post_diverge
  | |- post _ (bind (ret _) _) => apply post_bind_ret; cbv beta
  | |- post _ (bind (raise _) _) => apply post_raise
  | |- post _ (bind (raise_ParseError _ _ _) _) => apply post_raise
  | |- post _ (bind (except_ParseError _ _) _) =>
      apply post_bind_except; [|intros]
  | |- post _ (bind (bind _ _) _) =>
      apply post_assoc
  | |- post _ (bind (if ?c then _ else _) _) => destruct c eqn:?
  | |- post _ (bind (match ?x with _ => _ end) _) => destruct x eqn:?
  | |- post _ (bind _ _) =>
      eapply post_bind; [post_sub|cbv beta; intros; cbn [fst snd] in *]
  | |- post _ (except_ParseError _ _) => apply post_except; [|intros]
  | |- post _ (match _get_string ?p ?s ?r with _ => _ end) =>
      let H := fresh "Hlen" in
      pose proof (get_string_shorter p s r) as H;
      destruct (_get_string p s r); cbn [snd] in H
  | |- post _ (match _get_string_or_uri ?p ?s with _ => _ end) =>
      let H := fresh "Hlen" in
      pose proof (get_string_or_uri_shorter p s) as H;
      destruct (_get_string_or_uri p s); cbn [snd] in H
  | |- post _ (match (match ?y with _ => _ end) with _ => _ end) =>
      destruct y eqn:?
  | |- post _ (match (if ?y then _ else _) with _ => _ end) =>
      destruct y eqn:?
  | |- post _ (if ?c then _ else _) => destruct c eqn:?
  | |- post _ (match ?x with _ => _ end) => destruct x eqn:?; cbn [fst snd] in *
  | |- post _ ?m =>
      first
        [ match m with
          | context [if ?c then _ else _] => destruct c eqn:?
          | context [match ?c with Some _ => _ | None => _ end] =>
              destruct c eqn:?
          end
        | eapply post_weaken;
          [post_sub|cbv beta; intros; cbn [fst snd] in *; plen] ]
  end.

Ltac ppost_auto := cbv zeta; repeat ppost_step.

Section Progress.
Variable py3 : bool.
Variable B : Type.
Variable css_builder : builder B.
Hypothesis Hhooks : hooks_consume css_builder.
Variable self : Self B.
Hypothesis Hself : Self_shrinks self.

Lemma progress_parse_selector_attribute (src : str) (selector : pyval) :
  post (fun a => length (fst a) < length src)
       (_parse_selector_attribute py3 css_builder src selector).
Proof. unfold _parse_selector_attribute. ppost_auto. Qed.

Lemma progress_parse_selector_pseudo (fuel : nat) (src : str)
      (selector : pyval) :
  post (fun a => length (fst a) < length src)
       (_parse_selector_pseudo py3 css_builder fuel self src selector).
Proof.
  pose proof (shrinks_parse_expression py3 Hhooks Hself).
  unfold _parse_selector_pseudo. cbv zeta.
  destruct (startswith src (txt ":")) eqn:Hs; [|apply post_raise].
  cbn [negb].
  match goal with
  | |- post _ (match ?e with _ => _ end) =>
      destruct e as [[c r]|] eqn:Hm; [|apply post_raise]
  end.
  destruct (Re.group 1 c) as [g|] eqn:Hg; [|apply post_raise].
  pose proof (proj2 (@suffix_pseudo src c r g Hs Hm Hg)).
  clear Hm Hg. ppost_auto.
Qed.

Lemma progress_parse_declaration_group (fuel : nat) (src : str) :
  post (fun a => length (fst a) < length src)
       (_parse_declaration_group py3 css_builder fuel self src true).
Proof.
  pose proof (shrinks_parse_declaration_group_while py3 Hhooks Hself).
  unfold _parse_declaration_group. ppost_auto.
Qed.

Lemma progress_parse_ruleset (fuel : nat) (src : str) :
  post (fun a => length (fst a) < length src)
       (_parse_ruleset py3 css_builder fuel self src).
Proof.
  pose proof (shrinks_parse_selector_group_while py3 Hhooks Hself).
  pose proof progress_parse_declaration_group.
  unfold _parse_ruleset, _parse_selector_group. ppost_auto.
Qed.

Lemma progress_parse_at_media (fuel : nat) (src : str) :
  post (fun a => length (fst a) < length src)
       (_parse_at_media py3 css_builder fuel self src).
Proof.
  pose proof (@shrinks_parse_at_media_mediums B).
  pose proof (shrinks_parse_at_media_rules py3 Hhooks Hself).
  unfold _parse_at_media. ppost_auto.
Qed.

Lemma progress_parse_at_page (fuel : nat) (src : str) :
  post (fun a => length (fst a) < length src)
       (_parse_at_page py3 css_builder fuel self src).
Proof.
  pose proof (shrinks_parse_at_page_while py3 Hhooks Hself).
  unfold _parse_at_page. ppost_auto.
Qed.

Lemma progress_parse_at_frame (fuel : nat) (src : str) :
  post (fun a => length (fst a) < length src)
       (_parse_at_frame py3 css_builder fuel self src).
Proof.
  pose proof progress_parse_declaration_group.
  unfold _parse_at_frame. ppost_auto.
Qed.

Lemma progress_parse_at_font_face (fuel : nat) (src : str) :
  post (fun a => length (fst a) < length src)
       (_parse_at_font_face py3 css_builder fuel self src).
Proof.
  pose proof progress_parse_declaration_group.
  unfold _parse_at_font_face. ppost_auto.
Qed.

End Progress.

(** ** Progress of the selector, whatever the simple selector consumed *)

(** A match either consumes a character or answers that nothing matched,
    when the pattern cannot match the empty text. *)
Lemma post_get_match_result_or_nothing (B : Type) (r : Re.re) (src : str) :
  can_match_empty r = false ->
  post (fun a => length (snd a) < length src \/ a = (None, src))
       (_get_match_result (B:=B) r src).
Proof.
  intros N. unfold _get_match_result.
  destruct (Re.rmatch true r src) as [[c rest]|] eqn:E.
  - apply (@rmatch_progress _ _ _ _ _ N) in E. destruct (Nat.ltb _ _).
    + apply post_raise.
    + apply post_ret. cbn. auto.
  - apply post_ret. auto.
Qed.

Lemma startswith_nil (s : str) : startswith s [] = true.
Proof. now destruct s. Qed.

Lemma first1_cons (c : char) (s : str) : first1 (c :: s) = [c].
Proof. reflexivity. Qed.

Lemma startswith_char (c x : char) (s : str) :
  startswith (c :: s) [x] = N.eqb x c.
Proof. cbn [startswith]. now rewrite startswith_nil, andb_true_r. Qed.

Lemma qualifier_is_no_delimiter (s : str) :
  str_in (first1 s) selector_qualifiers = true ->
  startswith s (txt "[") = false ->
  startswith s (txt ":") = false ->
  lstrip s = s /\ str_in (first1 s) selector_delimiters = false.
Proof.
  destruct s as [|c s]; [discriminate|].
  rewrite first1_cons.
  change (txt "[") with [91%N]. change (txt ":") with [58%N].
  rewrite !startswith_char.
  unfold selector_qualifiers, selector_delimiters, str_in.
  change (txt "#") with [35%N]. change (txt ".") with [46%N].
  change (txt "[") with [91%N]. change (txt ":") with [58%N].
  change (txt ",") with [44%N]. change (txt ";") with [59%N].
  change (txt "{") with [123%N]. change (txt "}") with [125%N].
  change (txt "]") with [93%N]. change (txt "(") with [40%N].
  change (txt ")") with [41%N]. change (txt "") with (@nil char).
  cbn [existsb str_eqb lstrip].
  rewrite !andb_true_r, !orb_false_r.
  rewrite (N.eqb_sym 91 c), (N.eqb_sym 58 c).
  intros Hq Hb Hc. rewrite Hb, Hc in Hq. rewrite Hb.
  destruct (N.eqb_spec c 35) as [->|_]; [split; reflexivity|].
  destruct (N.eqb_spec c 46) as [->|_]; [split; reflexivity|].
  discriminate.
Qed.

Lemma no_qualifier_no_bracket (s : str) :
  CSSParseError.nonempty s && str_in (first1 s) selector_qualifiers = false ->
  startswith s (txt "[") = false /\ startswith s (txt ":") = false.
Proof.
  destruct s as [|c s]; [split; reflexivity|].
  rewrite first1_cons.
  change (txt "[") with [91%N]. change (txt ":") with [58%N].
  rewrite !startswith_char.
  unfold selector_qualifiers, str_in.
  change (txt "#") with [35%N]. change (txt ".") with [46%N].
  change (txt "[") with [91%N]. change (txt ":") with [58%N].
  cbn [CSSParseError.nonempty andb existsb str_eqb].
  rewrite !andb_true_r, !orb_false_r.
  rewrite (N.eqb_sym 91 c), (N.eqb_sym 58 c).
  destruct (N.eqb c 35), (N.eqb c 46), (N.eqb c 91), (N.eqb c 58);
    cbn; intros; try discriminate; split; reflexivity.
Qed.

Lemma delimiter_free_is_nonempty (s : str) :
  str_in (first1 s) selector_delimiters = false -> 1 <= length s.
Proof. destruct s; [discriminate|cbn [length]; lia]. Qed.

Section ProgressOfSelectors.
Variable py3 : bool.
Variable B : Type.
Variable css_builder : builder B.
Hypothesis Hhooks : hooks_consume css_builder.
Variable self : Self B.
Hypothesis Hself : Self_shrinks self.

(** The qualifier loop consumes something or hands back its source, which
    then begins with neither a bracket nor a colon. *)
Lemma simple_selector_while_progress (fuel : nat) :
  forall src selector,
    post (fun a => length (fst a) < length src
                   \/ (fst a = src /\ startswith src (txt "[") = false
                       /\ startswith src (txt ":") = false))
         (_parse_simple_selector_while py3 css_builder fuel self src selector).
Proof.
  pose proof (progress_parse_selector_attribute py3 css_builder) as Hattr.
  pose proof (progress_parse_selector_pseudo py3 Hhooks Hself) as Hpseudo.
  pose proof (shrinks_parse_simple_selector_while py3 Hhooks Hself) as Hle.
  induction fuel as [|fuel IH]; intros src selector;
    cbn [_parse_simple_selector_while];
    destruct (CSSParseError.nonempty src && str_in (first1 src) _) eqn:Hq;
    try apply post_diverge;
    try (apply post_ret; right; split; [reflexivity|];
         now apply no_qualifier_no_bracket).
  assert (Hrec : forall s sel,
             length s < length src ->
             post (fun a => length (fst a) < length src
                            \/ (fst a = src
                                /\ startswith src (txt "[") = false
                                /\ startswith src (txt ":") = false))
                  (_parse_simple_selector_while py3 css_builder fuel self s
                                                sel)).
  { intros s sel L. eapply post_weaken; [apply Hle|].
    cbv beta. intros a La. left. lia. }
  eapply post_bind;
    [apply post_get_match_result_or_nothing; reflexivity|].
  intros [hash_ s1] [L1|E1]; cbn [snd] in *.
  - destruct hash_.
    + eapply post_bind; [apply post_any|]. intros _ _. now apply Hrec.
    + eapply post_bind; [apply post_get_match_result|].
      intros [class_ s2] L2. cbn [snd] in L2. destruct class_.
      * eapply post_bind; [apply post_any|]. intros _ _. apply Hrec. lia.
      * destruct (startswith s2 (txt "[")).
        -- eapply post_bind; [apply Hattr|]. intros [s3 sel3] L3.
           cbn [fst] in L3. apply Hrec. lia.
        -- destruct (startswith s2 (txt ":")).
           ++ eapply post_bind; [apply Hpseudo|]. intros [s3 sel3] L3.
              cbn [fst] in L3. apply Hrec. lia.
           ++ apply post_ret. left. cbn [fst]. lia.
  - injection E1 as -> ->.
    eapply post_bind;
      [apply post_get_match_result_or_nothing; reflexivity|].
    intros [class_ s2] [L2|E2]; cbn [snd] in *.
    + destruct class_.
      * eapply post_bind; [apply post_any|]. intros _ _. now apply Hrec.
      * destruct (startswith s2 (txt "[")).
        -- eapply post_bind; [apply Hattr|]. intros [s3 sel3] L3.
           cbn [fst] in L3. apply Hrec. lia.
        -- destruct (startswith s2 (txt ":")).
           ++ eapply post_bind; [apply Hpseudo|]. intros [s3 sel3] L3.
              cbn [fst] in L3. apply Hrec. lia.
           ++ apply post_ret. left. cbn [fst]. lia.
    + injection E2 as -> ->.
      destruct (startswith src (txt "[")) eqn:Eb.
      * eapply post_bind; [apply Hattr|]. intros [s3 sel3] L3.
        cbn [fst] in L3. now apply Hrec.
      * destruct (startswith src (txt ":")) eqn:Ec.
        -- eapply post_bind; [apply Hpseudo|]. intros [s3 sel3] L3.
           cbn [fst] in L3. now apply Hrec.
        -- apply post_ret. right. auto.
Qed.

(** A simple selector consumes something, or what it hands back begins
    with no delimiter. *)
Lemma simple_selector_progress (fuel : nat) (src : str) :
  post (fun a => length (fst a) < length src
                 \/ str_in (first1 (fst a)) selector_delimiters = false)
       (_parse_simple_selector py3 css_builder fuel self src).
Proof.
  pose proof (shrinks_parse_simple_selector_while py3 Hhooks Hself) as Hle.
  unfold _parse_simple_selector. cbv zeta.
  eapply post_bind; [apply post_get_match_result|].
  intros [nsPrefix s0] L0. cbn [snd] in L0.
  eapply post_bind;
    [apply post_get_match_result_or_nothing; reflexivity|].
  intros [name s1] H1. cbn [snd] in H1.
  assert (Hstrict : forall n,
             length s1 < length src ->
             post (fun a => length (fst a) < length src
                            \/ str_in (first1 (fst a)) selector_delimiters
                               = false)
                  (name <- invoke css_builder Hook.resolve_namespace_prefix
                                  [opt_str nsPrefix; PStr n] ;;
                   selector <- invoke css_builder Hook.selector [name] ;;
                   '(src, selector) <-
                     _parse_simple_selector_while py3 css_builder fuel self
                                                  s1 selector ;;
                   ret (lstrip src, selector))).
  { intros n L. eapply post_bind; [apply post_any|]. intros v _.
    eapply post_bind; [apply post_any|]. intros sel _.
    eapply post_bind; [apply Hle|]. intros [s2 sel2] L2. cbn [fst] in L2.
    apply post_ret. left. cbn [fst]. pose proof (lstrip_length s2). lia. }
  assert (Hqual : str_in (first1 s1) selector_qualifiers = true ->
             post (fun a => length (fst a) < length src
                            \/ str_in (first1 (fst a)) selector_delimiters
                               = false)
                  (name <- invoke css_builder Hook.resolve_namespace_prefix
                                  [opt_str nsPrefix; PStr (txt "*")] ;;
                   selector <- invoke css_builder Hook.selector [name] ;;
                   '(src, selector) <-
                     _parse_simple_selector_while py3 css_builder fuel self
                                                  s1 selector ;;
                   ret (lstrip src, selector))).
  { intros Hq. eapply post_bind; [apply post_any|]. intros v _.
    eapply post_bind; [apply post_any|]. intros sel _.
    eapply post_bind; [apply simple_selector_while_progress|].
    intros [s2 sel2] [L2|(E2 & Hb & Hc)]; cbn [fst] in *.
    - apply post_ret. left. cbn [fst]. pose proof (lstrip_length s2).
      destruct H1 as [H1|H1]; [lia|]. injection H1 as _ ->. lia.
    - subst s2. destruct (@qualifier_is_no_delimiter s1 Hq Hb Hc) as [El Hd].
      apply post_ret. right. cbn [fst]. now rewrite El. }
  destruct name as [[|x g]|].
  - destruct (str_in (first1 s1) selector_qualifiers) eqn:Hq;
      [|apply post_raise]. now apply Hqual.
  - apply post_bind_ret. apply Hstrict.
    destruct H1 as [H1|H1]; [lia|discriminate].
  - destruct (str_in (first1 s1) selector_qualifiers) eqn:Hq;
      [|apply post_raise]. now apply Hqual.
Qed.

(** The combinator loop, entered with a source that is shorter than [L] or
    begins with no delimiter, hands back less than [L]. *)
Lemma selector_while_progress (L : nat) (fuel : nat) :
  forall srcLen src selector,
    length src <= L -> srcLen <= L ->
    (length src < L
     \/ (str_in (first1 src) selector_delimiters = false /\ 1 <= srcLen)) ->
    post (fun a => length (fst a) < L)
         (_parse_selector_while py3 css_builder fuel self srcLen src selector).
Proof.
  pose proof (shrinks_parse_simple_selector py3 Hhooks Hself) as Hle.
  induction fuel as [|fuel IH]; intros srcLen src selector H1 H2 H3;
    cbn [_parse_selector_while];
    destruct (str_in (first1 src) selector_delimiters) eqn:Hd;
    try (apply post_ret; cbn [fst]; pose proof (lstrip_length src);
         destruct H3 as [H3|[H3 _]]; [lia|discriminate]);
    try apply post_diverge.
  assert (Hbody : forall combiner s,
             length s <= length src ->
             post (fun a => length (fst a) < L)
                  ('(src, selectorB) <-
                     _parse_simple_selector py3 css_builder fuel self s ;;
                   if Nat.leb srcLen (length src) then
                     let src := from 1 src in
                     let src := skip_to_delimiter src in
                     ret (lstrip src, PNone)
                   else
                     selector <- invoke css_builder Hook.combine_selectors
                                        [selector; PStr combiner; selectorB] ;;
                     _parse_selector_while py3 css_builder fuel self srcLen
                                           src selector)).
  { intros combiner s Ls. eapply post_bind; [apply Hle|].
    intros [s2 selB] L2. cbn [fst] in L2.
    destruct (Nat.leb_spec srcLen (length s2)) as [Hge|Hlt].
    - cbv zeta. apply post_ret. cbn [fst].
      pose proof (lstrip_length (skip_to_delimiter (from 1 s2))).
      pose proof (skip_to_delimiter_length (from 1 s2)).
      pose proof (from_length 1 s2).
      destruct H3 as [H3|[_ H3]]; lia.
    - eapply post_bind; [apply post_any|]. intros sel _.
      apply IH; [lia|exact H2|left; lia]. }
  destruct (first_prefix selector_combiners src) as [combiner|].
  - apply Hbody. pose proof (lstrip_length (from (length combiner) src)).
    pose proof (from_length (length combiner) src). lia.
  - apply Hbody. lia.
Qed.

Lemma progress_parse_selector (fuel : nat) (src : str) :
  post (fun a => length (fst a) < length src)
       (_parse_selector py3 css_builder fuel self src).
Proof.
  unfold _parse_selector.
  eapply post_bind;
    [apply post_and;
     [apply (shrinks_parse_simple_selector py3 Hhooks Hself)
     |apply simple_selector_progress]|].
  intros [s1 selector] [L1 P1]. cbn [fst] in *. cbv zeta.
  apply selector_while_progress; [exact L1|exact L1|].
  destruct P1 as [P1|P1]; [now left|right].
  split; [exact P1|now apply delimiter_free_is_nonempty].
Qed.

Lemma progress_parse_at_ident (fuel : nat) (src : str) :
  post (fun a => length (fst a) < length src)
       (_parse_at_ident py3 css_builder fuel self src).
Proof.
  pose proof (shrinks_parse_declaration_group py3 Hhooks Hself).
  destruct src as [|c0 src].
  - unfold _parse_at_ident, _get_ident. cbv zeta.
    rewrite _get_match_result_ret by (vm_compute; lia).
    change (match_result Pat.re_ident (from 1 [])) with (@None str, @nil char).
    rewrite bind_ret. apply post_raise.
  - unfold _parse_at_ident. cbv zeta.
    change (from 1 (c0 :: src)) with src.
    repeat lazymatch goal with
           | |- post _ (bind (invoke _ Hook.at_ident _) _) =>
               eapply post_bind_unpacked;
               [intros; eapply (proj2 Hhooks); eassumption
               |cbv beta; intros; cbn [fst snd] in *]
           | |- _ => ppost_step
           end.
Qed.

Lemma progress_parse_at_imports_while (fuel : nat) (src : str)
      (result : list pyval) :
  is_at_rule_ident src (Re.Lit "import") = true ->
  post (fun a => length (fst a) < length src)
       (_parse_at_imports_while py3 css_builder fuel src result).
Proof.
  intros Hi.
  pose proof (@shrinks_parse_at_imports_mediums B).
  pose proof (shrinks_parse_at_imports_while py3 css_builder).
  destruct fuel as [|fuel]; cbn [_parse_at_imports_while]; rewrite Hi;
    [apply post_diverge|].
  ppost_auto.
Qed.

Lemma progress_parse_at_keyword (fuel : nat) (src : str) :
  post (fun a => length (fst a) < length src)
       (_parse_at_keyword py3 css_builder fuel self src).
Proof.
  pose proof (progress_parse_at_media py3 Hhooks Hself).
  pose proof (progress_parse_at_page py3 Hhooks Hself).
  pose proof (progress_parse_at_font_face py3 Hhooks Hself).
  pose proof progress_parse_at_imports_while.
  pose proof (progress_parse_at_frame py3 Hhooks Hself).
  pose proof progress_parse_at_ident.
  unfold _parse_at_keyword, _parse_at_imports. ppost_auto.
Qed.

End ProgressOfSelectors.

(** ** The productions together *)

Lemma hooks_hand_back_no_more (B : Type) (css_builder : builder B) :
  hooks_hand_back_suffixes css_builder -> hooks_consume css_builder.
Proof.
  intros [H1 H2]. split; intros; apply suffix_length; eauto.
Qed.

Lemma recorder_hands_back_suffixes : hooks_hand_back_suffixes recorder.
Proof.
  split.
  - intros src st v st' s [= <- <-] [= <-]. apply suffix_refl.
  - intros atIdent cssParser src st v st' s [= <- <-] [= <-].
    apply suffix_refl.
Qed.

(** C2, amended: whatever the source, a production that returns hands back
    an end of the source it was given, so never a longer text, provided the
    two hooks that return a source ([term_unknown] and [at_ident]) hand back
    an end of theirs.  The productions that must match a delimiter or a
    name have then consumed at least one character: the selector, the
    attribute and the pseudo selector, the ruleset, a declaration group in
    braces, the rules [@media], [@page], [@frame] and [@font-face], the
    unknown at-rule, and the at-keyword production that dispatches to
    them. *)
Theorem productions_leave_suffixes_and_progress (py3 : bool) (B : Type)
        (css_builder : builder B) (fuel depth : nat) :
  hooks_hand_back_suffixes css_builder ->
  productions_leave_suffixes py3 css_builder fuel
                             (self_at py3 css_builder depth)
  /\ productions_progress py3 css_builder fuel
                          (self_at py3 css_builder depth).
Proof.
  intros Hhooks.
  pose proof (Self_suffix_self_at py3 Hhooks depth) as Hself.
  pose proof (hooks_hand_back_no_more Hhooks) as Hlen.
  pose proof (Self_shrinks_self_at py3 Hlen depth) as Hshr.
  split; intros src; unfold leaves_suffix, progresses.
  - repeat split; intros.
    + now apply suffix_parse_stylesheet.
    + now apply suffix_parse_at_charset.
    + now apply suffix_parse_at_imports_while.
    + now apply suffix_parse_at_namespace.
    + now apply suffix_parse_at_keyword.
    + now apply suffix_parse_at_media.
    + now apply suffix_parse_at_page.
    + now apply suffix_parse_at_frame.
    + now apply suffix_parse_at_font_face.
    + now apply suffix_parse_at_ident.
    + now apply suffix_parse_ruleset.
    + now apply suffix_parse_selector_group_while.
    + now apply suffix_parse_selector.
    + now apply suffix_parse_simple_selector.
    + now apply suffix_parse_selector_attribute.
    + now apply suffix_parse_selector_pseudo.
    + now apply suffix_parse_declaration_group.
    + now apply suffix_parse_declaration.
    + now apply suffix_parse_declaration_property.
    + now apply suffix_parse_expression.
    + now apply suffix_parse_expression_term.
  - repeat split; intros.
    + now apply progress_parse_at_keyword.
    + now apply progress_parse_at_media.
    + now apply progress_parse_at_page.
    + now apply progress_parse_at_frame.
    + now apply progress_parse_at_font_face.
    + now apply progress_parse_at_ident.
    + now apply progress_parse_ruleset.
    + now apply progress_parse_selector.
    + now apply progress_parse_selector_attribute.
    + now apply progress_parse_selector_pseudo.
    + now apply progress_parse_declaration_group.
Qed.

(** C2, witness: the recording builder. *)
Lemma productions_leave_suffixes_witness :
  productions_leave_suffixes true recorder 5 (self_at true recorder 5)
  /\ productions_progress true recorder 5 (self_at true recorder 5).
Proof.
  exact (productions_leave_suffixes_and_progress
           true 5 5 recorder_hands_back_suffixes).
Defined.

(** C2, as the specification has it, fails: the productions of what may be
    absent hand back the whole of their source.  Given [.1 { color:red }] the
    simple selector consumes nothing; so do the selector group before a
    brace, the declaration and the declaration group without braces where
    no property name stands, the term the builder declines and with it the
    expression and the value of a property, the stylesheet parts
    [@charset], [@import] and [@namespace] where there is no such rule, and
    the stylesheet of an empty source. *)
Lemma productions_that_consume_nothing :
  (exists selector w,
      _parse_simple_selector true recorder 5 (self_at true recorder 5) stuck
                             (start 0%N)
      = (Ret (stuck, selector), w))
  /\ _parse_selector_group true recorder 5 (self_at true recorder 5)
                           (txt "{ color:red }") (start 0%N)
     = (Ret (txt "{ color:red }", []), start 0%N)
  /\ _parse_declaration true recorder 5 (self_at true recorder 5)
                        (txt "}") (start 0%N)
     = (Ret (txt "}", PNone), start 0%N)
  /\ _parse_declaration_group true recorder 5 (self_at true recorder 5)
                              (txt "}") false (start 0%N)
     = (Ret (txt "}", []), start 0%N)
  /\ fst (_parse_expression_term true recorder (self_at true recorder 5)
                                 (txt "$") (start 0%N))
     = Ret (txt "$", PNotImplemented)
  /\ fst (_parse_expression true recorder 5 (self_at true recorder 5)
                            (txt "$") false (start 0%N))
     = Ret (txt "$", PNotImplemented)
  /\ fst (_parse_declaration_property true recorder 5 (self_at true recorder 5)
                                      (txt "$") (PStr (txt "color"))
                                      (start 0%N))
     = Ret (txt "$", PObj 0)
  /\ fst (_parse_stylesheet true recorder 5 (self_at true recorder 5)
                            (txt "") (start 0%N))
     = Ret (txt "", PObj 0)
  /\ _parse_at_charset true recorder (txt "a {}") (start 0%N)
     = (Ret (txt "a {}"), start 0%N)
  /\ _parse_at_imports true recorder 5 (txt "a {}") (start 0%N)
     = (Ret (txt "a {}", []), start 0%N)
  /\ _parse_at_namespace true recorder 5 (txt "a {}") (start 0%N)
     = (Ret (txt "a {}"), start 0%N).
Proof.
  split; [eexists _, _; vm_compute; reflexivity|].
  repeat split; vm_compute; reflexivity.
Qed.
